(** * generate_post.py: briefing-to-HTML rendering and index rebuilding

    A shallow embedding of [src/generate_post.py].  A Python [str] is a
    sequence of Unicode code points and is modelled as a list of code points
    in [N]; the functions below keep the names of the Python functions they
    embed. *)

From Stdlib Require Import String Ascii.
From Stdlib Require Import List NArith Bool Arith Lia Sorted Permutation.
Import ListNotations.

Open Scope N_scope.
Open Scope list_scope.

(** ** Python strings *)

Definition char := N.
Definition str := list char.

(** An ASCII literal of the source, as a list of code points. *)
Definition lit (s : string) : str :=
  List.map N_of_ascii (list_ascii_of_string s).

Definition NL : char := 10.
Definition SPACE : char := 32.
Definition STAR : char := 42.
Definition DOT : char := 46.
Definition AMP : char := 38.
Definition LT : char := 60.
Definition GT : char := 62.
Definition QUOT : char := 34.
Definition APOS : char := 39.
Definition HYPHEN : char := 45.
(** U+2500, the box-drawing dash of the rule lines. *)
Definition BOXDASH : char := 9472.
(** U+1F4F0 (newspaper) and U+1F4C4 (page facing up). *)
Definition NEWSPAPER : char := 128240.
Definition PAGE : char := 128196.

Fixpoint str_eqb (a b : str) : bool :=
  match a, b with
  | [], [] => true
  | x :: a', y :: b' => (x =? y) && str_eqb a' b'
  | _, _ => false
  end.

(** [s.startswith(p)] *)
Fixpoint startswith (s p : str) {struct p} : bool :=
  match p with
  | [] => true
  | y :: p' =>
      match s with
      | [] => false
      | x :: s' => (x =? y) && startswith s' p'
      end
  end.

(** [s.endswith(p)] *)
Definition endswith (s p : str) : bool := startswith (rev s) (rev p).

(** [str.isspace] on one code point: the code points Python treats as
    whitespace in [str.strip()]. *)
Definition is_space (c : char) : bool :=
  ((9 <=? c) && (c <=? 13)) || ((28 <=? c) && (c <=? 32))
  || (c =? 133) || (c =? 160) || (c =? 5760)
  || ((8192 <=? c) && (c <=? 8202))
  || (c =? 8232) || (c =? 8233) || (c =? 8239) || (c =? 8287) || (c =? 12288).

Fixpoint dropwhile (f : char -> bool) (s : str) : str :=
  match s with
  | [] => []
  | c :: t => if f c then dropwhile f t else s
  end.

Definition lstrip (s : str) : str := dropwhile is_space s.
Definition rstrip (s : str) : str := rev (dropwhile is_space (rev s)).
(** [s.strip()] *)
Definition strip (s : str) : str := rstrip (lstrip s).

(** [s.rstrip(".")]: every trailing full stop is removed. *)
Definition rstrip_dots (s : str) : str :=
  rev (dropwhile (fun c => c =? DOT) (rev s)).

(** [s.split("\n")]: never the empty list. *)
Fixpoint split_lines (s : str) : list str :=
  match s with
  | [] => [[]]
  | c :: t =>
      if c =? NL then [] :: split_lines t
      else match split_lines t with
           | l :: ls => (c :: l) :: ls
           | [] => [[c]]
           end
  end.

(** [sep.join(parts)] *)
Fixpoint join (sep : str) (parts : list str) : str :=
  match parts with
  | [] => []
  | [p] => p
  | p :: ps => p ++ sep ++ join sep ps
  end.

(** [s.replace(old, new)] for a one-code-point [old]. *)
Definition replace (old : char) (new : str) (s : str) : str :=
  flat_map (fun c => if c =? old then new else [c]) s.

(** ** Regular expressions of the source

    Every pattern of the source has the shape [open(.+?)close] with literal
    [open] and [close] (one of them with [[^>]*>] after [open]).  The group
    is lazy, so it takes one character and then as few more as possible;
    [.] does not match a newline. *)

(** The rest of a lazy group followed by [close]: the closing literal is
    tried first at every position. *)
Fixpoint lazy_until (close : str) (s : str) : option (str * str) :=
  if startswith s close then Some ([], skipn (length close) s)
  else match s with
       | [] => None
       | c :: t =>
           if c =? NL then None
           else match lazy_until close t with
                | Some (b, r) => Some (c :: b, r)
                | None => None
                end
       end.

(** [(.+?)close] at the start of [s]: the group and what follows the match. *)
Definition group_lazy (close : str) (s : str) : option (str * str) :=
  match s with
  | [] => None
  | c :: t =>
      if c =? NL then None
      else match lazy_until close t with
           | Some (b, r) => Some (c :: b, r)
           | None => None
           end
  end.

(** [open(.+?)close] anchored at the start of [s]. *)
Definition match_delim (open close : str) (s : str) : option (str * str) :=
  if startswith s open then group_lazy close (skipn (length open) s)
  else None.

(** [re.search(open(.+?)close, s)]: the leftmost match; returns group 1. *)
Fixpoint re_search (open close : str) (s : str) : option str :=
  match match_delim open close s with
  | Some (b, _) => Some b
  | None =>
      match s with
      | [] => None
      | _ :: t => re_search open close t
      end
  end.

Definition BOLD : str := [STAR; STAR].

(** The pattern [\*\*(.+?)\*\*] anchored at the start of [s]. *)
Definition match_bold (s : str) : option (str * str) := match_delim BOLD BOLD s.

Definition STRONG_OPEN : str := lit "<strong>".
Definition STRONG_CLOSE : str := lit "</strong>".

(** [re.sub(r"\*\*(.+?)\*\*", r"<strong>\1</strong>", s)]: matches are taken
    left to right and do not overlap; unmatched characters are copied.  Every
    step consumes a character, so [length s] steps are enough. *)
Fixpoint sub_bold_fuel (fuel : nat) (s : str) : str :=
  match fuel with
  | O => s
  | S f =>
      match match_bold s with
      | Some (b, r) => STRONG_OPEN ++ b ++ STRONG_CLOSE ++ sub_bold_fuel f r
      | None =>
          match s with
          | [] => []
          | c :: t => c :: sub_bold_fuel f t
          end
      end
  end.

Definition sub_bold (s : str) : str := sub_bold_fuel (length s) s.

(** ** escape, inline_format, extract_lede *)

Definition escape (text : str) : str :=
  replace QUOT (lit "&quot;")
    (replace GT (lit "&gt;")
      (replace LT (lit "&lt;")
        (replace AMP (lit "&amp;") text))).

Definition inline_format (text : str) : str := sub_bold (escape text).

Definition ELLIPSIS : str := lit "...".

(** The body of the [if match:] branch of [extract_lede]. *)
Definition trim_headline (headline : str) : str :=
  let headline :=
    if endswith headline [DOT] then removelast headline else headline in
  if (120 <? length headline)%nat then firstn 117 headline ++ ELLIPSIS
  else headline.

(** The [for line in ...] loop of [extract_lede]. *)
Fixpoint extract_lede_lines (lines : list str) : str :=
  match lines with
  | [] => []
  | line :: rest =>
      match re_search BOLD BOLD line with
      | Some headline => trim_headline headline
      | None => extract_lede_lines rest
      end
  end.

Definition extract_lede (text : str) : str :=
  extract_lede_lines (split_lines (strip text)).


(** ** md_to_html *)

Definition TITLE_PREFIX : str := lit "Tucson Daily Brief".

(** The four prefixes of the trailing metadata lines. *)
Definition is_footer (line : str) : bool :=
  startswith line (lit "Briefing saved:")
  || startswith line (lit "Sources fetched:")
  || startswith line (lit "Failed sources:")
  || startswith line (lit "Next update:").

(** The loop [for j in range(len(lines) - 1, -1, -1)]: [n] is [j + 1] and
    [e] the current value of [end]. *)
Fixpoint footer_scan (lines : list str) (n : nat) (e : nat) : nat :=
  match n with
  | O => e
  | S j =>
      if is_footer (strip (nth j lines [])) then footer_scan lines j j else e
  end.

Definition end_boundary (lines : list str) : nat :=
  footer_scan lines (length lines) (length lines).

(** The initial value of [i]: 1 when the first line is the title. *)
Definition title_skip (lines : list str) : nat :=
  match lines with
  | l :: _ => if startswith l TITLE_PREFIX then 1%nat else 0%nat
  | [] => 0%nat
  end.

(** [re.match(r"^[U+2500 -]{3,}$", line)] *)
Definition is_rule_char (c : char) : bool := (c =? BOXDASH) || (c =? HYPHEN).
Definition is_rule (line : str) : bool :=
  (3 <=? length line)%nat && forallb is_rule_char line.

(** [line.startswith(NEWSPAPER) or line.startswith(PAGE)] *)
Definition is_citation (line : str) : bool :=
  startswith line [NEWSPAPER] || startswith line [PAGE].

(** The character class [U+1F300-U+1FAFF U+2600-U+27BF U+FE0F]. *)
Definition is_pictograph (c : char) : bool :=
  ((127744 <=? c) && (c <=? 129791)) || ((9728 <=? c) && (c <=? 10175))
  || (c =? 65039).

(** [re.match] of that class at the start of the line. *)
Definition starts_pictograph (line : str) : bool :=
  match line with
  | c :: _ => is_pictograph c
  | [] => false
  end.

Definition is_heading (line : str) : bool :=
  starts_pictograph line && negb (startswith line BOLD).

(** The text of a citation: both glyphs are replaced by nothing wherever they
    occur, then the result is stripped. *)
Definition source_text (line : str) : str :=
  strip (replace PAGE [] (replace NEWSPAPER [] line)).

(** The condition that ends the inner loop of a paragraph. *)
Definition para_break (next_line : str) : bool :=
  match next_line with [] => true | _ => false end
  || startswith next_line [NEWSPAPER]
  || startswith next_line [PAGE]
  || is_rule next_line
  || starts_pictograph next_line.

(** One element of [html_parts], before it is written as HTML: each
    constructor is one [html_parts.append] of the source. *)
Inductive Block : Type :=
| Rule
| Citation (text : str)
| Heading (text : str)
| Paragraph (text : str).

(** The f-strings of the four [html_parts.append] calls. *)
Definition render_block (b : Block) : str :=
  match b with
  | Rule => lit "<hr>"
  | Citation text =>
      lit "<p class=" ++ [QUOT] ++ lit "source" ++ [QUOT] ++ lit ">"
      ++ escape text ++ lit "</p>"
  | Heading text => lit "<h2>" ++ escape text ++ lit "</h2>"
  | Paragraph text => lit "<p>" ++ inline_format text ++ lit "</p>"
  end.

(** The inner [while i < end] loop over the lines after the first line of a
    paragraph: the stripped continuation lines and the lines left over. *)
Fixpoint collect_para (ls : list str) : list str * list str :=
  match ls with
  | [] => ([], [])
  | l :: t =>
      let next_line := strip l in
      if para_break next_line then ([], ls)
      else let (p, r) := collect_para t in (next_line :: p, r)
  end.

(** The outer [while i < end] loop; [ls] is [lines[i:end]].  Every iteration
    advances [i], so [length ls] iterations are enough. *)
Fixpoint walk_fuel (fuel : nat) (ls : list str) : list Block :=
  match fuel with
  | O => []
  | S f =>
      match ls with
      | [] => []
      | l :: t =>
          let line := strip l in
          match line with
          | [] => walk_fuel f t
          | _ =>
              if is_rule line then Rule :: walk_fuel f t
              else if is_citation line then
                Citation (source_text line) :: walk_fuel f t
              else if is_heading line then Heading line :: walk_fuel f t
              else
                let (p, r) := collect_para t in
                Paragraph (join [SPACE] (line :: p)) :: walk_fuel f r
          end
      end
  end.

Definition walk (ls : list str) : list Block := walk_fuel (length ls) ls.

(** [lines[i:e]] *)
Definition slice (i e : nat) (lines : list str) : list str :=
  skipn i (firstn e lines).

(** The blocks of a document given by its lines. *)
Definition parse_lines (lines : list str) : list Block :=
  walk (slice (title_skip lines) (end_boundary lines) lines).

Definition md_blocks (text : str) : list Block :=
  parse_lines (split_lines (strip text)).

Definition md_to_html (text : str) : str :=
  join [NL] (map render_block (md_blocks text)).

(** ** Dates *)

Record date : Type := mkdate { year : N; month : N; day : N }.

Definition date_eqb (a b : date) : bool :=
  (year a =? year b) && (month a =? month b) && (day a =? day b).

(** [a <= b] on [datetime] values. *)
Definition date_leb (a b : date) : bool :=
  (year a <? year b)
  || ((year a =? year b)
      && ((month a <? month b)
          || ((month a =? month b) && (day a <=? day b)))).

Definition is_leap (y : N) : bool :=
  (y mod 4 =? 0) && (negb (y mod 100 =? 0) || (y mod 400 =? 0)).

Definition days_in_month (y m : N) : N :=
  if m =? 2 then (if is_leap y then 29 else 28)
  else if (m =? 4) || (m =? 6) || (m =? 9) || (m =? 11) then 30
  else 31.

(** The dates [datetime] accepts. *)
Definition valid_date (d : date) : bool :=
  (1 <=? year d) && (year d <=? 9999)
  && (1 <=? month d) && (month d <=? 12)
  && (1 <=? day d) && (day d <=? days_in_month (year d) (month d)).

(** The decimal digits of Unicode (general category Nd, version 14.0 of
    the character database, as in CPython 3.11): they come in runs of ten
    code points, the digits zero to nine of one script; these are the code
    points of the zeros. *)
Definition DIGIT_ZEROS : list N :=
  [48; 1632; 1776; 1984; 2406; 2534; 2662; 2790; 2918; 3046; 3174; 3302;
   3430; 3558; 3664; 3792; 3872; 4160; 4240; 6112; 6160; 6470; 6608; 6784;
   6800; 6992; 7088; 7232; 7248; 42528; 43216; 43264; 43472; 43504; 43600;
   44016; 65296; 66720; 68912; 69734; 69872; 69942; 70096; 70384; 70736;
   70864; 71248; 71360; 71472; 71904; 72016; 72784; 73040; 73120; 92768;
   92864; 93008; 120782; 120792; 120802; 120812; 120822; 123200; 123632;
   125264; 130032].

(** The zero of the run a decimal digit belongs to. *)
Definition digit_zero (c : char) : option N :=
  find (fun z => (z <=? c) && (c <=? z + 9)) DIGIT_ZEROS.

(** The regular expression class [\d] of a [str] pattern without the
    ASCII flag: every decimal digit of Unicode. *)
Definition is_digit (c : char) : bool :=
  match digit_zero c with Some _ => true | None => false end.

(** The value [int] gives to one digit. *)
Definition digit_val (c : char) : N :=
  match digit_zero c with Some z => c - z | None => 0 end.

Definition digit_char (n : N) : char := 48 + n mod 10.

(** The pattern [\d{4}-\d{2}-\d{2}] anchored at the start of [s]. *)
Definition match_date (s : str) : option str :=
  match s with
  | y1 :: y2 :: y3 :: y4 :: h1 :: m1 :: m2 :: h2 :: d1 :: d2 :: _ =>
      if forallb is_digit [y1; y2; y3; y4; m1; m2; d1; d2]
         && (h1 =? HYPHEN) && (h2 =? HYPHEN)
      then Some (firstn 10 s) else None
  | _ => None
  end.

(** [re.search(r"(\d{4}-\d{2}-\d{2})", s)] *)
Fixpoint search_date (s : str) : option str :=
  match match_date s with
  | Some m => Some m
  | None =>
      match s with
      | [] => None
      | _ :: t => search_date t
      end
  end.

(** [datetime.strptime(s, "%Y-%m-%d")]; [None] stands for the [ValueError]
    it raises.  The format is turned into the regular expression
    [(\d\d\d\d)-(1[0-2]|0[1-9]|[1-9])-(3[0-1]|[1-2]\d|0[1-9]|[1-9]| [1-9])],
    which is matched at the start of the string; the match has to reach the
    end of the string; the three groups are converted with [int], and the
    fields have to name a date. *)

(** A character in the range of two ASCII characters. *)
Definition between (lo hi c : N) : bool := (lo <=? c) && (c <=? hi).

(** The alternatives [1[0-2]] and [0[1-9]] of the month. *)
Definition month_two (m1 m2 : char) : bool :=
  ((m1 =? 49) && between 48 50 m2) || ((m1 =? 48) && between 49 57 m2).

(** The group of the month: the first alternative that matches, its value
    and what follows it.  The hyphen has to follow; after one of the
    two-character alternatives the one-character alternative cannot make it
    follow, as its next character is a digit. *)
Definition strptime_month (s : str) : option (N * str) :=
  match s with
  | m1 :: m2 :: r =>
      if month_two m1 m2 then Some (10 * (m1 - 48) + (m2 - 48), r)
      else if between 49 57 m1 then Some (m1 - 48, m2 :: r)
      else None
  | [m1] => if between 49 57 m1 then Some (m1 - 48, []) else None
  | [] => None
  end.

(** The group of the day: the first alternative that matches, its value
    and what follows it. *)
Definition strptime_day (s : str) : option (N * str) :=
  match s with
  | d1 :: d2 :: r =>
      if (d1 =? 51) && between 48 49 d2 then Some (30 + (d2 - 48), r)
      else if between 49 50 d1 && is_digit d2
      then Some (10 * (d1 - 48) + digit_val d2, r)
      else if (d1 =? 48) && between 49 57 d2 then Some (d2 - 48, r)
      else if between 49 57 d1 then Some (d1 - 48, d2 :: r)
      else if (d1 =? SPACE) && between 49 57 d2 then Some (d2 - 48, r)
      else None
  | [d1] => if between 49 57 d1 then Some (d1 - 48, []) else None
  | [] => None
  end.

Definition strptime (s : str) : option date :=
  match s with
  | y1 :: y2 :: y3 :: y4 :: h1 :: r =>
      if forallb is_digit [y1; y2; y3; y4] && (h1 =? HYPHEN) then
        match strptime_month r with
        | Some (m, h2 :: r1) =>
            if h2 =? HYPHEN then
              match strptime_day r1 with
              | Some (dd, []) =>
                  let d :=
                    mkdate (1000 * digit_val y1 + 100 * digit_val y2
                            + 10 * digit_val y3 + digit_val y4) m dd in
                  if valid_date d then Some d else None
              | _ => None
              end
            else None
        | _ => None
        end
      else None
  | _ => None
  end.

Definition pad2 (n : N) : str := [digit_char (n / 10); digit_char n].
Definition pad4 (n : N) : str :=
  [digit_char (n / 1000); digit_char (n / 100); digit_char (n / 10);
   digit_char n].
(** The directive [%-d]: the day of the month without padding. *)
Definition unpadded (n : N) : str :=
  if n <? 10 then [digit_char n] else pad2 n.

(** The directive [%B]. *)
Definition month_name (m : N) : str :=
  nth (N.to_nat (m - 1))
    [lit "January"; lit "February"; lit "March"; lit "April"; lit "May";
     lit "June"; lit "July"; lit "August"; lit "September"; lit "October";
     lit "November"; lit "December"] [].

(** The directive [%b]. *)
Definition month_abbr (m : N) : str := firstn 3 (month_name m).

Definition format_date_long (dt : date) : str :=
  month_name (month dt) ++ lit " " ++ unpadded (day dt) ++ lit ", "
  ++ pad4 (year dt).

Definition format_date_short (dt : date) : str :=
  month_abbr (month dt) ++ lit " " ++ unpadded (day dt) ++ lit ", "
  ++ pad4 (year dt).

Definition post_slug (dt : date) : str :=
  pad4 (year dt) ++ lit "-" ++ pad2 (month dt) ++ lit "-" ++ pad2 (day dt).

(** ** Page templates *)

(** The page of a post up to the title text. *)
Definition POST_1 : str :=
  join [NL] [
    lit "<!DOCTYPE html>";
    lit "<html lang=" ++ [QUOT] ++ lit "en" ++ [QUOT] ++ lit ">";
    lit "<head>";
    lit "<meta charset=" ++ [QUOT] ++ lit "utf-8" ++ [QUOT] ++ lit ">";
    lit "<meta name=" ++ [QUOT] ++ lit "viewport" ++ [QUOT] ++ lit " content=" ++ [QUOT] ++ lit "width=device-width, initial-scale=1" ++ [QUOT] ++ lit ">";
    lit "<title>" ].

(** From the end of the title to the article identifier. *)
Definition POST_2 : str :=
  join [NL] [
    lit "</title>";
    lit "<link rel=" ++ [QUOT] ++ lit "stylesheet" ++ [QUOT] ++ lit " href=" ++ [QUOT] ++ lit "../style.css" ++ [QUOT] ++ lit ">";
    lit "</head>";
    lit "<body>";
    lit "<div class=" ++ [QUOT] ++ lit "container" ++ [QUOT] ++ lit ">";
    [];
    lit "<header>";
    lit "<h1><a href=" ++ [QUOT] ++ lit "../" ++ [QUOT] ++ lit ">Tucson Daily Brief</a></h1>";
    lit "<p class=" ++ [QUOT] ++ lit "tagline" ++ [QUOT] ++ lit ">An AI-powered local news pipeline by Nicholas De Leon</p>";
    lit "</header>";
    [];
    lit "<a class=" ++ [QUOT] ++ lit "back-link" ++ [QUOT] ++ lit " href=" ++ [QUOT] ++ lit "../" ++ [QUOT] ++ lit ">&larr; All briefings</a>";
    [];
    lit "<article id=" ++ [QUOT] ].

(** From the article identifier to the date caption. *)
Definition POST_3 : str :=
  join [NL] [
    [QUOT] ++ lit ">";
    lit "<p class=" ++ [QUOT] ++ lit "post-meta" ++ [QUOT] ++ lit ">" ].

(** Between the date caption and the body. *)
Definition POST_4 : str :=
  join [NL] [
    lit "</p>";
    [] ].

(** The page of a post after the body. *)
Definition POST_5 : str :=
  join [NL] [
    [];
    lit "</article>";
    [];
    lit "<footer>";
    lit "<p>By Nicholas De Leon</p>";
    lit "<p class=" ++ [QUOT] ++ lit "footer-links" ++ [QUOT] ++ lit ">";
    lit "<a href=" ++ [QUOT] ++ lit "https://podcasts.apple.com/us/podcast/tucson-daily-brief/id1795533938" ++ [QUOT] ++ lit ">Apple Podcasts</a> &middot;";
    lit "<a href=" ++ [QUOT] ++ lit "https://www.youtube.com/@TucsonDailyBrief" ++ [QUOT] ++ lit ">YouTube</a>";
    lit "</p>";
    lit "</footer>";
    [];
    lit "</div>";
    lit "</body>";
    lit "</html>";
    [] ].

(** The index page up to the list of posts. *)
Definition INDEX_1 : str :=
  join [NL] [
    lit "<!DOCTYPE html>";
    lit "<html lang=" ++ [QUOT] ++ lit "en" ++ [QUOT] ++ lit ">";
    lit "<head>";
    lit "<meta charset=" ++ [QUOT] ++ lit "utf-8" ++ [QUOT] ++ lit ">";
    lit "<meta name=" ++ [QUOT] ++ lit "viewport" ++ [QUOT] ++ lit " content=" ++ [QUOT] ++ lit "width=device-width, initial-scale=1" ++ [QUOT] ++ lit ">";
    lit "<title>Tucson Daily Brief</title>";
    lit "<link rel=" ++ [QUOT] ++ lit "stylesheet" ++ [QUOT] ++ lit " href=" ++ [QUOT] ++ lit "style.css" ++ [QUOT] ++ lit ">";
    lit "</head>";
    lit "<body>";
    lit "<div class=" ++ [QUOT] ++ lit "container" ++ [QUOT] ++ lit ">";
    [];
    lit "<header>";
    lit "<h1><a href=" ++ [QUOT] ++ lit "./" ++ [QUOT] ++ lit ">Tucson Daily Brief</a></h1>";
    lit "<p class=" ++ [QUOT] ++ lit "tagline" ++ [QUOT] ++ lit ">An AI-powered local news pipeline by Nicholas De Leon</p>";
    lit "</header>";
    [];
    lit "<ul class=" ++ [QUOT] ++ lit "post-list" ++ [QUOT] ++ lit ">";
    [] ].

(** The index page after the list of posts. *)
Definition INDEX_2 : str :=
  join [NL] [
    [];
    lit "</ul>";
    [];
    lit "<footer>";
    lit "<p>By Nicholas De Leon</p>";
    lit "<p class=" ++ [QUOT] ++ lit "footer-links" ++ [QUOT] ++ lit ">";
    lit "<a href=" ++ [QUOT] ++ lit "https://podcasts.apple.com/us/podcast/tucson-daily-brief/id1795533938" ++ [QUOT] ++ lit ">Apple Podcasts</a> &middot;";
    lit "<a href=" ++ [QUOT] ++ lit "https://www.youtube.com/@TucsonDailyBrief" ++ [QUOT] ++ lit ">YouTube</a>";
    lit "</p>";
    lit "</footer>";
    [];
    lit "</div>";
    lit "</body>";
    lit "</html>";
    [] ].


Definition render_post (d : date) (body_html : str) : str :=
  let title := lit "Tucson Daily Brief &mdash; " ++ format_date_long d in
  POST_1 ++ title ++ POST_2 ++ post_slug d ++ POST_3 ++ format_date_long d
  ++ POST_4 ++ body_html ++ POST_5.

(** A post record: the dict with the keys date, slug and lede. *)
Record post : Type := mkpost { p_date : date; p_slug : str; p_lede : str }.

(** One [<li>] item of the index. *)
Definition render_item (p : post) : str :=
  join [NL] [
    lit "<li>";
    lit "<span class=" ++ [QUOT] ++ lit "post-date" ++ [QUOT] ++ lit ">"
      ++ format_date_short (p_date p) ++ lit "</span>";
    lit "<a href=" ++ [QUOT] ++ lit "posts/" ++ p_slug p ++ lit ".html"
      ++ [QUOT] ++ lit ">" ++ format_date_long (p_date p) ++ lit "</a>";
    lit "<p class=" ++ [QUOT] ++ lit "post-lede" ++ [QUOT] ++ lit ">"
      ++ escape (p_lede p) ++ lit "</p>";
    lit "</li>" ].

Definition EMPTY_ITEM : str :=
  lit "<li class=" ++ [QUOT] ++ lit "empty" ++ [QUOT]
  ++ lit ">No briefings yet.</li>".

Definition render_index (posts : list post) : str :=
  let items := map render_item posts in
  let post_list :=
    match items with [] => EMPTY_ITEM | _ => join [NL] items end in
  INDEX_1 ++ post_list ++ INDEX_2.

(** ** collect_existing_posts *)

Definition POST_LEDE_OPEN : str :=
  lit "<p class=" ++ [QUOT] ++ lit "post-lede" ++ [QUOT].
Definition P_CLOSE : str := lit "</p>".

(** [[^>]*>]: everything up to and including the next [>]. *)
Fixpoint skip_to_gt (s : str) : option str :=
  match s with
  | [] => None
  | c :: t => if c =? GT then Some t else skip_to_gt t
  end.

(** The post-lede pattern anchored at the start of [s]. *)
Definition match_post_lede (s : str) : option (str * str) :=
  if startswith s POST_LEDE_OPEN then
    match skip_to_gt (skipn (length POST_LEDE_OPEN) s) with
    | Some r => group_lazy P_CLOSE r
    | None => None
    end
  else None.

Fixpoint search_post_lede (s : str) : option str :=
  match match_post_lede s with
  | Some (b, _) => Some b
  | None =>
      match s with
      | [] => None
      | _ :: t => search_post_lede t
      end
  end.

(** The lede of one file of the posts directory. *)
Definition recover_lede (content : str) : str :=
  match search_post_lede content with
  | Some lede => lede
  | None =>
      match re_search STRONG_OPEN STRONG_CLOSE content with
      | Some s => rstrip_dots s
      | None => []
      end
  end.

(** The posts directory: [None] when it does not exist, otherwise the
    [*.html] files as pairs of stem and content, in the order [glob] yields
    them. *)
Definition posts_dir : Type := option (list (str * str)).

(** The outcome of code that may raise. *)
Inductive result (A : Type) : Type :=
| Ok (a : A)
| ValueError.
Arguments Ok {A} a.
Arguments ValueError {A}.

(** The loop [for f in POSTS_DIR.glob(...)]. *)
Fixpoint collect_files (files : list (str * str)) : result (list post) :=
  match files with
  | [] => Ok []
  | (stem, content) :: rest =>
      match search_date stem with
      | None => collect_files rest
      | Some m =>
          match strptime m with
          | None => ValueError
          | Some dt =>
              match collect_files rest with
              | Ok posts =>
                  Ok (mkpost dt (post_slug dt) (recover_lede content) :: posts)
              | ValueError => ValueError
              end
          end
      end
  end.

Definition collect_existing_posts (dir : posts_dir) : result (list post) :=
  match dir with
  | None => Ok []
  | Some files => collect_files files
  end.

(** ** main *)

(** [posts.sort(key=date, reverse=True)]: stable, newest first. *)
Fixpoint insert_desc (p : post) (l : list post) : list post :=
  match l with
  | [] => [p]
  | q :: t =>
      if date_leb (p_date q) (p_date p) then p :: l
      else q :: insert_desc p t
  end.

Fixpoint sort_desc (l : list post) : list post :=
  match l with
  | [] => []
  | p :: t => insert_desc p (sort_desc t)
  end.

(** The three statements that merge the new record into the recovered
    ones. *)
Definition merge_posts (posts : list post) (new : post) : list post :=
  let posts := filter (fun p => negb (str_eqb (p_slug p) (p_slug new))) posts in
  let posts := posts ++ [new] in
  sort_desc posts.

(** [post_file.write_text]: the file is replaced, or created. *)
Fixpoint write_file (files : list (str * str)) (stem content : str)
  : list (str * str) :=
  match files with
  | [] => [(stem, content)]
  | (s, c) :: rest =>
      if str_eqb s stem then (stem, content) :: rest
      else (s, c) :: write_file rest stem content
  end.

Definition mkdir_write (dir : posts_dir) (stem content : str) : posts_dir :=
  match dir with
  | None => Some [(stem, content)]
  | Some files => Some (write_file files stem content)
  end.

(** What a run leaves behind. *)
Inductive outcome : Type :=
| Exit1
| Raised
| Done (dir : posts_dir) (posts : list post) (index_html : str).

(** [main] on an existing briefing file with stem [md_stem] and content
    [md_text]; [dir] is the posts directory before the run. *)
Definition main (dir : posts_dir) (md_stem md_text : str) : outcome :=
  match search_date md_stem with
  | None => Exit1
  | Some m =>
      match strptime m with
      | None => Raised
      | Some d =>
          let slug := post_slug d in
          let body_html := md_to_html md_text in
          let lede := extract_lede md_text in
          let dir := mkdir_write dir slug (render_post d body_html) in
          match collect_existing_posts dir with
          | ValueError => Raised
          | Ok posts =>
              let posts := merge_posts posts (mkpost d slug lede) in
              Done dir posts (render_index posts)
          end
      end
  end.

(** ** parse_date_from_filename and the files a run leaves behind *)

(** What [parse_date_from_filename] does: it returns the date, exits with
    status 1 when the stem holds no date pattern, or lets the [ValueError]
    of [strptime] through. *)
Inductive parsed : Type :=
| Parsed (d : date)
| ParseExit1
| ParseValueError.

Definition parse_date_from_filename (stem : str) : parsed :=
  match search_date stem with
  | None => ParseExit1
  | Some m =>
      match strptime m with
      | Some d => Parsed d
      | None => ParseValueError
      end
  end.

(** The files after a run of [main]: the posts directory and the index
    file ([None] when there is none).  The post is written before the
    records are collected, the index after they are merged. *)
Definition main_effects (dir : posts_dir) (index : option str)
           (md_stem md_text : str) : posts_dir * option str :=
  match parse_date_from_filename md_stem with
  | Parsed d =>
      let slug := post_slug d in
      let body_html := md_to_html md_text in
      let lede := extract_lede md_text in
      let dir := mkdir_write dir slug (render_post d body_html) in
      match collect_existing_posts dir with
      | ValueError => (dir, index)
      | Ok posts =>
          let posts := merge_posts posts (mkpost d slug lede) in
          (dir, Some (render_index posts))
      end
  | ParseExit1 => (dir, index)
  | ParseValueError => (dir, index)
  end.

(** ** Specification-side definitions *)

(** The escape table: what one character becomes. *)
Definition escape_char (c : char) : str :=
  if c =? AMP then lit "&amp;"
  else if c =? LT then lit "&lt;"
  else if c =? GT then lit "&gt;"
  else if c =? QUOT then lit "&quot;"
  else [c].

(** The characters the escape table rewrites. *)
Definition is_special (c : char) : bool :=
  (c =? AMP) || (c =? LT) || (c =? GT) || (c =? QUOT).

(** [p] occurs in [s] as a substring. *)
Definition occurs (p s : str) : Prop := exists a b, s = a ++ p ++ b.

(** A piece of emphasised text: a copied character or a bold span. *)
Inductive seg : Type :=
| Plain (c : char)
| Bold (b : str).

Definition seg_src (x : seg) : str :=
  match x with
  | Plain c => [c]
  | Bold b => BOLD ++ b ++ BOLD
  end.

Definition seg_html (x : seg) : str :=
  match x with
  | Plain c => [c]
  | Bold b => STRONG_OPEN ++ b ++ STRONG_CLOSE
  end.

(** The text has a bold span at its start: [b] is the shortest non-empty
    text without a newline between two [**]. *)
Definition span_at (s b r : str) : Prop :=
  s = BOLD ++ b ++ BOLD ++ r /\ b <> [] /\ ~ In NL b
  /\ forall b' r', b' <> [] -> s = BOLD ++ b' ++ BOLD ++ r' ->
                   (length b <= length b')%nat.

(** No bold span starts at the start of the text. *)
Definition no_span_at (s : str) : Prop :=
  forall b r, s = BOLD ++ b ++ BOLD ++ r -> b <> [] -> In NL b.

(** The emphasis step as the specification words it: spans are taken from
    left to right, each as short as possible, and do not overlap; a
    character where no span starts is copied. *)
Inductive Emph : str -> list seg -> Prop :=
| Emph_nil : Emph [] []
| Emph_span s b r segs :
    span_at s b r -> Emph r segs -> Emph s (Bold b :: segs)
| Emph_char c t segs :
    no_span_at (c :: t) -> Emph t segs -> Emph (c :: t) (Plain c :: segs).

(** The pieces [sub_bold] produces, with the same fuel. *)
Fixpoint bold_segs_fuel (fuel : nat) (s : str) : list seg :=
  match fuel with
  | O => map Plain s
  | S f =>
      match match_bold s with
      | Some (b, r) => Bold b :: bold_segs_fuel f r
      | None =>
          match s with
          | [] => []
          | c :: t => Plain c :: bold_segs_fuel f t
          end
      end
  end.

Definition bold_segs (s : str) : list seg := bold_segs_fuel (length s) s.

(** The four entities, without their ampersand. *)
Definition entity_tail (s : str) : bool :=
  startswith s (lit "amp;") || startswith s (lit "lt;")
  || startswith s (lit "gt;") || startswith s (lit "quot;").

(** [h] is the first bold span of the line: a span starts after [a] and
    none starts earlier. *)
Definition first_span (line h : str) : Prop :=
  exists a x r,
    line = a ++ x /\ span_at x h r
    /\ forall a1 a2, a = a1 ++ a2 -> a2 <> [] -> no_span_at (a2 ++ x).

(** No bold span starts anywhere in the line. *)
Definition no_span (line : str) : Prop :=
  forall a x, line = a ++ x -> no_span_at x.

(** A bold span of 150 characters whose 117th character is a full stop. *)
Definition span_150 : str := repeat 97 116 ++ [DOT] ++ repeat 98 33.

(** A line of the trailing metadata. *)
Definition footer_line (l : str) : Prop := is_footer (strip l) = true.

(** The block of a stripped line that is a rule, a citation or a heading:
    the three tests in the order of the source. *)
Definition special_block (line : str) : Block :=
  if is_rule line then Rule
  else if is_citation line then Citation (source_text line)
  else Heading line.

(** The blocks of a document of one line. *)
Definition classify (line : str) : list Block :=
  match line with
  | [] => []
  | _ =>
      if is_rule line then [Rule]
      else if is_citation line then [Citation (source_text line)]
      else if is_heading line then [Heading line]
      else [Paragraph line]
  end.

(** The heading line of the specification: U+1F3DB U+FE0F and a word. *)
Definition GOVERNMENT : str := [127963; 65039] ++ lit " Government".

(** The two metadata lines of the specification's example. *)
Definition FOOTER_SAVED : str := lit "Briefing saved: 2026-02-18 06:00".
Definition FOOTER_FETCHED : str := lit "Sources fetched: 12".

(** A document whose first metadata line has a blank line below it. *)
Definition doc_blank_in_footer : str :=
  join [NL] [lit "Story"; FOOTER_SAVED; []; FOOTER_FETCHED].

(** A citation line with a second marker glyph inside. *)
Definition cite_twice : str :=
  [NEWSPAPER] ++ lit " A " ++ [PAGE] ++ lit " B".

(** [a] may stand before [b] in a list that is newest first. *)
Definition newer_first (a b : post) : Prop :=
  date_leb (p_date b) (p_date a) = true.

(** The number of records with the given identifier. *)
Definition count_slug (slug : str) (l : list post) : nat :=
  length (filter (fun p => str_eqb (p_slug p) slug) l).

(** The three posts of the specification's sort example, in the order
    given there. *)
Definition post_0201 : post := mkpost (mkdate 2026 2 1) (lit "2026-02-01") [].
Definition post_0218 : post := mkpost (mkdate 2026 2 18) (lit "2026-02-18") [].
Definition post_0130 : post := mkpost (mkdate 2026 1 30) (lit "2026-01-30") [].

(** Every file name with a date-shaped part names a date of the
    calendar. *)
Definition real_date_names (files : list (str * str)) : Prop :=
  Forall (fun f => forall m, search_date (fst f) = Some m ->
                             strptime m <> None) files.

(** The record of one file, if its name holds a date. *)
Definition file_record (f : str * str) : list post :=
  match search_date (fst f) with
  | Some m =>
      match strptime m with
      | Some d => [mkpost d (post_slug d) (recover_lede (snd f))]
      | None => []
      end
  | None => []
  end.

(** A post file whose first strong span ends with two full stops. *)
Definition post_two_dots : str := lit "<p><strong>Wow..</strong></p>".

(** A briefing of the 18th of February 2026. *)
Definition stem_0218 : str := lit "tucson-brief-2026-02-18".
Definition text_0218 : str :=
  join [NL] [lit "Tucson Daily Brief"; lit "**Council votes.** More."].

(** [p] starts somewhere in [s]. *)
Fixpoint contains (p s : str) : bool :=
  startswith s p
  || match s with
     | [] => false
     | _ :: t => contains p t
     end.

(** [s] and [p] differ at a position both have. *)
Fixpoint clash (p s : str) : bool :=
  match p, s with
  | h :: p', c :: s' => negb (c =? h) || clash p' s'
  | _, _ => false
  end.

(** Every suffix of [s] differs from [p] within [s]. *)
Fixpoint all_clash (p s : str) : bool :=
  match s with
  | [] => true
  | _ :: t => clash p s && all_clash p t
  end.

(** No occurrence of [p] starts inside [x], whatever follows [x]. *)
Definition inert (p x : str) : Prop :=
  forall x1 x2 z, x = x1 ++ x2 -> x2 <> [] -> startswith (x2 ++ z) p = false.

(** The literal pieces of a rendered post outside its paragraphs. *)
Definition page_literals : list str :=
  [POST_1; lit "Tucson Daily Brief &mdash; "; POST_2; POST_3; POST_4; POST_5;
   lit "<hr>"; lit "<p class=" ++ [QUOT] ++ lit "source" ++ [QUOT] ++ lit ">";
   lit "</p>"; lit "<h2>"; lit "</h2>"; lit "<p>"; [NL]].

(** A block without bold markers in a paragraph. *)
Definition clean_block (b : Block) : Prop :=
  match b with
  | Paragraph text => contains BOLD text = false
  | _ => True
  end.

(** The page of a post up to its body. *)
Definition page_head (d : date) : str :=
  POST_1 ++ (lit "Tucson Daily Brief &mdash; " ++ format_date_long d)
  ++ POST_2 ++ post_slug d ++ POST_3 ++ format_date_long d ++ POST_4.

(** A line without bold markers. *)
Definition bold_free (l : str) : Prop := contains BOLD l = false.

(** What the escape table makes of a character when it is applied
    twice. *)
Definition escape_twice_char (c : char) : str :=
  if c =? AMP then lit "&amp;amp;"
  else if c =? LT then lit "&amp;lt;"
  else if c =? GT then lit "&amp;gt;"
  else if c =? QUOT then lit "&amp;quot;"
  else [c].

(** A briefing whose first bold span ends with two full stops, and one
    whose paragraph has an unmatched bold marker in the line above the first
    bold span. *)
Definition text_two_dots : str := lit "**Wow..**".
Definition text_open_marker : str :=
  join [NL] [lit "a **b"; lit "c** d **e**"].

(** A briefing of the 17th of February 2026 with an ampersand in its first
    bold span. *)
Definition stem_0217 : str := lit "tucson-brief-2026-02-17".
Definition text_0217 : str :=
  join [NL] [lit "Tucson Daily Brief"; lit "**Tom & Jerry.** More."].

(** A block whose rendering holds no strong span: a paragraph without a
    bold span, or a block that is no paragraph. *)
Definition spanless_block (b : Block) : Prop :=
  match b with
  | Paragraph text => re_search BOLD BOLD text = None
  | _ => True
  end.

(** A record as the code builds it: a date of the calendar and the slug
    of that date. *)
Definition record_ok (p : post) : Prop :=
  valid_date (p_date p) = true /\ p_slug p = post_slug (p_date p).

(** A file name with a date pattern that is no date of the calendar. *)
Definition bad_date_name (f : str * str) : bool :=
  match search_date (fst f) with
  | Some m => match strptime m with Some _ => false | None => true end
  | None => false
  end.

(** A date whose fields have at most four, two and two digits. *)
Definition fields_fit (d : date) : bool :=
  (year d <? 10000) && (month d <? 100) && (day d <? 100).

(** A blank line: nothing is left of it when it is stripped. *)
Definition blank_line (l : str) : Prop := strip l = [].

(** A stripped line that is a rule, a citation or a heading line. *)
Definition block_line (line : str) : bool :=
  match line with [] => false | _ => para_break line end.

Definition is_paragraph (b : Block) : bool :=
  match b with Paragraph _ => true | _ => false end.

(** The files of the posts directory; none when it does not exist. *)
Definition files_of (dir : posts_dir) : list (str * str) :=
  match dir with Some files => files | None => [] end.

(** A file named as [main] names its post files: by the slug of a date of
    the calendar with a four-digit year. *)
Definition own_file (f : str * str) : Prop :=
  exists d, valid_date d = true /\ 1000 <= year d /\ fst f = post_slug d.

(** A posts directory as runs of [main] build it: every file is named by a
    slug, and no two files have the same name. *)
Definition own_dir (files : list (str * str)) : Prop :=
  Forall own_file files /\ NoDup (map fst files).

(** A heading line with two spaces after its text, and a briefing that
    has it above a story. *)
Definition gov_trailing : str := GOVERNMENT ++ lit "  ".
Definition text_gov_trailing : str := join [NL] [gov_trailing; lit "Story"].

(** A post file whose first strong span ends with one full stop. *)
Definition post_one_dot : str := lit "<p><strong>Wow.</strong></p>".

(** File names with digits of other scripts: the briefing of the 18th of
    February 2026 with an Arabic-Indic eight as its last digit, the same
    date in Arabic-Indic digits throughout, and a name with a pattern of
    Arabic-Indic digits before an ASCII date. *)
Definition stem_last_digit : str := lit "tucson-brief-2026-02-1" ++ [1640].
Definition stem_arabic_indic : str :=
  [1634; 1632; 1634; 1638; HYPHEN; 1632; 1634; HYPHEN; 1633; 1640].
Definition stem_two_patterns : str :=
  [1633; 1634; 1635; 1636; HYPHEN; 1637; 1638; HYPHEN; 1639; 1640; HYPHEN]
  ++ lit "2026-02-18".

(** ** Strings: basic facts *)

Lemma startswith_app (p r : str) : startswith (p ++ r) p = true.
Proof.
  induction p as [|y p IH]; simpl; [reflexivity|].
  now rewrite N.eqb_refl, IH.
Qed.

Lemma startswith_skipn (s p : str) :
  startswith s p = true -> s = p ++ skipn (length p) s.
Proof.
  revert s; induction p as [|y p IH]; intros s H; simpl in *; [reflexivity|].
  destruct s as [|x s]; [discriminate|].
  apply andb_true_iff in H as [Hx Hs].
  apply N.eqb_eq in Hx; subst x.
  simpl. f_equal. now apply IH.
Qed.

Lemma startswith_iff (s p : str) :
  startswith s p = true <-> exists r, s = p ++ r.
Proof.
  split.
  - intros H. exists (skipn (length p) s). now apply startswith_skipn.
  - intros [r ->]. apply startswith_app.
Qed.

Lemma skipn_app_exact (p r : str) : skipn (length p) (p ++ r) = r.
Proof. induction p; simpl; auto. Qed.

Lemma replace_app (old : char) (new a b : str) :
  replace old new (a ++ b) = replace old new a ++ replace old new b.
Proof. unfold replace. apply flat_map_app. Qed.

Lemma escape_app (a b : str) : escape (a ++ b) = escape a ++ escape b.
Proof. unfold escape. now rewrite !replace_app. Qed.

Lemma escape_one (c : char) : escape [c] = escape_char c.
Proof.
  unfold escape, escape_char, replace.
  destruct (N.eqb_spec c AMP) as [->|H1]; [reflexivity|].
  destruct (N.eqb_spec c LT) as [->|H2]; [reflexivity|].
  destruct (N.eqb_spec c GT) as [->|H3]; [reflexivity|].
  destruct (N.eqb_spec c QUOT) as [->|H4]; [reflexivity|].
  simpl.
  apply N.eqb_neq in H1, H2, H3, H4.
  now rewrite H1; simpl; rewrite H2; simpl; rewrite H3; simpl; rewrite H4.
Qed.

Lemma escape_flat_map (s : str) : escape s = flat_map escape_char s.
Proof.
  induction s as [|c s IH]; [reflexivity|].
  change (c :: s) with ([c] ++ s).
  rewrite escape_app, escape_one, IH. reflexivity.
Qed.

Lemma escape_cons (c : char) (s : str) :
  escape (c :: s) = escape_char c ++ escape s.
Proof. rewrite !escape_flat_map. reflexivity. Qed.

Lemma escape_char_plain (c : char) :
  is_special c = false -> escape_char c = [c].
Proof.
  unfold is_special, escape_char. intros H.
  apply orb_false_iff in H as [H H4]. apply orb_false_iff in H as [H H3].
  apply orb_false_iff in H as [H1 H2].
  now rewrite H1, H2, H3, H4.
Qed.

(** Every escaped character is an ampersand entity or the character
    itself. *)
Lemma escape_char_cases (c : char) :
  (is_special c = true /\
   exists e, escape_char c = AMP :: e
             /\ ~ In AMP e /\ ~ In LT e /\ ~ In GT e /\ ~ In QUOT e
             /\ ~ In NL e /\ ~ In STAR e /\ ~ In DOT e
             /\ (e = lit "amp;" \/ e = lit "lt;" \/ e = lit "gt;"
                 \/ e = lit "quot;"))
  \/ (is_special c = false /\ escape_char c = [c]).
Proof.
  unfold is_special, escape_char.
  destruct (N.eqb_spec c AMP) as [->|H1];
    [left; split; [reflexivity|]; exists (lit "amp;"); vm_compute;
     repeat split; try tauto; intuition discriminate|].
  destruct (N.eqb_spec c LT) as [->|H2];
    [left; split; [reflexivity|]; exists (lit "lt;"); vm_compute;
     repeat split; try tauto; intuition discriminate|].
  destruct (N.eqb_spec c GT) as [->|H3];
    [left; split; [reflexivity|]; exists (lit "gt;"); vm_compute;
     repeat split; try tauto; intuition discriminate|].
  destruct (N.eqb_spec c QUOT) as [->|H4];
    [left; split; [reflexivity|]; exists (lit "quot;"); vm_compute;
     repeat split; try tauto; intuition discriminate|].
  right. split; reflexivity.
Qed.

Lemma is_special_false (c : char) :
  is_special c = false <-> c <> AMP /\ c <> LT /\ c <> GT /\ c <> QUOT.
Proof.
  unfold is_special. rewrite !orb_false_iff, !N.eqb_neq. tauto.
Qed.

(** No raw [<], [>] or double quote is left by [escape]. *)
Lemma escape_no_raw (s : str) (c : char) :
  In c (escape s) -> c <> LT /\ c <> GT /\ c <> QUOT.
Proof.
  rewrite escape_flat_map. intros H.
  apply in_flat_map in H as [x [_ Hx]].
  destruct (escape_char_cases x) as [[_ [e [He [_ [Hl [Hg [Hq _]]]]]]]|[Hs He]];
    rewrite He in Hx.
  - destruct Hx as [<-|Hx]; [repeat split; discriminate|].
    repeat split; intros ->; tauto.
  - destruct Hx as [<-|[]]. apply is_special_false in Hs. tauto.
Qed.

(** ** The lazy group *)

Section LazyGroup.

Variable close : str.

Lemma lazy_until_unfold (s : str) :
  lazy_until close s =
  if startswith s close then Some ([], skipn (length close) s)
  else match s with
       | [] => None
       | c :: t =>
           if c =? NL then None
           else match lazy_until close t with
                | Some (b, r) => Some (c :: b, r)
                | None => None
                end
       end.
Proof. destruct s; reflexivity. Qed.

(** A match splits the text around the closing literal, and the group
    holds no newline. *)
Lemma lazy_until_sound (s b r : str) :
  lazy_until close s = Some (b, r) -> s = b ++ close ++ r /\ ~ In NL b.
Proof.
  revert b r. induction s as [|c t IH]; intros b r H;
    rewrite lazy_until_unfold in H.
  - destruct (startswith [] close) eqn:E; [|discriminate].
    injection H as <- <-. split; [|intros []].
    now apply startswith_skipn.
  - destruct (startswith (c :: t) close) eqn:E.
    + injection H as <- <-. split; [|intros []].
      now apply startswith_skipn.
    + destruct (N.eqb_spec c NL) as [->|Hc]; [discriminate|].
      destruct (lazy_until close t) as [[b0 r0]|] eqn:El; [|discriminate].
      injection H as <- <-.
      destruct (IH _ _ eq_refl) as [-> Hn].
      split; [reflexivity|].
      intros [Hin|Hin]; [now apply Hc|now apply Hn].
Qed.

(** The group is the shortest possible one. *)
Lemma lazy_until_shortest (s b r : str) :
  lazy_until close s = Some (b, r) ->
  forall b' r', s = b' ++ close ++ r' -> (length b <= length b')%nat.
Proof.
  revert b r. induction s as [|c t IH]; intros b r H b' r' Hs;
    rewrite lazy_until_unfold in H.
  - destruct (startswith [] close); [|discriminate].
    injection H as <- <-. simpl. lia.
  - destruct (startswith (c :: t) close) eqn:E.
    + injection H as <- <-. simpl. lia.
    + destruct (N.eqb_spec c NL) as [->|Hc]; [discriminate|].
      destruct (lazy_until close t) as [[b0 r0]|] eqn:El; [|discriminate].
      injection H as <- <-.
      destruct b' as [|x b'].
      * simpl in Hs. rewrite Hs, startswith_app in E. discriminate.
      * injection Hs as -> ->. simpl.
        apply le_n_S. eapply IH; eauto.
Qed.

(** When the group fails, every closing literal lies behind a newline. *)
Lemma lazy_until_none (s : str) :
  lazy_until close s = None ->
  forall b r, s = b ++ close ++ r -> In NL b.
Proof.
  induction s as [|c t IH]; intros H b r Hs; rewrite lazy_until_unfold in H.
  - destruct (startswith [] close) eqn:E; [discriminate|].
    destruct b; [|discriminate]. simpl in Hs.
    rewrite Hs, startswith_app in E. discriminate.
  - destruct (startswith (c :: t) close) eqn:E; [discriminate|].
    destruct b as [|x b].
    + simpl in Hs. rewrite Hs, startswith_app in E. discriminate.
    + injection Hs as -> ->.
      destruct (N.eqb_spec x NL) as [->|Hc]; [now left|].
      right.
      destruct (lazy_until close (b ++ close ++ r)) as [[b0 r0]|] eqn:El;
        [discriminate|].
      eapply IH; eauto.
Qed.

(** Text after a match does not change it. *)
Lemma startswith_app_l (s p x : str) :
  startswith s p = true -> startswith (s ++ x) p = true.
Proof.
  intros H. apply startswith_iff in H as [r ->].
  rewrite <- app_assoc. apply startswith_app.
Qed.

Lemma startswith_app_long (s p x : str) :
  (length p <= length s)%nat -> startswith (s ++ x) p = startswith s p.
Proof.
  revert s. induction p as [|y p IH]; intros s H; [reflexivity|].
  destruct s as [|c s]; simpl in *; [lia|].
  rewrite IH by lia. reflexivity.
Qed.

Lemma lazy_until_app (s b r x : str) :
  lazy_until close s = Some (b, r) ->
  lazy_until close (s ++ x) = Some (b, r ++ x).
Proof.
  revert b r. induction s as [|c t IH]; intros b r H;
    rewrite lazy_until_unfold in H; rewrite lazy_until_unfold.
  - destruct (startswith [] close) eqn:E; [|discriminate].
    injection H as <- <-.
    rewrite (startswith_app_l _ _ x E).
    apply startswith_skipn in E.
    destruct close; [reflexivity|discriminate].
  - destruct (startswith (c :: t) close) eqn:E.
    + injection H as <- <-.
      rewrite (startswith_app_l _ _ x E).
      apply startswith_skipn in E.
      rewrite E at 1. rewrite <- app_assoc, skipn_app_exact. reflexivity.
    + destruct (N.eqb_spec c NL) as [->|Hc]; [discriminate|].
      destruct (lazy_until close t) as [[b0 r0]|] eqn:El; [|discriminate].
      injection H as <- <-.
      pose proof (lazy_until_sound _ _ _ El) as [Ht _].
      rewrite startswith_app_long, E.
      * simpl. destruct (N.eqb_spec c NL) as [|_]; [contradiction|].
        now rewrite (IH _ _ eq_refl).
      * rewrite Ht. simpl. rewrite !length_app. lia.
Qed.

(** Characters that cannot start the closing literal are taken into the
    group. *)
Lemma lazy_until_skip (h : char) (cl w x : str) :
  close = h :: cl -> ~ In h w -> ~ In NL w ->
  lazy_until close (w ++ x) =
  match lazy_until close x with
  | Some (b, r) => Some (w ++ b, r)
  | None => None
  end.
Proof.
  intros Hc Hh Hn. induction w as [|c w IH].
  - simpl. destruct (lazy_until close x) as [[b r]|]; reflexivity.
  - simpl app. rewrite lazy_until_unfold.
    assert (E : startswith (c :: w ++ x) close = false).
    { rewrite Hc. simpl. destruct (N.eqb_spec c h) as [->|]; [|reflexivity].
      exfalso. apply Hh. now left. }
    rewrite E.
    destruct (N.eqb_spec c NL) as [->|_]; [exfalso; apply Hn; now left|].
    rewrite IH.
    + destruct (lazy_until close x) as [[b r]|]; reflexivity.
    + intros H. apply Hh. now right.
    + intros H. apply Hn. now right.
Qed.

Lemma lazy_until_here (r : str) : lazy_until close (close ++ r) = Some ([], r).
Proof.
  rewrite lazy_until_unfold, startswith_app, skipn_app_exact. reflexivity.
Qed.

End LazyGroup.

Lemma group_lazy_sound (close s b r : str) :
  group_lazy close s = Some (b, r) ->
  s = b ++ close ++ r /\ b <> [] /\ ~ In NL b.
Proof.
  unfold group_lazy. destruct s as [|c t]; [discriminate|].
  destruct (N.eqb_spec c NL) as [->|Hc]; [discriminate|].
  destruct (lazy_until close t) as [[b0 r0]|] eqn:El; [|discriminate].
  intros H. injection H as <- <-.
  destruct (lazy_until_sound _ _ _ _ El) as [-> Hn].
  repeat split; [discriminate|].
  intros [H|H]; [now apply Hc|now apply Hn].
Qed.

Lemma group_lazy_shortest (close s b r : str) :
  group_lazy close s = Some (b, r) ->
  forall b' r', b' <> [] -> s = b' ++ close ++ r' ->
                (length b <= length b')%nat.
Proof.
  unfold group_lazy. destruct s as [|c t]; [discriminate|].
  destruct (N.eqb_spec c NL) as [->|Hc]; [discriminate|].
  destruct (lazy_until close t) as [[b0 r0]|] eqn:El; [|discriminate].
  intros H b' r' Hb Hs. injection H as <- <-.
  destruct b' as [|x b']; [contradiction|].
  injection Hs as -> ->. simpl. apply le_n_S.
  eapply lazy_until_shortest; eauto.
Qed.

Lemma group_lazy_none (close s : str) :
  group_lazy close s = None ->
  forall b r, b <> [] -> s = b ++ close ++ r -> In NL b.
Proof.
  unfold group_lazy. intros H b r Hb Hs.
  destruct b as [|x b]; [contradiction|]. subst s. simpl in H.
  destruct (N.eqb_spec x NL) as [->|Hc]; [now left|].
  right.
  destruct (lazy_until close (b ++ close ++ r)) as [[b0 r0]|] eqn:El;
    [discriminate|].
  eapply lazy_until_none; eauto.
Qed.

Lemma group_lazy_app (close s b r x : str) :
  group_lazy close s = Some (b, r) ->
  group_lazy close (s ++ x) = Some (b, r ++ x).
Proof.
  unfold group_lazy. destruct s as [|c t]; [discriminate|]. simpl.
  destruct (N.eqb_spec c NL) as [->|Hc]; [discriminate|].
  destruct (lazy_until close t) as [[b0 r0]|] eqn:El; [|discriminate].
  intros H. injection H as <- <-.
  now rewrite (lazy_until_app _ _ _ _ x El).
Qed.

(** A group without a newline and without the first character of the
    closing literal is found as it stands. *)
Lemma group_lazy_exact (close : str) (h : char) (cl b r : str) :
  close = h :: cl -> b <> [] -> ~ In h b -> ~ In NL b ->
  group_lazy close (b ++ close ++ r) = Some (b, r).
Proof.
  intros Hc Hb Hh Hn. destruct b as [|c b]; [contradiction|].
  simpl. destruct (N.eqb_spec c NL) as [->|_]; [exfalso; apply Hn; now left|].
  rewrite (lazy_until_skip close h cl b (close ++ r) Hc).
  - rewrite lazy_until_here. now rewrite app_nil_r.
  - intros H. apply Hh. now right.
  - intros H. apply Hn. now right.
Qed.

(** ** Bold spans *)

Lemma app_inj_len (a a' x x' : str) :
  length a = length a' -> a ++ x = a' ++ x' -> a = a' /\ x = x'.
Proof.
  revert a'. induction a as [|c a IH]; intros [|c' a'] Hl H;
    simpl in *; try discriminate; [now split|].
  injection H as -> H. destruct (IH a') as [-> ->]; auto.
Qed.

(** The anchored pattern finds exactly the span of the specification. *)
Lemma match_bold_span (s b r : str) :
  match_bold s = Some (b, r) <-> span_at s b r.
Proof.
  unfold match_bold, match_delim, span_at. split.
  - destruct (startswith s BOLD) eqn:E; [|discriminate].
    intros H. apply startswith_skipn in E.
    destruct (group_lazy_sound _ _ _ _ H) as [Hs [Hb Hn]].
    assert (Hs' : s = BOLD ++ b ++ BOLD ++ r).
    { rewrite E at 1. now rewrite Hs. }
    repeat split; auto.
    intros b' r' Hb' Hs2.
    eapply group_lazy_shortest; eauto.
    rewrite Hs2. rewrite skipn_app_exact. reflexivity.
  - intros [Hs [Hb [Hn Hmin]]].
    rewrite Hs at 1. rewrite startswith_app.
    rewrite Hs. rewrite skipn_app_exact.
    destruct (group_lazy BOLD (b ++ BOLD ++ r)) as [[b0 r0]|] eqn:El.
    + destruct (group_lazy_sound _ _ _ _ El) as [Hs0 [Hb0 Hn0]].
      pose proof (group_lazy_shortest _ _ _ _ El b r Hb eq_refl) as Hle.
      assert (Hge : (length b <= length b0)%nat).
      { apply (Hmin b0 r0 Hb0). rewrite Hs. now rewrite Hs0. }
      assert (Hlen : length b0 = length b) by lia.
      symmetry in Hs0.
      destruct (app_inj_len _ _ _ _ Hlen Hs0) as [-> Hr].
      apply app_inv_head in Hr. now subst r0.
    + exfalso. apply Hn. eapply group_lazy_none; eauto.
Qed.

Lemma match_bold_none (s : str) : match_bold s = None <-> no_span_at s.
Proof.
  unfold match_bold, match_delim, no_span_at. split.
  - intros H b r Hs Hb.
    rewrite Hs in H at 1. rewrite startswith_app in H.
    rewrite Hs, skipn_app_exact in H.
    eapply group_lazy_none; eauto.
  - intros H.
    destruct (startswith s BOLD) eqn:E; [|reflexivity].
    destruct (group_lazy BOLD (skipn (length BOLD) s)) as [[b r]|] eqn:El;
      [|reflexivity].
    exfalso.
    destruct (group_lazy_sound _ _ _ _ El) as [Hs [Hb Hn]].
    apply Hn. apply (H b r); auto.
    apply startswith_skipn in E. rewrite E at 1. now rewrite Hs.
Qed.

(** A match consumes at least the two markers and one character. *)
Lemma match_bold_shrinks (s b r : str) :
  match_bold s = Some (b, r) -> (length r < length s)%nat.
Proof.
  intros H. apply match_bold_span in H as [-> _].
  rewrite !length_app. simpl. lia.
Qed.

Lemma sub_bold_fuel_segs (n : nat) (s : str) :
  sub_bold_fuel n s = flat_map seg_html (bold_segs_fuel n s).
Proof.
  revert s. induction n as [|n IH]; intros s; simpl.
  - induction s as [|c s IHs]; simpl; [reflexivity|]. now f_equal.
  - destruct (match_bold s) as [[b r]|].
    + simpl. rewrite IH, <- !app_assoc. reflexivity.
    + destruct s as [|c t]; simpl; [reflexivity|]. now rewrite IH.
Qed.

Lemma sub_bold_segs (s : str) : sub_bold s = flat_map seg_html (bold_segs s).
Proof. apply sub_bold_fuel_segs. Qed.

Lemma bold_segs_fuel_Emph (n : nat) (s : str) :
  (length s <= n)%nat -> Emph s (bold_segs_fuel n s).
Proof.
  revert s. induction n as [|n IH]; intros s Hn.
  - destruct s; simpl in *; [constructor|lia].
  - simpl. destruct (match_bold s) as [[b r]|] eqn:E.
    + apply Emph_span with (r := r).
      * now apply match_bold_span.
      * apply IH. apply match_bold_shrinks in E. lia.
    + destruct s as [|c t]; [constructor|].
      apply Emph_char.
      * now apply match_bold_none.
      * apply IH. simpl in Hn. lia.
Qed.

Lemma bold_segs_Emph (s : str) : Emph s (bold_segs s).
Proof. apply bold_segs_fuel_Emph. lia. Qed.

(** The specification of the emphasis step determines its result. *)
Lemma Emph_unique (s : str) (g1 g2 : list seg) :
  Emph s g1 -> Emph s g2 -> g1 = g2.
Proof.
  intros H1. revert g2.
  induction H1 as [|s b r segs Hsp _ IH|c t segs Hno _ IH]; intros g2 H2.
  - inversion H2 as [|s' b' r' segs' Hsp' Hr'|]; subst; [reflexivity|].
    apply match_bold_span in Hsp'. discriminate.
  - apply match_bold_span in Hsp.
    inversion H2 as [|s' b' r' segs' Hsp' Hr'|c t segs' Hno' Ht']; subst.
    + discriminate.
    + apply match_bold_span in Hsp'. rewrite Hsp in Hsp'.
      injection Hsp' as <- <-. f_equal. now apply IH.
    + apply match_bold_none in Hno'. rewrite Hsp in Hno'. discriminate.
  - apply match_bold_none in Hno.
    inversion H2 as [|s' b' r' segs' Hsp' Hr'|c' t' segs' Hno' Ht']; subst.
    + apply match_bold_span in Hsp'. rewrite Hno in Hsp'. discriminate.
    + f_equal. now apply IH.
Qed.

(** Putting the markers back gives the text the spans were taken from. *)
Lemma Emph_src (s : str) (g : list seg) :
  Emph s g -> flat_map seg_src g = s.
Proof.
  induction 1 as [|s b r segs [Hs _] _ IH|c t segs _ _ IH]; simpl.
  - reflexivity.
  - rewrite IH, Hs, <- !app_assoc. reflexivity.
  - now rewrite IH.
Qed.

(** ** Ampersands of escaped text *)

Lemma app_split_notin (h : char) (e y pre post : str) :
  ~ In h e -> e ++ y = pre ++ h :: post ->
  exists pre', pre = e ++ pre' /\ y = pre' ++ h :: post.
Proof.
  revert pre. induction e as [|c e IH]; intros pre Hh H.
  - exists pre. now split.
  - destruct pre as [|x pre]; simpl in H.
    + injection H as -> _. exfalso. apply Hh. now left.
    + injection H as -> H.
      destruct (IH pre) as [pre' [-> ->]]; auto.
      * intros Hin. apply Hh. now right.
      * exists pre'. now split.
Qed.

(** Every ampersand of escaped text starts one of the four entities. *)
Lemma escape_amp_entity (s pre post : str) :
  escape s = pre ++ AMP :: post -> entity_tail post = true.
Proof.
  revert pre. induction s as [|c s IH]; intros pre H.
  - destruct pre; discriminate.
  - rewrite escape_cons in H.
    destruct (escape_char_cases c)
      as [[_ [e [He [Ha [_ [_ [_ [_ [_ [_ Hent]]]]]]]]]]|[Hs He]];
      rewrite He in H.
    + destruct pre as [|x pre]; simpl in H.
      * injection H as <-.
        unfold entity_tail.
        destruct Hent as [-> | [-> | [-> | ->]]]; rewrite startswith_app;
          rewrite ?orb_true_r; reflexivity.
      * injection H as _ H.
        destruct (app_split_notin AMP e (escape s) pre post Ha H)
          as [pre' [_ Hs']].
        now apply (IH pre').
    + destruct pre as [|x pre]; simpl in H.
      * injection H as -> _. discriminate Hs.
      * injection H as _ H. now apply (IH pre).
Qed.

(** ** C3 and C4 *)

(** C3.  [escape] rewrites the ampersand first and then [<], [>] and the
    double quote, which amounts to rewriting every character on its own by
    the escape table; every other character, the single quote among them,
    stays.  Hence escaped text holds no raw [<], [>] or double quote, each of
    its ampersands starts an entity, and a rendered paragraph is the escaped
    text with bold markers turned into tags: the only raw characters of the
    HTML are those of the inserted tags, wherever the bold markers stand. *)
Theorem C3_escape_each_character :
  (forall text,
      escape text
      = replace QUOT (lit "&quot;") (replace GT (lit "&gt;")
          (replace LT (lit "&lt;") (replace AMP (lit "&amp;") text))))
  /\ (forall text, escape text = flat_map escape_char text)
  /\ escape_char AMP = lit "&amp;" /\ escape_char LT = lit "&lt;"
  /\ escape_char GT = lit "&gt;" /\ escape_char QUOT = lit "&quot;"
  /\ escape_char APOS = [APOS]
  /\ (forall c, c <> AMP -> c <> LT -> c <> GT -> c <> QUOT ->
                escape_char c = [c])
  /\ (forall text c, In c (escape text) -> c <> LT /\ c <> GT /\ c <> QUOT)
  /\ (forall text pre post,
         escape text = pre ++ AMP :: post -> entity_tail post = true)
  /\ (forall text,
         render_block (Paragraph text)
         = lit "<p>" ++ flat_map seg_html (bold_segs (escape text))
           ++ lit "</p>"
         /\ flat_map seg_src (bold_segs (escape text)) = escape text).
Proof.
  split; [reflexivity|].
  split; [apply escape_flat_map|].
  repeat (split; [reflexivity|]).
  split.
  { intros c H1 H2 H3 H4. apply escape_char_plain.
    apply is_special_false. tauto. }
  split; [apply escape_no_raw|].
  split; [apply escape_amp_entity|].
  intros text. split.
  - simpl. unfold inline_format. now rewrite sub_bold_segs.
  - apply Emph_src. apply bold_segs_Emph.
Qed.

(** C4.  [inline_format] escapes first and then turns the bold spans of the
    escaped text into strong wrappers: the spans are taken from left to
    right, each as short as possible, without overlap, and a character at
    which no span with a closing marker starts is copied, so an unmatched
    marker stays as it is.  The specification [Emph] admits no other
    result. *)
Theorem C4_inline_format_emphasis :
  (forall text,
      Emph (escape text) (bold_segs (escape text))
      /\ inline_format text = flat_map seg_html (bold_segs (escape text))
      /\ (forall segs, Emph (escape text) segs ->
                       inline_format text = flat_map seg_html segs))
  /\ inline_format (lit "Team wins **big game** tonight.")
     = lit "Team wins <strong>big game</strong> tonight."
  /\ inline_format (lit "no close ** here") = lit "no close ** here".
Proof.
  split; [|split; vm_compute; reflexivity].
  intros text.
  assert (E : inline_format text = flat_map seg_html (bold_segs (escape text))).
  { unfold inline_format. apply sub_bold_segs. }
  split; [apply bold_segs_Emph|]. split; [exact E|].
  intros segs H. rewrite E. f_equal.
  eapply Emph_unique; eauto. apply bold_segs_Emph.
Qed.

(** ** The first bold span of a line *)

Lemma re_search_unfold (open close s : str) :
  re_search open close s =
  match match_delim open close s with
  | Some (b, _) => Some b
  | None =>
      match s with
      | [] => None
      | _ :: t => re_search open close t
      end
  end.
Proof. destruct s; reflexivity. Qed.

Lemma re_search_first_span (l h : str) :
  re_search BOLD BOLD l = Some h <-> first_span l h.
Proof.
  split.
  - induction l as [|c t IH]; intros H; rewrite re_search_unfold in H.
    + discriminate H.
    + change (match_delim BOLD BOLD (c :: t)) with (match_bold (c :: t)) in H.
      destruct (match_bold (c :: t)) as [[b r]|] eqn:E.
      * injection H as ->. exists [], (c :: t), r.
        split; [reflexivity|]. split; [now apply match_bold_span|].
        intros a1 a2 Ha Hn. destruct a1; destruct a2; try discriminate.
        contradiction.
      * destruct (IH H) as [a [x [r [Ht [Hsp Hno]]]]].
        exists (c :: a), x, r. split; [now rewrite Ht|]. split; [exact Hsp|].
        intros a1 a2 Ha Hn. destruct a1 as [|c1 a1].
        -- simpl in Ha. subst a2. simpl. rewrite <- Ht.
           now apply match_bold_none.
        -- injection Ha as _ Ha. now apply (Hno a1 a2).
  - intros [a [x [r [Hl [Hsp Hno]]]]]. subst l.
    induction a as [|c a IH]; rewrite re_search_unfold.
    + apply match_bold_span in Hsp. simpl. unfold match_bold in Hsp.
      now rewrite Hsp.
    + assert (E : match_bold ((c :: a) ++ x) = None).
      { apply match_bold_none. apply (Hno [] (c :: a)); [reflexivity|].
        discriminate. }
      unfold match_bold in E. rewrite E. simpl. apply IH.
      intros a1 a2 Ha Hn. apply (Hno (c :: a1) a2); [now rewrite Ha|exact Hn].
Qed.

Lemma re_search_no_span (l : str) :
  re_search BOLD BOLD l = None <-> no_span l.
Proof.
  split.
  - induction l as [|c t IH]; intros H a x Hl; rewrite re_search_unfold in H.
    + destruct a; [|discriminate]. simpl in Hl. subst x.
      intros b r Hb. discriminate Hb.
    + change (match_delim BOLD BOLD (c :: t)) with (match_bold (c :: t)) in H.
      destruct (match_bold (c :: t)) as [[b r]|] eqn:E; [discriminate|].
      destruct a as [|c1 a].
      * simpl in Hl. subst x. now apply match_bold_none.
      * injection Hl as _ Hl. now apply (IH H a x).
  - intros H. induction l as [|c t IH]; rewrite re_search_unfold.
    + reflexivity.
    + assert (E : match_bold (c :: t) = None).
      { apply match_bold_none. now apply (H []). }
      unfold match_bold in E. rewrite E. apply IH.
      intros a x Hl. apply (H (c :: a) x). now rewrite Hl.
Qed.

Lemma extract_lede_lines_first (L1 L2 : list str) (l h : str) :
  Forall no_span L1 -> first_span l h ->
  extract_lede_lines (L1 ++ l :: L2) = trim_headline h.
Proof.
  intros H1 Hl. induction H1 as [|x L1 Hx _ IH]; simpl.
  - apply re_search_first_span in Hl. now rewrite Hl.
  - apply re_search_no_span in Hx. now rewrite Hx.
Qed.

Lemma extract_lede_lines_none (L : list str) :
  Forall no_span L -> extract_lede_lines L = [].
Proof.
  induction 1 as [|x L Hx _ IH]; simpl; [reflexivity|].
  apply re_search_no_span in Hx. now rewrite Hx.
Qed.

Lemma endswith_one (h : str) (c : char) :
  endswith h [c] = true <-> exists h0, h = h0 ++ [c].
Proof.
  unfold endswith. simpl. split.
  - destruct (rev h) as [|x t] eqn:E; [discriminate|].
    rewrite andb_true_r. intros Hx. apply N.eqb_eq in Hx. subst x.
    exists (rev t). rewrite <- (rev_involutive h), E. reflexivity.
  - intros [h0 ->]. rewrite rev_app_distr. simpl.
    now rewrite N.eqb_refl.
Qed.

(** A long headline is cut to its first 117 characters, whether or not a
    final full stop was removed first. *)
Lemma trim_headline_long (h : str) :
  (121 < length h)%nat -> trim_headline h = firstn 117 h ++ ELLIPSIS.
Proof.
  intros Hl. unfold trim_headline.
  destruct (endswith h [DOT]) eqn:E.
  - apply endswith_one in E as [h0 ->].
    rewrite removelast_last. rewrite length_app in Hl. simpl in Hl.
    replace (120 <? length h0)%nat with true
      by (symmetry; apply Nat.ltb_lt; lia).
    rewrite firstn_app.
    replace (117 - length h0)%nat with 0%nat by lia.
    simpl. now rewrite app_nil_r.
  - replace (120 <? length h)%nat with true
      by (symmetry; apply Nat.ltb_lt; lia).
    reflexivity.
Qed.

(** ** C5 *)

(** C5, as amended.  [extract_lede] returns the content of the first
    non-greedy bold span found scanning the lines from the top, the title
    line included; one trailing full stop is removed; a result longer than
    120 characters is cut to its first 117 characters followed by the
    ellipsis; without any bold span the result is empty.  A span of 150
    characters yields 120 characters, its first 117 and the ellipsis: the
    text before the ellipsis ends with a full stop exactly when the 117th
    character of the span is one. *)
Theorem C5_extract_lede_first_span :
  (forall text L1 l L2 h,
      split_lines (strip text) = L1 ++ l :: L2 ->
      Forall no_span L1 -> first_span l h ->
      extract_lede text = trim_headline h)
  /\ (forall text,
         Forall no_span (split_lines (strip text)) -> extract_lede text = [])
  /\ (forall h h0, h = h0 ++ [DOT] -> (length h0 <= 120)%nat ->
                   trim_headline h = h0)
  /\ (forall h, endswith h [DOT] = false -> (length h <= 120)%nat ->
                trim_headline h = h)
  /\ (forall h h0, h = h0 ++ [DOT] -> (120 < length h0)%nat ->
                   trim_headline h = firstn 117 h0 ++ ELLIPSIS)
  /\ (forall h, endswith h [DOT] = false -> (120 < length h)%nat ->
                trim_headline h = firstn 117 h ++ ELLIPSIS)
  /\ (forall h, length h = 150%nat ->
                trim_headline h = firstn 117 h ++ ELLIPSIS
                /\ length (trim_headline h) = 120%nat
                /\ (endswith (firstn 117 h) [DOT] = true
                    <-> nth 116 h 0 = DOT)).
Proof.
  split.
  { intros text L1 l L2 h Hs H1 Hl. unfold extract_lede. rewrite Hs.
    now apply extract_lede_lines_first. }
  split.
  { intros text H. unfold extract_lede. now apply extract_lede_lines_none. }
  split.
  { intros h h0 -> Hl. unfold trim_headline.
    assert (E : endswith (h0 ++ [DOT]) [DOT] = true)
      by (apply endswith_one; now exists h0).
    rewrite E, removelast_last.
    replace (120 <? length h0)%nat with false
      by (symmetry; apply Nat.ltb_ge; lia).
    reflexivity. }
  split.
  { intros h E Hl. unfold trim_headline. rewrite E.
    replace (120 <? length h)%nat with false
      by (symmetry; apply Nat.ltb_ge; lia).
    reflexivity. }
  split.
  { intros h h0 -> Hl. unfold trim_headline.
    assert (E : endswith (h0 ++ [DOT]) [DOT] = true)
      by (apply endswith_one; now exists h0).
    rewrite E, removelast_last.
    replace (120 <? length h0)%nat with true
      by (symmetry; apply Nat.ltb_lt; lia).
    reflexivity. }
  split.
  { intros h E Hl. unfold trim_headline. rewrite E.
    replace (120 <? length h)%nat with true
      by (symmetry; apply Nat.ltb_lt; lia).
    reflexivity. }
  intros h Hl.
  assert (Ht : trim_headline h = firstn 117 h ++ ELLIPSIS)
    by (apply trim_headline_long; lia).
  split; [exact Ht|]. split.
  { rewrite Ht, length_app, length_firstn, Hl. reflexivity. }
  rewrite endswith_one. split.
  - intros [h0 Hh0].
    assert (L0 : length h0 = 116%nat).
    { apply (f_equal (@length char)) in Hh0.
      rewrite length_firstn, length_app, Hl in Hh0. simpl in Hh0. lia. }
    rewrite <- (firstn_skipn 117 h), Hh0, <- app_assoc.
    rewrite app_nth2 by lia. rewrite L0. reflexivity.
  - intros Hn. exists (firstn 116 h).
    rewrite <- Hn.
    rewrite <- (firstn_skipn 116 h) at 1.
    rewrite firstn_app, firstn_firstn, length_firstn.
    replace (Nat.min 117 116) with 116%nat by reflexivity.
    replace (117 - Nat.min 116 (length h))%nat with 1%nat by lia.
    f_equal.
    rewrite <- (firstn_skipn 116 h) at 2.
    rewrite app_nth2 by (rewrite length_firstn; lia).
    rewrite length_firstn.
    replace (116 - Nat.min 116 (length h))%nat with 0%nat by lia.
    destruct (skipn 116 h) as [|c t] eqn:E; [|reflexivity].
    exfalso. apply (f_equal (@length char)) in E.
    rewrite length_skipn, Hl in E. discriminate.
Qed.

Lemma span_150_first : first_span (BOLD ++ span_150 ++ BOLD) span_150.
Proof. apply re_search_first_span. vm_compute. reflexivity. Qed.

(** The amended statement at a briefing of two lines whose second line holds
    the first bold span. *)
Lemma C5_extract_lede_witness :
  extract_lede (lit "Tucson Daily Brief" ++ [NL] ++ BOLD ++ span_150 ++ BOLD)
  = trim_headline span_150.
Proof.
  destruct C5_extract_lede_first_span as [H _].
  apply (H _ [lit "Tucson Daily Brief"] (BOLD ++ span_150 ++ BOLD) []).
  - vm_compute. reflexivity.
  - constructor; [|constructor].
    apply re_search_no_span. vm_compute. reflexivity.
  - apply span_150_first.
Defined.

(** C5 as stated fails: a span of 150 characters whose 117th character is a
    full stop is recovered with that full stop right before the ellipsis. *)
Lemma C5_counterexample :
  length span_150 = 150%nat
  /\ re_search BOLD BOLD (BOLD ++ span_150 ++ BOLD) = Some span_150
  /\ extract_lede (BOLD ++ span_150 ++ BOLD)
     = repeat 97 116 ++ [DOT] ++ ELLIPSIS
  /\ length (extract_lede (BOLD ++ span_150 ++ BOLD)) = 120%nat
  /\ endswith (firstn 117 (extract_lede (BOLD ++ span_150 ++ BOLD))) [DOT]
     = true.
Proof. vm_compute. repeat split; reflexivity. Qed.

(** The escape facts at a line with all four characters next to bold
    markers. *)
Lemma C3_escape_witness :
  escape_char 97 = [97]
  /\ entity_tail (lit "lt;b&gt;**") = true.
Proof.
  destruct C3_escape_each_character
    as [_ [_ [_ [_ [_ [_ [_ [Hplain [_ [Hamp _]]]]]]]]]].
  split.
  - apply Hplain; discriminate.
  - apply (Hamp (lit "**<b>**") BOLD (lit "lt;b&gt;**")).
    vm_compute. reflexivity.
Defined.

(** The emphasis specification at the example of the specification. *)
Lemma C4_inline_format_witness :
  inline_format (lit "Team wins **big game** tonight.")
  = flat_map seg_html
      (map Plain (lit "Team wins ") ++ [Bold (lit "big game")]
       ++ map Plain (lit " tonight.")).
Proof.
  destruct C4_inline_format_emphasis as [H _].
  destruct (H (lit "Team wins **big game** tonight.")) as [He [_ Hu]].
  apply Hu. exact He.
Defined.

(** ** The block loop *)

Lemma collect_para_spec (ls : list str) :
  forall p r, collect_para ls = (p, r) ->
  exists t1, ls = t1 ++ r /\ p = map strip t1
             /\ Forall (fun x => para_break (strip x) = false) t1
             /\ match r with
                | [] => True
                | y :: _ => para_break (strip y) = true
                end.
Proof.
  induction ls as [|l t IH]; intros p r H; simpl in H.
  - injection H as <- <-. exists []. repeat split; constructor.
  - destruct (para_break (strip l)) eqn:E.
    + injection H as <- <-. exists []. repeat split; [constructor|exact E].
    + destruct (collect_para t) as [p0 r0] eqn:Ec.
      injection H as <- <-.
      destruct (IH _ _ eq_refl) as [t1 [-> [-> [Hf Hr]]]].
      exists (l :: t1). repeat split; [now constructor|exact Hr].
Qed.

Lemma collect_para_length (ls p r : list str) :
  collect_para ls = (p, r) -> (length r <= length ls)%nat.
Proof.
  intros H. apply collect_para_spec in H as [t1 [-> _]].
  rewrite length_app. lia.
Qed.

(** Fuel beyond the number of lines changes nothing. *)
Lemma walk_fuel_enough (n : nat) :
  forall m ls, (length ls <= n)%nat -> (length ls <= m)%nat ->
               walk_fuel n ls = walk_fuel m ls.
Proof.
  induction n as [|n IH]; intros m ls Hn Hm.
  - destruct ls; [|simpl in Hn; lia]. destruct m; reflexivity.
  - destruct ls as [|l t]; [destruct m; reflexivity|].
    destruct m as [|m]; [simpl in Hm; lia|].
    simpl in Hn, Hm. simpl.
    destruct (strip l) as [|c line]; [apply IH; lia|].
    destruct (is_rule (c :: line)); [f_equal; apply IH; lia|].
    destruct (is_citation (c :: line)); [f_equal; apply IH; lia|].
    destruct (is_heading (c :: line)); [f_equal; apply IH; lia|].
    destruct (collect_para t) as [p r] eqn:Ec.
    apply collect_para_length in Ec.
    f_equal. apply IH; lia.
Qed.

Lemma walk_nil : walk [] = [].
Proof. reflexivity. Qed.

(** One iteration of the outer loop. *)
Lemma walk_cons (l : str) (t : list str) :
  walk (l :: t) =
  let line := strip l in
  match line with
  | [] => walk t
  | _ =>
      if is_rule line then Rule :: walk t
      else if is_citation line then Citation (source_text line) :: walk t
      else if is_heading line then Heading line :: walk t
      else
        let (p, r) := collect_para t in
        Paragraph (join [SPACE] (line :: p)) :: walk r
  end.
Proof.
  unfold walk. simpl.
  destruct (strip l) as [|c line]; [reflexivity|].
  destruct (is_rule (c :: line)); [reflexivity|].
  destruct (is_citation (c :: line)); [reflexivity|].
  destruct (is_heading (c :: line)); [reflexivity|].
  destruct (collect_para t) as [p r] eqn:Ec.
  apply collect_para_length in Ec.
  f_equal. apply walk_fuel_enough; lia.
Qed.

Lemma starts_pictograph_not_bold (line : str) :
  starts_pictograph line = true -> startswith line BOLD = false.
Proof.
  destruct line as [|c t]; [discriminate|]. simpl. intros H.
  destruct (N.eqb_spec c STAR) as [->|]; [discriminate H|reflexivity].
Qed.

Lemma is_heading_pictograph (line : str) :
  is_heading line = starts_pictograph line.
Proof.
  unfold is_heading. destruct (starts_pictograph line) eqn:E; [|reflexivity].
  now rewrite starts_pictograph_not_bold.
Qed.

(** A line that ends a paragraph is blank, a rule, a citation or a
    heading. *)
Lemma para_break_cases (line : str) :
  para_break line =
  match line with [] => true | _ => false end
  || is_rule line || is_citation line || is_heading line.
Proof.
  unfold para_break, is_citation. rewrite is_heading_pictograph.
  destruct line as [|c t]; [reflexivity|]. simpl.
  destruct (c =? NEWSPAPER), (c =? PAGE), (is_rule (c :: t)),
    (is_pictograph c); reflexivity.
Qed.

Lemma walk_one (l : str) : walk [l] = classify (strip l).
Proof.
  rewrite walk_cons. simpl. unfold classify.
  destruct (strip l) as [|c line]; [reflexivity|].
  destruct (is_rule (c :: line)); [reflexivity|].
  destruct (is_citation (c :: line)); [reflexivity|].
  destruct (is_heading (c :: line)); reflexivity.
Qed.

(** Every rule, citation and heading line among the lines walked yields its
    block. *)
Lemma walk_emits (n : nat) :
  forall ls l, (length ls <= n)%nat -> In l ls ->
               strip l <> [] -> para_break (strip l) = true ->
               In (special_block (strip l)) (walk ls).
Proof.
  induction n as [|n IH]; intros ls l Hn Hin Hne Hb.
  - destruct ls; [destruct Hin|simpl in Hn; lia].
  - destruct ls as [|x t]; [destruct Hin|]. simpl in Hn.
    rewrite walk_cons. cbv zeta.
    destruct Hin as [->|Hin].
    + rewrite para_break_cases in Hb. unfold special_block.
      destruct (strip l) as [|c line] eqn:El; [contradiction|].
      destruct (is_rule (c :: line)); [now left|].
      destruct (is_citation (c :: line)); [now left|].
      destruct (is_heading (c :: line)); [now left|discriminate Hb].
    + assert (Ht : In (special_block (strip l)) (walk t))
        by (apply IH; auto; lia).
      destruct (strip x) as [|c line]; [exact Ht|].
      destruct (is_rule (c :: line)); [now right|].
      destruct (is_citation (c :: line)); [now right|].
      destruct (is_heading (c :: line)); [now right|].
      destruct (collect_para t) as [p r] eqn:Ec.
      destruct (collect_para_spec _ _ _ Ec) as [t1 [Et [_ [Hf _]]]].
      right. apply IH; auto.
      * apply collect_para_length in Ec. lia.
      * rewrite Et in Hin. apply in_app_or in Hin as [Hin|Hin]; [|exact Hin].
        rewrite Forall_forall in Hf. rewrite (Hf _ Hin) in Hb. discriminate.
Qed.

(** ** The trailing metadata lines *)

(** The backward scan passes over a run of metadata lines. *)
Lemma footer_scan_run (kept : list str) :
  forall run extra,
    Forall footer_line run ->
    footer_scan (kept ++ run ++ extra) (length kept + length run)
      (length kept + length run)
    = footer_scan (kept ++ run ++ extra) (length kept) (length kept).
Proof.
  intros run. induction run as [|x run IH] using rev_ind; intros extra Hf.
  - simpl. now rewrite Nat.add_0_r.
  - apply Forall_app in Hf as [Hrun Hx].
    inversion Hx as [|? ? Hfx _]; subst.
    rewrite length_app. simpl length.
    replace (length kept + (length run + 1))%nat
      with (S (length kept + length run)) by lia.
    simpl footer_scan.
    assert (En : nth (length kept + length run)
                   (kept ++ (run ++ [x]) ++ extra) [] = x).
    { rewrite <- !app_assoc. rewrite app_assoc.
      rewrite <- length_app. simpl. apply nth_middle. }
    rewrite En. unfold footer_line in Hfx. rewrite Hfx.
    rewrite <- app_assoc. simpl. apply IH. exact Hrun.
Qed.

(** The scan stops at the last line that is no metadata line. *)
Lemma footer_scan_stop (kept rest : list str) :
  (kept = [] \/ exists k y, kept = k ++ [y] /\ ~ footer_line y) ->
  footer_scan (kept ++ rest) (length kept) (length kept) = length kept.
Proof.
  intros [->|[k [y [-> Hy]]]]; [reflexivity|].
  rewrite length_app. simpl length.
  replace (length k + 1)%nat with (S (length k)) by lia.
  simpl footer_scan.
  rewrite <- app_assoc. simpl. rewrite nth_middle.
  unfold footer_line in Hy.
  destruct (is_footer (strip y)); [contradiction|reflexivity].
Qed.

Lemma end_boundary_split (kept run : list str) :
  Forall footer_line run ->
  (kept = [] \/ exists k y, kept = k ++ [y] /\ ~ footer_line y) ->
  end_boundary (kept ++ run) = length kept.
Proof.
  intros Hf Hk. unfold end_boundary. rewrite length_app.
  pose proof (footer_scan_run kept run [] Hf) as H.
  rewrite app_nil_r in H. rewrite H.
  now apply footer_scan_stop.
Qed.

(** Every document splits into the lines kept and the trailing run of
    metadata lines. *)
Lemma footer_split (lines : list str) :
  exists kept run,
    lines = kept ++ run /\ Forall footer_line run
    /\ (kept = [] \/ exists k y, kept = k ++ [y] /\ ~ footer_line y).
Proof.
  induction lines as [|x lines IH] using rev_ind.
  - exists [], []. repeat split; [constructor|now left].
  - destruct IH as [kept [run [-> [Hf Hk]]]].
    destruct (is_footer (strip x)) eqn:E.
    + exists kept, (run ++ [x]). rewrite app_assoc.
      repeat split; [|exact Hk].
      apply Forall_app. split; [exact Hf|]. now constructor.
    + exists ((kept ++ run) ++ [x]), []. rewrite app_nil_r.
      repeat split; [constructor|].
      right. exists (kept ++ run), x. split; [reflexivity|].
      unfold footer_line. rewrite E. discriminate.
Qed.

Lemma firstn_app_exact (a b : list str) : firstn (length a) (a ++ b) = a.
Proof.
  rewrite firstn_app, Nat.sub_diag, firstn_all. simpl. apply app_nil_r.
Qed.

Lemma parse_lines_split (kept run : list str) :
  Forall footer_line run ->
  (kept = [] \/ exists k y, kept = k ++ [y] /\ ~ footer_line y) ->
  parse_lines (kept ++ run)
  = walk (skipn (title_skip (kept ++ run)) kept).
Proof.
  intros Hf Hk. unfold parse_lines, slice.
  rewrite (end_boundary_split kept run Hf Hk), firstn_app_exact.
  reflexivity.
Qed.

(** A non-metadata line keeps itself and all lines above it inside the
    boundary. *)
Lemma end_boundary_after (a b : list str) (x : str) :
  ~ footer_line x -> (length a < end_boundary (a ++ x :: b))%nat.
Proof.
  intros Hx.
  destruct (footer_split b) as [kept [run [-> [Hf Hk]]]].
  replace (a ++ x :: kept ++ run) with ((a ++ x :: kept) ++ run)
    by (rewrite <- app_assoc; reflexivity).
  rewrite end_boundary_split; [rewrite length_app; simpl; lia|exact Hf|].
  right. destruct Hk as [->|[k [y [-> Hy]]]].
  - exists a, x. split; [reflexivity|exact Hx].
  - exists (a ++ x :: k), y. split; [|exact Hy].
    rewrite <- app_assoc. reflexivity.
Qed.

(** Metadata lines appended to a document leave its blocks unchanged. *)
Lemma parse_lines_footer (pre extra : list str) :
  Forall footer_line extra ->
  (pre = [] -> title_skip extra = 0%nat) ->
  parse_lines (pre ++ extra) = parse_lines pre.
Proof.
  intros He Ht.
  destruct (footer_split pre) as [kept [run [-> [Hf Hk]]]].
  rewrite <- app_assoc.
  rewrite (parse_lines_split kept (run ++ extra)); [|now apply Forall_app|exact Hk].
  rewrite (parse_lines_split kept run Hf Hk).
  f_equal. f_equal.
  destruct kept as [|k0 kept]; [|reflexivity].
  destruct run as [|r0 run]; [|reflexivity].
  simpl. now apply Ht.
Qed.

(** ** C2 *)

(** C2.  The lines excluded from block parsing are exactly the trailing run
    of lines whose stripped text starts with one of the four metadata
    prefixes: the document splits into the lines kept and that run, the
    lines kept are empty or end with a line that is no metadata line, the
    boundary is the number of lines kept, and the blocks are those of the
    lines kept.  A line that is no metadata line keeps every line above it
    inside the boundary, so a metadata line with a blank line below it is
    parsed as content.  A document ending with the two metadata lines of the
    example has the blocks of the document without them. *)
Theorem C2_footer_run_excluded :
  (forall lines,
      exists kept run,
        lines = kept ++ run /\ Forall footer_line run
        /\ (kept = [] \/ exists k y, kept = k ++ [y] /\ ~ footer_line y)
        /\ end_boundary lines = length kept
        /\ parse_lines lines = walk (skipn (title_skip lines) kept))
  /\ (forall a x b,
         ~ footer_line x -> (length a < end_boundary (a ++ x :: b))%nat)
  /\ (forall text pre,
         split_lines (strip text) = pre ++ [FOOTER_SAVED; FOOTER_FETCHED] ->
         md_blocks text = parse_lines pre)
  /\ md_blocks doc_blank_in_footer
     = [Paragraph (lit "Story Briefing saved: 2026-02-18 06:00")].
Proof.
  split.
  { intros lines.
    destruct (footer_split lines) as [kept [run [-> [Hf Hk]]]].
    exists kept, run. repeat split; auto.
    - now apply end_boundary_split.
    - now apply parse_lines_split. }
  split; [intros a x b; apply end_boundary_after|].
  split; [|vm_compute; reflexivity].
  intros text pre H. unfold md_blocks. rewrite H.
  apply parse_lines_footer.
  - repeat constructor.
  - reflexivity.
Qed.

(** The statement at a briefing with a title, a story and the two metadata
    lines. *)
Lemma C2_footer_witness :
  md_blocks (join [NL] [lit "Tucson Daily Brief"; lit "Story";
                        FOOTER_SAVED; FOOTER_FETCHED])
  = parse_lines [lit "Tucson Daily Brief"; lit "Story"]
  /\ (2 < end_boundary [lit "Story"; FOOTER_SAVED; []; FOOTER_FETCHED])%nat.
Proof.
  destruct C2_footer_run_excluded as [_ [Hafter [Hfoot _]]].
  split.
  - apply Hfoot. vm_compute. reflexivity.
  - apply (Hafter [lit "Story"; FOOTER_SAVED] [] [FOOTER_FETCHED]).
    vm_compute. discriminate.
Defined.

(** ** C6 and C7 *)

Lemma is_citation_facts (line : str) :
  is_citation line = true ->
  line <> [] /\ is_rule line = false /\ para_break line = true
  /\ special_block line = Citation (source_text line)
  /\ classify line = [Citation (source_text line)].
Proof.
  intros H.
  assert (Hr : is_rule line = false).
  { unfold is_citation in H. destruct line as [|c t]; [discriminate H|].
    simpl in H. unfold is_rule. simpl forallb. unfold is_rule_char.
    rewrite !andb_true_r in H.
    destruct (N.eqb_spec c NEWSPAPER) as [->|_];
      [now rewrite andb_false_r|].
    destruct (N.eqb_spec c PAGE) as [->|_];
      [now rewrite andb_false_r|discriminate H]. }
  split; [intros ->; discriminate H|]. split; [exact Hr|].
  split; [rewrite para_break_cases, H; now rewrite orb_true_r|].
  unfold special_block, classify. rewrite Hr, H.
  split; [reflexivity|]. destruct line; [discriminate H|reflexivity].
Qed.

Lemma replace_absent (old : char) (new s : str) :
  ~ In old s -> replace old new s = s.
Proof.
  induction s as [|c s IH]; intros H; [reflexivity|].
  unfold replace. simpl.
  destruct (N.eqb_spec c old) as [->|_]; [exfalso; apply H; now left|].
  simpl. f_equal. apply IH. intros Hin. apply H. now right.
Qed.

(** C6, as amended.  A line inside the parse boundary whose stripped text
    starts with the newspaper or the page glyph yields a Citation block; its
    text is the stripped line with every occurrence of the two glyphs
    removed and then stripped again.  When the glyphs occur nowhere else in
    the line, that is the line without its leading glyph and the whitespace
    around the rest. *)
Theorem C6_citation_block :
  (forall lines l,
      In l (slice (title_skip lines) (end_boundary lines) lines) ->
      is_citation (strip l) = true ->
      In (Citation (source_text (strip l))) (parse_lines lines))
  /\ (forall line,
         source_text line = strip (replace PAGE [] (replace NEWSPAPER [] line)))
  /\ (forall g rest,
         g = NEWSPAPER \/ g = PAGE -> ~ In NEWSPAPER rest -> ~ In PAGE rest ->
         source_text (g :: rest) = strip rest)
  /\ md_blocks ([NEWSPAPER] ++ lit " Arizona Daily Star")
     = [Citation (lit "Arizona Daily Star")].
Proof.
  split.
  { intros lines l Hin Hc.
    destruct (is_citation_facts _ Hc) as [Hne [_ [Hb [Hs _]]]].
    rewrite <- Hs. unfold parse_lines.
    eapply walk_emits; eauto. }
  split; [reflexivity|].
  split; [|vm_compute; reflexivity].
  intros g rest Hg Hn Hp. unfold source_text.
  assert (E : replace PAGE [] (replace NEWSPAPER [] (g :: rest)) = rest).
  { change (g :: rest) with ([g] ++ rest). rewrite !replace_app.
    rewrite (replace_absent NEWSPAPER [] rest Hn).
    rewrite (replace_absent PAGE [] rest Hp).
    destruct Hg as [->| ->]; reflexivity. }
  now rewrite E.
Qed.

(** The amended statement at the citation line of the specification. *)
Lemma C6_citation_witness :
  In (Citation (lit "Arizona Daily Star"))
     (parse_lines [lit "Story"; [NEWSPAPER] ++ lit " Arizona Daily Star"])
  /\ source_text ([NEWSPAPER] ++ lit " Arizona Daily Star")
     = strip (lit " Arizona Daily Star").
Proof.
  destruct C6_citation_block as [Hin [_ [Hrest _]]].
  split.
  - apply (Hin [lit "Story"; [NEWSPAPER] ++ lit " Arizona Daily Star"]
               ([NEWSPAPER] ++ lit " Arizona Daily Star")).
    + vm_compute. right. left. reflexivity.
    + vm_compute. reflexivity.
  - apply (Hrest NEWSPAPER (lit " Arizona Daily Star")).
    + now left.
    + vm_compute. intuition discriminate.
    + vm_compute. intuition discriminate.
Defined.

(** C6 as stated fails: the page glyph inside the line is removed too, so
    the rest of the line is not kept unchanged. *)
Lemma C6_counterexample :
  is_citation (strip cite_twice) = true
  /\ md_blocks cite_twice = [Citation (lit "A  B")]
  /\ strip (skipn 1 (strip cite_twice)) = lit "A " ++ [PAGE] ++ lit " B"
  /\ md_blocks cite_twice <> [Citation (strip (skipn 1 (strip cite_twice)))].
Proof.
  split; [vm_compute; reflexivity|].
  split; [vm_compute; reflexivity|].
  split; [vm_compute; reflexivity|].
  vm_compute. discriminate.
Qed.

(** C7, as amended.  The tests are made on the stripped line in the order
    rule, citation, heading, paragraph and the first that holds decides: a
    document of one line has the block [classify] gives, a citation line is
    a Citation although its glyph lies in the pictographic range, and a rule
    line is a Rule.  Hence a line inside the parse boundary whose stripped
    text is not blank, starts with a pictographic symbol, does not start
    with the bold marker, is no rule and no citation, yields a Heading block
    with the whole stripped line, that is the line without the white space
    before and after it, which is rendered by escaping only. *)
Theorem C7_heading_block :
  (forall l, walk [l] = classify (strip l))
  /\ (forall line, is_rule line = true -> classify line = [Rule])
  /\ (forall line,
         is_citation line = true ->
         classify line = [Citation (source_text line)])
  /\ is_pictograph NEWSPAPER = true /\ is_pictograph PAGE = true
  /\ (forall lines l,
         In l (slice (title_skip lines) (end_boundary lines) lines) ->
         strip l <> [] -> starts_pictograph (strip l) = true ->
         startswith (strip l) BOLD = false ->
         is_rule (strip l) = false -> is_citation (strip l) = false ->
         In (Heading (strip l)) (parse_lines lines))
  /\ (forall text,
         render_block (Heading text) = lit "<h2>" ++ escape text ++ lit "</h2>")
  /\ md_blocks GOVERNMENT = [Heading GOVERNMENT]
  /\ md_to_html GOVERNMENT = lit "<h2>" ++ GOVERNMENT ++ lit "</h2>"
  /\ render_block (Heading (GOVERNMENT ++ lit " **now**"))
     = lit "<h2>" ++ GOVERNMENT ++ lit " **now**</h2>".
Proof.
  split; [apply walk_one|].
  split.
  { intros line H. unfold classify. rewrite H.
    destruct line; [discriminate H|reflexivity]. }
  split; [intros line H; now apply is_citation_facts|].
  split; [reflexivity|]. split; [reflexivity|].
  split.
  { intros lines l Hin Hne Hp Hb Hr Hc.
    assert (Hs : special_block (strip l) = Heading (strip l)).
    { unfold special_block. now rewrite Hr, Hc. }
    rewrite <- Hs. unfold parse_lines.
    eapply walk_emits; eauto.
    rewrite para_break_cases, is_heading_pictograph, Hp.
    now rewrite orb_true_r. }
  split; [reflexivity|].
  repeat split; vm_compute; reflexivity.
Qed.

(** The statement at the heading line of the specification, below a title
    and above a story. *)
Lemma C7_heading_witness :
  In (Heading GOVERNMENT)
     (parse_lines [lit "Tucson Daily Brief"; GOVERNMENT; lit "Story"])
  /\ classify ([NEWSPAPER] ++ lit " Arizona Daily Star")
     = [Citation (lit "Arizona Daily Star")].
Proof.
  destruct C7_heading_block as [_ [_ [Hcite [_ [_ [Hhead _]]]]]].
  split.
  - apply (Hhead [lit "Tucson Daily Brief"; GOVERNMENT; lit "Story"]
                 GOVERNMENT).
    + vm_compute. left. reflexivity.
    + vm_compute. discriminate.
    + vm_compute. reflexivity.
    + vm_compute. reflexivity.
    + vm_compute. reflexivity.
    + vm_compute. reflexivity.
  - apply (Hcite ([NEWSPAPER] ++ lit " Arizona Daily Star")).
    vm_compute. reflexivity.
Defined.

(** C7 as stated fails: a heading line with spaces after its text lies
    inside the boundary and meets every condition of the claim, but the
    Heading block holds the stripped line, not the entire line. *)
Lemma C7_counterexample :
  In gov_trailing
     (slice (title_skip (split_lines (strip text_gov_trailing)))
            (end_boundary (split_lines (strip text_gov_trailing)))
            (split_lines (strip text_gov_trailing)))
  /\ gov_trailing <> [] /\ strip gov_trailing <> []
  /\ starts_pictograph gov_trailing = true
  /\ startswith gov_trailing BOLD = false
  /\ is_rule gov_trailing = false /\ is_citation gov_trailing = false
  /\ md_blocks text_gov_trailing = [Heading GOVERNMENT; Paragraph (lit "Story")]
  /\ GOVERNMENT <> gov_trailing
  /\ ~ In (Heading gov_trailing) (md_blocks text_gov_trailing).
Proof.
  split; [vm_compute; left; reflexivity|].
  split; [vm_compute; discriminate|].
  split; [vm_compute; discriminate|].
  split; [vm_compute; reflexivity|].
  split; [vm_compute; reflexivity|].
  split; [vm_compute; reflexivity|].
  split; [vm_compute; reflexivity|].
  split; [vm_compute; reflexivity|].
  split; [vm_compute; discriminate|].
  intros H. vm_compute in H. destruct H as [H|[H|[]]]; discriminate H.
Qed.

(** ** Merging and sorting the post records *)

Lemma str_eqb_eq (a b : str) : str_eqb a b = true <-> a = b.
Proof.
  revert b. induction a as [|x a IH]; intros [|y b]; simpl;
    try (split; [discriminate|discriminate]); [tauto|].
  rewrite andb_true_iff, N.eqb_eq, IH. split.
  - intros [-> ->]. reflexivity.
  - intros H. injection H as -> ->. now split.
Qed.

Lemma str_eqb_refl (a : str) : str_eqb a a = true.
Proof. now apply str_eqb_eq. Qed.

Lemma date_leb_total (a b : date) :
  date_leb a b = false -> date_leb b a = true.
Proof.
  unfold date_leb. destruct a as [ya ma da], b as [yb mb db]. simpl.
  destruct (N.ltb_spec ya yb), (N.eqb_spec ya yb), (N.ltb_spec ma mb),
    (N.eqb_spec ma mb), (N.leb_spec da db),
    (N.ltb_spec yb ya), (N.eqb_spec yb ya), (N.ltb_spec mb ma),
    (N.eqb_spec mb ma), (N.leb_spec db da);
    simpl; try reflexivity; try discriminate; intros _; lia.
Qed.

Lemma insert_desc_perm (p : post) (l : list post) :
  Permutation (insert_desc p l) (p :: l).
Proof.
  induction l as [|q t IH]; simpl; [reflexivity|].
  destruct (date_leb (p_date q) (p_date p)); [reflexivity|].
  rewrite IH. apply perm_swap.
Qed.

Lemma sort_desc_perm (l : list post) : Permutation (sort_desc l) l.
Proof.
  induction l as [|p t IH]; simpl; [reflexivity|].
  rewrite insert_desc_perm. now constructor.
Qed.

Lemma insert_desc_hd (p a : post) (l : list post) :
  newer_first a p -> HdRel newer_first a l ->
  HdRel newer_first a (insert_desc p l).
Proof.
  intros Hp Hl. destruct l as [|q t]; simpl; [now constructor|].
  destruct (date_leb (p_date q) (p_date p)); constructor; auto.
  now inversion Hl.
Qed.

Lemma insert_desc_sorted (p : post) (l : list post) :
  Sorted newer_first l -> Sorted newer_first (insert_desc p l).
Proof.
  induction 1 as [|q t Hs IH Hh]; simpl; [repeat constructor|].
  destruct (date_leb (p_date q) (p_date p)) eqn:E.
  - constructor; [now constructor|]. constructor. exact E.
  - constructor; [exact IH|].
    apply insert_desc_hd; [|exact Hh].
    unfold newer_first. now apply date_leb_total.
Qed.

Lemma sort_desc_sorted (l : list post) : Sorted newer_first (sort_desc l).
Proof.
  induction l as [|p t IH]; simpl; [constructor|].
  now apply insert_desc_sorted.
Qed.

Lemma count_slug_perm (slug : str) (l l' : list post) :
  Permutation l l' -> count_slug slug l = count_slug slug l'.
Proof.
  unfold count_slug. induction 1 as [|x l l' _ IH|x y l|l l' l'' _ IH1 _ IH2];
    simpl; auto.
  - destruct (str_eqb (p_slug x) slug); simpl; auto.
  - destruct (str_eqb (p_slug x) slug), (str_eqb (p_slug y) slug); reflexivity.
  - now rewrite IH1.
Qed.

Lemma count_slug_filtered (slug : str) (l : list post) :
  count_slug slug (filter (fun p => negb (str_eqb (p_slug p) slug)) l) = 0%nat.
Proof.
  unfold count_slug. induction l as [|p l IH]; simpl; [reflexivity|].
  destruct (str_eqb (p_slug p) slug) eqn:E; simpl; [exact IH|].
  now rewrite E.
Qed.

Lemma count_slug_app (slug : str) (a b : list post) :
  count_slug slug (a ++ b) = (count_slug slug a + count_slug slug b)%nat.
Proof. unfold count_slug. now rewrite filter_app, length_app. Qed.

Lemma merge_posts_perm (posts : list post) (new : post) :
  Permutation (merge_posts posts new)
    (filter (fun p => negb (str_eqb (p_slug p) (p_slug new))) posts ++ [new]).
Proof. unfold merge_posts. apply sort_desc_perm. Qed.

Lemma merge_posts_count (posts : list post) (new : post) :
  count_slug (p_slug new) (merge_posts posts new) = 1%nat.
Proof.
  rewrite (count_slug_perm _ _ _ (merge_posts_perm posts new)).
  rewrite count_slug_app, count_slug_filtered.
  unfold count_slug. simpl. now rewrite str_eqb_refl.
Qed.

Lemma merge_posts_only_new (posts : list post) (new p : post) :
  In p (merge_posts posts new) -> p_slug p = p_slug new -> p = new.
Proof.
  intros Hin Hs.
  apply (Permutation_in _ (merge_posts_perm posts new)) in Hin.
  apply in_app_or in Hin as [Hin|[<-|[]]]; [|reflexivity].
  apply filter_In in Hin as [_ Hn].
  apply str_eqb_eq in Hs. rewrite Hs in Hn. discriminate.
Qed.

Lemma merge_posts_keeps (posts : list post) (new p : post) :
  In p posts -> p_slug p <> p_slug new -> In p (merge_posts posts new).
Proof.
  intros Hin Hs.
  apply (Permutation_in _ (Permutation_sym (merge_posts_perm posts new))).
  apply in_or_app. left. apply filter_In. split; [exact Hin|].
  destruct (str_eqb (p_slug p) (p_slug new)) eqn:E; [|reflexivity].
  apply str_eqb_eq in E. contradiction.
Qed.

(** Writing the same file again leaves the directory as it is. *)
Lemma write_file_again (files : list (str * str)) (stem content : str) :
  write_file (write_file files stem content) stem content
  = write_file files stem content.
Proof.
  induction files as [|[s c] rest IH]; simpl.
  - now rewrite str_eqb_refl.
  - destruct (str_eqb s stem) eqn:E; simpl.
    + now rewrite str_eqb_refl.
    + now rewrite E, IH.
Qed.

Lemma mkdir_write_again (dir : posts_dir) (stem content : str) :
  mkdir_write (mkdir_write dir stem content) stem content
  = mkdir_write dir stem content.
Proof.
  destruct dir as [files|]; simpl.
  - now rewrite write_file_again.
  - now rewrite str_eqb_refl.
Qed.

(** A run that ends normally hands the merged list to the index renderer;
    running again on the same briefing changes nothing. *)
Lemma main_done (dir : posts_dir) (md_stem md_text : str)
      (dir1 : posts_dir) (posts1 : list post) (index1 : str) :
  main dir md_stem md_text = Done dir1 posts1 index1 ->
  exists m d recovered,
    search_date md_stem = Some m /\ strptime m = Some d
    /\ dir1 = mkdir_write dir (post_slug d) (render_post d (md_to_html md_text))
    /\ collect_existing_posts dir1 = Ok recovered
    /\ posts1 = merge_posts recovered
                  (mkpost d (post_slug d) (extract_lede md_text))
    /\ index1 = render_index posts1
    /\ main dir1 md_stem md_text = Done dir1 posts1 index1.
Proof.
  unfold main. intros H.
  destruct (search_date md_stem) as [m|] eqn:Em; [|discriminate].
  destruct (strptime m) as [d|] eqn:Ed; [|discriminate].
  destruct (collect_existing_posts
              (mkdir_write dir (post_slug d)
                 (render_post d (md_to_html md_text)))) as [rec|] eqn:Ec;
    [|discriminate].
  injection H as <- <- <-.
  exists m, d, rec. repeat split; auto.
  rewrite mkdir_write_again, Ec. reflexivity.
Qed.

(** ** C1 *)

(** C1.  The list handed to the index renderer holds the new record, holds
    no other record with the new record's identifier, and is sorted by date,
    newest first.  Hence a run of [main] that ends normally leaves one entry
    for the rendered date, and a second run on the same briefing ends with
    the same directory, the same list and the same index.  The three posts
    of the sort example come out in the order 2026-02-18, 2026-02-01,
    2026-01-30. *)
Theorem C1_merged_list_unique_sorted :
  (forall posts new,
      In new (merge_posts posts new)
      /\ (forall p, In p (merge_posts posts new) ->
                    p_slug p = p_slug new -> p = new)
      /\ count_slug (p_slug new) (merge_posts posts new) = 1%nat
      /\ (forall p, In p posts -> p_slug p <> p_slug new ->
                    In p (merge_posts posts new))
      /\ Sorted newer_first (merge_posts posts new))
  /\ (forall dir md_stem md_text dir1 posts1 index1,
         main dir md_stem md_text = Done dir1 posts1 index1 ->
         exists m d,
           search_date md_stem = Some m /\ strptime m = Some d
           /\ count_slug (post_slug d) posts1 = 1%nat
           /\ Sorted newer_first posts1
           /\ index1 = render_index posts1
           /\ main dir1 md_stem md_text = Done dir1 posts1 index1)
  /\ map p_slug (merge_posts [post_0201; post_0218] post_0130)
     = [lit "2026-02-18"; lit "2026-02-01"; lit "2026-01-30"]
  /\ map p_slug (sort_desc [post_0201; post_0218; post_0130])
     = [lit "2026-02-18"; lit "2026-02-01"; lit "2026-01-30"].
Proof.
  split.
  { intros posts new. split.
    { apply (Permutation_in _ (Permutation_sym (merge_posts_perm posts new))).
      apply in_or_app. right. now left. }
    split; [intros p; apply merge_posts_only_new|].
    split; [apply merge_posts_count|].
    split; [intros p; apply merge_posts_keeps|].
    apply sort_desc_sorted. }
  split; [|split; vm_compute; reflexivity].
  intros dir md_stem md_text dir1 posts1 index1 H.
  destruct (main_done _ _ _ _ _ _ H)
    as [m [d [rec [Em [Ed [_ [_ [Hp [Hi Hagain]]]]]]]]].
  exists m, d. repeat split; auto.
  - rewrite Hp.
    apply (merge_posts_count rec (mkpost d (post_slug d) _)).
  - rewrite Hp. apply sort_desc_sorted.
Qed.

(** The first part of C1 at the sort example, the second at a directory that
    already holds a post of the rendered date. *)
Lemma C1_merged_list_witness :
  (In post_0201 (merge_posts [post_0201; post_0218] post_0130))
  /\ exists dir1 posts1 index1,
      main (Some [(lit "2026-02-18", post_two_dots)]) stem_0218 text_0218
      = Done dir1 posts1 index1
      /\ count_slug (lit "2026-02-18") posts1 = 1%nat
      /\ main dir1 stem_0218 text_0218 = Done dir1 posts1 index1.
Proof.
  destruct C1_merged_list_unique_sorted as [Hmerge [Hmain _]].
  split.
  - destruct (Hmerge [post_0201; post_0218] post_0130)
      as [_ [_ [_ [Hkeep _]]]].
    apply Hkeep; [now left|]. vm_compute. discriminate.
  - destruct (main (Some [(lit "2026-02-18", post_two_dots)])
                stem_0218 text_0218) as [| |dir1 posts1 index1] eqn:E.
    + vm_compute in E. discriminate E.
    + vm_compute in E. discriminate E.
    + exists dir1, posts1, index1. split; [reflexivity|].
      destruct (Hmain _ _ _ _ _ _ E)
        as [m [d [Em [Ed [Hc [_ [_ Hagain]]]]]]].
      vm_compute in Em. injection Em as <-.
      vm_compute in Ed. injection Ed as <-.
      split; [exact Hc|exact Hagain].
Defined.

(** ** Recovering the post records *)

Lemma collect_files_ok (files : list (str * str)) :
  real_date_names files ->
  collect_files files = Ok (flat_map file_record files).
Proof.
  induction 1 as [|[stem content] rest Hf _ IH]; simpl; [reflexivity|].
  unfold file_record at 1. simpl in *.
  destruct (search_date stem) as [m|]; [|exact IH].
  destruct (strptime m) as [d|] eqn:Ed.
  - now rewrite IH.
  - exfalso. now apply (Hf m).
Qed.

Lemma rev_repeat (c : char) (n : nat) : rev (repeat c n) = repeat c n.
Proof.
  induction n as [|n IH]; [reflexivity|].
  simpl. rewrite IH. symmetry. apply repeat_cons.
Qed.

Lemma dropwhile_repeat (f : char -> bool) (c : char) (n : nat) (x : str) :
  f c = true -> dropwhile f (repeat c n ++ x) = dropwhile f x.
Proof.
  intros Hc. induction n as [|n IH]; [reflexivity|].
  simpl. now rewrite Hc.
Qed.

(** [rstrip_dots] removes the whole run of final full stops. *)
Lemma rstrip_dots_run (s : str) (n : nat) :
  endswith s [DOT] = false -> rstrip_dots (s ++ repeat DOT n) = s.
Proof.
  unfold endswith, rstrip_dots. intros H.
  rewrite rev_app_distr, rev_repeat, dropwhile_repeat by reflexivity.
  destruct (rev s) as [|c t] eqn:E.
  - simpl. rewrite <- (rev_involutive s), E. reflexivity.
  - simpl in H. rewrite andb_true_r in H. simpl. rewrite H.
    rewrite <- E. apply rev_involutive.
Qed.

(** Without two final full stops, [rstrip_dots] removes what the extractor
    removes. *)
Lemma rstrip_dots_one (b : str) :
  endswith b [DOT; DOT] = false ->
  rstrip_dots b = if endswith b [DOT] then removelast b else b.
Proof.
  intros H. destruct (endswith b [DOT]) eqn:E.
  - apply endswith_one in E as [h0 ->]. rewrite removelast_last.
    apply (rstrip_dots_run h0 1).
    unfold endswith in *. rewrite rev_app_distr in H. simpl in H.
    simpl. exact H.
  - rewrite <- (app_nil_r b) at 1. now apply (rstrip_dots_run b 0).
Qed.

(** ** C8 *)

(** C8, as amended.  When the posts directory does not exist the result is
    the empty list; a file whose name holds no match of the date pattern
    contributes nothing; when every match of the date pattern in a file
    name is parsed as a date of the calendar, recovery succeeds with one
    record per remaining file, in the order of the files.  The lede of a
    record is the content of the post-lede tag if the pattern finds one;
    otherwise the first strong span of the file without one final full
    stop, provided the span does not end with two full stops; otherwise
    empty. *)
Theorem C8_recovery :
  collect_existing_posts None = Ok []
  /\ (forall stem content rest,
         search_date stem = None ->
         collect_files ((stem, content) :: rest) = collect_files rest)
  /\ (forall files,
         real_date_names files ->
         collect_existing_posts (Some files)
         = Ok (flat_map file_record files))
  /\ (forall content lede,
         search_post_lede content = Some lede -> recover_lede content = lede)
  /\ (forall content s,
         search_post_lede content = None ->
         re_search STRONG_OPEN STRONG_CLOSE content = Some s ->
         endswith s [DOT; DOT] = false ->
         recover_lede content = if endswith s [DOT] then removelast s else s)
  /\ (forall content,
         search_post_lede content = None ->
         re_search STRONG_OPEN STRONG_CLOSE content = None ->
         recover_lede content = []).
Proof.
  split; [reflexivity|].
  split; [intros stem content rest H; simpl; now rewrite H|].
  split; [intros files H; now apply collect_files_ok|].
  split; [intros content lede H; unfold recover_lede; now rewrite H|].
  split.
  - intros content s H1 H2 H3. unfold recover_lede. rewrite H1, H2.
    now apply rstrip_dots_one.
  - intros content H1 H2. unfold recover_lede. now rewrite H1, H2.
Qed.

(** The amended statement at a directory with a post file and a file
    without a date in its name. *)
Lemma C8_recovery_witness :
  collect_existing_posts
    (Some [(lit "2026-02-18", post_one_dot); (lit "notes", lit "x")])
  = Ok [mkpost (mkdate 2026 2 18) (lit "2026-02-18") (lit "Wow")]
  /\ recover_lede post_one_dot = lit "Wow".
Proof.
  destruct C8_recovery as [_ [_ [Hok [_ [Hstrong _]]]]].
  split.
  - rewrite Hok; [reflexivity|].
    repeat constructor; simpl; intros m H; vm_compute in H;
      try discriminate H; injection H as <-; vm_compute; discriminate.
  - rewrite (Hstrong post_one_dot (lit "Wow."));
      vm_compute; reflexivity.
Defined.

(** C8 as stated fails: recovery raises on a file name whose date pattern
    names no date of the calendar, and the fallback removes every final full
    stop of the strong span, not one. *)
Lemma C8_counterexample :
  search_date (lit "2026-13-01") = Some (lit "2026-13-01")
  /\ collect_existing_posts (Some [(lit "2026-13-01", lit "x")]) = ValueError
  /\ search_post_lede post_two_dots = None
  /\ re_search STRONG_OPEN STRONG_CLOSE post_two_dots = Some (lit "Wow..")
  /\ collect_existing_posts (Some [(lit "2026-02-18", post_two_dots)])
     = Ok [mkpost (mkdate 2026 2 18) (lit "2026-02-18") (lit "Wow")]
  /\ removelast (lit "Wow..") = lit "Wow."
  /\ recover_lede post_two_dots <> removelast (lit "Wow..").
Proof.
  repeat split; try (vm_compute; reflexivity).
  vm_compute. discriminate.
Qed.

(** A file name with a date pattern that is no date of the calendar makes
    [strptime] raise, and the recovery with it. *)
Example collect_invalid_date_raises :
  collect_existing_posts (Some [(lit "2026-13-01", lit "x")]) = ValueError.
Proof. vm_compute. reflexivity. Qed.

(** ** Text in which a pattern cannot start *)

Lemma clash_startswith (p s z : str) :
  clash p s = true -> startswith (s ++ z) p = false.
Proof.
  revert s. induction p as [|h p IH]; intros [|c s] H; simpl in *;
    try discriminate.
  destruct (N.eqb_spec c h) as [->|_]; simpl in *; [|reflexivity].
  now apply IH.
Qed.

Lemma all_clash_inert (p x : str) : all_clash p x = true -> inert p x.
Proof.
  induction x as [|c x IH]; intros H x1 x2 z Hx Hn.
  - destruct x1; destruct x2; try discriminate. contradiction.
  - simpl in H. apply andb_true_iff in H as [Hc Hall].
    destruct x1 as [|c1 x1].
    + simpl in Hx. subst x2. now apply clash_startswith.
    + injection Hx as _ Hx. now apply (IH Hall x1 x2 z).
Qed.

Lemma inert_nil (p : str) : inert p [].
Proof.
  intros x1 x2 z Hx Hn. destruct x1; destruct x2; try discriminate.
  contradiction.
Qed.

Lemma inert_app (p x y : str) : inert p x -> inert p y -> inert p (x ++ y).
Proof.
  intros Hx Hy x1 x2 z H Hn.
  apply app_eq_app in H as [e [[H1 H2]|[H1 H2]]].
  - (* x = x1 ++ e, x2 = e ++ y *)
    subst x2. destruct e as [|c e].
    + simpl in *. apply (Hy [] y z); auto.
    + rewrite <- app_assoc. apply (Hx x1 (c :: e) (y ++ z)); auto.
      discriminate.
  - (* x1 = x ++ e, y = e ++ x2 *)
    apply (Hy e x2 z); auto.
Qed.

Lemma inert_suffix (p w v : str) : inert p (w ++ v) -> inert p v.
Proof.
  intros H x1 x2 z Hx Hn. apply (H (w ++ x1) x2 z); auto.
  rewrite Hx. now rewrite app_assoc.
Qed.

Lemma inert_nohead (h : char) (p x : str) : ~ In h x -> inert (h :: p) x.
Proof.
  intros Hh x1 x2 z Hx Hn. destruct x2 as [|c x2]; [contradiction|].
  simpl. destruct (N.eqb_spec c h) as [->|_]; [|reflexivity].
  exfalso. apply Hh. rewrite Hx. apply in_or_app. right. now left.
Qed.

Lemma inert_concat (p : str) (xs : list str) :
  Forall (inert p) xs -> inert p (concat xs).
Proof.
  induction 1 as [|x xs Hx _ IH]; simpl; [apply inert_nil|].
  now apply inert_app.
Qed.

(** The search passes over text in which the opening literal cannot
    start. *)
Lemma re_search_inert (open close x z : str) :
  inert open x -> re_search open close (x ++ z) = re_search open close z.
Proof.
  induction x as [|c x IH]; intros H; [reflexivity|].
  rewrite re_search_unfold. unfold match_delim.
  rewrite (H [] (c :: x) z) by (reflexivity || discriminate).
  simpl. apply IH. now apply (inert_suffix open [c] x).
Qed.

Lemma search_post_lede_unfold (s : str) :
  search_post_lede s =
  match match_post_lede s with
  | Some (b, _) => Some b
  | None =>
      match s with
      | [] => None
      | _ :: t => search_post_lede t
      end
  end.
Proof. destruct s; reflexivity. Qed.

Lemma search_post_lede_inert (x z : str) :
  inert POST_LEDE_OPEN x -> search_post_lede (x ++ z) = search_post_lede z.
Proof.
  induction x as [|c x IH]; intros H; [reflexivity|].
  rewrite search_post_lede_unfold. unfold match_post_lede.
  rewrite (H [] (c :: x) z) by (reflexivity || discriminate).
  simpl. apply IH. now apply (inert_suffix POST_LEDE_OPEN [c] x).
Qed.

Lemma search_post_lede_none (x : str) :
  inert POST_LEDE_OPEN x -> search_post_lede x = None.
Proof.
  intros H. rewrite <- (app_nil_r x).
  rewrite search_post_lede_inert by exact H. reflexivity.
Qed.

(** The first strong span of a text: what stands before it cannot start the
    opening tag, and the span holds neither a newline nor a [<]. *)
Lemma re_search_strong (x b y : str) :
  inert STRONG_OPEN x -> b <> [] -> ~ In LT b -> ~ In NL b ->
  re_search STRONG_OPEN STRONG_CLOSE
    (x ++ STRONG_OPEN ++ b ++ STRONG_CLOSE ++ y) = Some b.
Proof.
  intros Hx Hb Hl Hn. rewrite re_search_inert by exact Hx.
  rewrite re_search_unfold. unfold match_delim.
  rewrite startswith_app, skipn_app_exact.
  rewrite (group_lazy_exact STRONG_CLOSE LT (lit "/strong>") b y);
    auto.
Qed.

(** ** The pieces of a rendered post *)

Lemma notin_existsb (h : char) (x : str) :
  existsb (N.eqb h) x = false -> ~ In h x.
Proof.
  intros H Hin.
  assert (E : existsb (N.eqb h) x = true).
  { apply existsb_exists. exists h. split; [exact Hin|apply N.eqb_refl]. }
  rewrite H in E. discriminate.
Qed.

Lemma digit_char_not_lt (n : N) : digit_char n <> LT.
Proof.
  unfold digit_char, LT. pose proof (N.mod_lt n 10). lia.
Qed.

Lemma month_name_nolt (m : N) : ~ In LT (month_name m).
Proof.
  unfold month_name. generalize (N.to_nat (m - 1)) as k. intros k.
  do 12 (destruct k as [|k];
         [apply notin_existsb; vm_compute; reflexivity|]).
  destruct k; intros [].
Qed.

Lemma pad_nolt (n : N) : ~ In LT (pad2 n) /\ ~ In LT (pad4 n)
                         /\ ~ In LT (unpadded n).
Proof.
  assert (H2 : ~ In LT (pad2 n)).
  { unfold pad2. simpl.
    intros [H|[H|[]]]; now apply digit_char_not_lt in H. }
  split; [exact H2|]. split.
  - unfold pad4. simpl.
    intros [H|[H|[H|[H|[]]]]]; now apply digit_char_not_lt in H.
  - unfold unpadded. destruct (n <? 10); [|exact H2].
    simpl. intros [H|[]]. now apply digit_char_not_lt in H.
Qed.

Lemma notin_app (h : char) (a b : str) :
  ~ In h a -> ~ In h b -> ~ In h (a ++ b).
Proof. intros Ha Hb H. apply in_app_or in H as [H|H]; auto. Qed.

Lemma format_date_long_nolt (d : date) : ~ In LT (format_date_long d).
Proof.
  unfold format_date_long.
  destruct (pad_nolt (day d)) as [_ [_ Hu]].
  destruct (pad_nolt (year d)) as [_ [Hy _]].
  repeat apply notin_app; auto using month_name_nolt;
    apply notin_existsb; reflexivity.
Qed.

Lemma post_slug_nolt (d : date) : ~ In LT (post_slug d).
Proof.
  unfold post_slug.
  destruct (pad_nolt (day d)) as [Hd _].
  destruct (pad_nolt (month d)) as [Hm _].
  destruct (pad_nolt (year d)) as [_ [Hy _]].
  repeat apply notin_app; auto; apply notin_existsb; reflexivity.
Qed.

Lemma escape_nolt (text : str) : ~ In LT (escape text).
Proof. intros H. apply escape_no_raw in H. tauto. Qed.

Lemma inert_join (p sep : str) (xs : list str) :
  inert p sep -> Forall (inert p) xs -> inert p (join sep xs).
Proof.
  intros Hs. induction 1 as [|x xs Hx Hxs IH]; [apply inert_nil|].
  destruct xs as [|y ys]; [exact Hx|].
  change (join sep (x :: y :: ys)) with (x ++ sep ++ join sep (y :: ys)).
  repeat apply inert_app; auto.
Qed.

Section Page.

Variable open : str.
Variable open_tail : str.
Hypothesis open_lt : open = LT :: open_tail.
Hypothesis open_literals : forallb (all_clash open) page_literals = true.

Lemma literal_inert (x : str) : In x page_literals -> inert open x.
Proof.
  intros H. apply all_clash_inert.
  rewrite forallb_forall in open_literals. now apply open_literals.
Qed.

Lemma nolt_inert (x : str) : ~ In LT x -> inert open x.
Proof. rewrite open_lt. apply inert_nohead. Qed.

Ltac literal :=
  apply literal_inert; unfold page_literals;
  repeat (first [left; reflexivity | right]).

(** The page up to the body. *)
Lemma page_head_inert (d : date) :
  inert open
    (POST_1 ++ (lit "Tucson Daily Brief &mdash; " ++ format_date_long d)
     ++ POST_2 ++ post_slug d ++ POST_3 ++ format_date_long d ++ POST_4).
Proof.
  apply inert_app; [literal|].
  apply inert_app.
  { apply inert_app; [literal|]. apply nolt_inert, format_date_long_nolt. }
  apply inert_app; [literal|].
  apply inert_app; [apply nolt_inert, post_slug_nolt|].
  apply inert_app; [literal|].
  apply inert_app; [apply nolt_inert, format_date_long_nolt|].
  literal.
Qed.

Lemma page_tail_inert : inert open POST_5.
Proof. literal. Qed.

Lemma newline_inert : inert open [NL].
Proof. literal. Qed.

Lemma paragraph_open_inert : inert open (lit "<p>").
Proof. literal. Qed.

Lemma paragraph_close_inert : inert open (lit "</p>").
Proof. literal. Qed.

(** The blocks that are rendered by escaping only. *)
Lemma plain_block_inert (b : Block) :
  match b with Paragraph _ => False | _ => True end ->
  inert open (render_block b).
Proof.
  destruct b as [|text|text|text]; intros H.
  - simpl render_block. literal.
  - change (render_block (Citation text))
      with ((lit "<p class=" ++ [QUOT] ++ lit "source" ++ [QUOT] ++ lit ">")
            ++ escape text ++ lit "</p>").
    apply inert_app; [literal|].
    apply inert_app; [apply nolt_inert, escape_nolt|literal].
  - change (render_block (Heading text))
      with (lit "<h2>" ++ escape text ++ lit "</h2>").
    apply inert_app; [literal|].
    apply inert_app; [apply nolt_inert, escape_nolt|literal].
  - destruct H.
Qed.

End Page.

Lemma post_lede_literals :
  forallb (all_clash POST_LEDE_OPEN) page_literals = true.
Proof. vm_compute. reflexivity. Qed.

Lemma strong_literals : forallb (all_clash STRONG_OPEN) page_literals = true.
Proof. vm_compute. reflexivity. Qed.

Lemma Emph_chars (s : str) (g : list seg) (x : seg) :
  Emph s g -> In x g -> incl (seg_src x) s.
Proof.
  intros He Hx c Hc. rewrite <- (Emph_src s g He).
  apply in_flat_map. now exists x.
Qed.

(** Inline text never holds the opening of a post-lede tag. *)
Lemma inline_format_inert (text : str) :
  inert POST_LEDE_OPEN (inline_format text).
Proof.
  unfold inline_format. rewrite sub_bold_segs, flat_map_concat_map.
  apply inert_concat. apply Forall_map. apply Forall_forall.
  intros x Hx.
  pose proof (Emph_chars _ _ x (bold_segs_Emph (escape text)) Hx) as Hc.
  assert (Hl : ~ In LT (seg_src x)).
  { intros H. apply Hc in H. now apply escape_nolt in H. }
  destruct x as [c|b].
  - apply (inert_nohead LT). exact Hl.
  - change (seg_html (Bold b)) with (STRONG_OPEN ++ b ++ STRONG_CLOSE).
    apply inert_app; [apply all_clash_inert; reflexivity|].
    apply inert_app; [|apply all_clash_inert; reflexivity].
    apply (inert_nohead LT). intros H. apply Hl.
    change (seg_src (Bold b)) with (BOLD ++ b ++ BOLD).
    apply in_or_app. right. apply in_or_app. now left.
Qed.

Lemma render_block_inert (b : Block) : inert POST_LEDE_OPEN (render_block b).
Proof.
  destruct b as [|text|text|text];
    try (apply (plain_block_inert POST_LEDE_OPEN _ eq_refl post_lede_literals);
         exact I).
  change (render_block (Paragraph text))
    with (lit "<p>" ++ inline_format text ++ lit "</p>").
  apply inert_app;
    [apply (paragraph_open_inert POST_LEDE_OPEN post_lede_literals)|].
  apply inert_app; [apply inline_format_inert|].
  apply (paragraph_close_inert POST_LEDE_OPEN post_lede_literals).
Qed.

(** No rendered post holds a post-lede tag: its lede is recovered from the
    first strong span. *)
Lemma render_post_no_post_lede (d : date) (text : str) :
  search_post_lede (render_post d (md_to_html text)) = None.
Proof.
  apply search_post_lede_none. unfold render_post. cbv zeta.
  pose proof (page_head_inert POST_LEDE_OPEN _ eq_refl post_lede_literals d)
    as Hh.
  rewrite <- !app_assoc in Hh.
  assert (Hb : inert POST_LEDE_OPEN (md_to_html text ++ POST_5)).
  { apply inert_app;
      [|apply (page_tail_inert POST_LEDE_OPEN post_lede_literals)].
    unfold md_to_html. apply inert_join.
    - apply (newline_inert POST_LEDE_OPEN post_lede_literals).
    - apply Forall_map. apply Forall_forall. intros b _.
      apply render_block_inert. }
  pose proof (inert_app _ _ _ Hh Hb) as H.
  rewrite <- !app_assoc in H. rewrite <- !app_assoc. exact H.
Qed.

(** ** Text without bold markers *)

Lemma contains_unfold (p s : str) :
  contains p s =
  startswith s p || match s with [] => false | _ :: t => contains p t end.
Proof. destruct s; reflexivity. Qed.

Lemma contains_inert (p w z : str) :
  inert p w -> contains p (w ++ z) = contains p z.
Proof.
  induction w as [|c w IH]; intros H; [reflexivity|].
  simpl app. rewrite contains_unfold.
  change (c :: w ++ z) with ((c :: w) ++ z).
  rewrite (H [] (c :: w) z) by (reflexivity || discriminate).
  simpl. apply IH. now apply (inert_suffix p [c] w).
Qed.

Lemma contains_false_suffix (p a b : str) :
  contains p (a ++ b) = false -> contains p b = false.
Proof.
  induction a as [|c a IH]; intros H; [exact H|].
  simpl app in H. rewrite contains_unfold in H.
  apply orb_false_iff in H as [_ H]. now apply IH.
Qed.

Lemma contains_false_prefix (p a b : str) :
  contains p (a ++ b) = false -> contains p a = false.
Proof.
  induction a as [|c a IH]; intros H.
  - simpl in *. rewrite contains_unfold in H.
    apply orb_false_iff in H as [H _].
    destruct p; [discriminate H|reflexivity].
  - simpl app in H. rewrite contains_unfold in H. rewrite contains_unfold.
    apply orb_false_iff in H as [H1 H2].
    rewrite (IH H2), orb_false_r.
    destruct (startswith (c :: a) p) eqn:E; [|reflexivity].
    change (c :: a ++ b) with ((c :: a) ++ b) in H1.
    now rewrite (startswith_app_l _ _ b E) in H1.
Qed.

(** Text without bold markers, followed by something that is no asterisk,
    cannot start a bold marker. *)
Lemma inert_bold_iff (u : str) :
  inert BOLD u <-> contains BOLD (u ++ [STAR]) = false.
Proof.
  split.
  - intros H. rewrite contains_inert by exact H. reflexivity.
  - induction u as [|c u IH]; intros H; [apply inert_nil|].
    simpl app in H. rewrite contains_unfold in H.
    apply orb_false_iff in H as [H1 H2].
    intros x1 x2 z Hx Hn. destruct x1 as [|c1 x1].
    + simpl in Hx. subst x2. destruct u as [|c2 u].
      * simpl in *. destruct (c =? STAR); [discriminate H1|reflexivity].
      * simpl in *. exact H1.
    + injection Hx as _ Hx. now apply (IH H2 x1 x2 z).
Qed.

Lemma bold_free_sep (a b : str) :
  contains BOLD a = false -> contains BOLD b = false ->
  contains BOLD (a ++ SPACE :: b) = false.
Proof.
  intros Ha Hb. induction a as [|c a IH].
  - simpl app. rewrite contains_unfold, Hb. reflexivity.
  - rewrite contains_unfold in Ha.
    apply orb_false_iff in Ha as [H1 H2].
    simpl app. rewrite contains_unfold, (IH H2), orb_false_r.
    destruct a as [|c2 a]; simpl in *.
    + now rewrite andb_false_r.
    + exact H1.
Qed.

Lemma bold_free_join (ls : list str) :
  Forall (fun l => contains BOLD l = false) ls ->
  contains BOLD (join [SPACE] ls) = false.
Proof.
  induction 1 as [|x xs Hx Hxs IH]; [reflexivity|].
  destruct xs as [|y ys]; [exact Hx|].
  change (join [SPACE] (x :: y :: ys))
    with (x ++ SPACE :: join [SPACE] (y :: ys)).
  now apply bold_free_sep.
Qed.

Lemma bold_free_space_inert (q : str) :
  contains BOLD q = false -> inert BOLD (q ++ [SPACE]).
Proof.
  intros H. apply inert_bold_iff. rewrite <- app_assoc.
  apply bold_free_sep; [exact H|reflexivity].
Qed.

(** Without bold markers nothing is emphasised. *)
Lemma Emph_plain (s z : str) (g : list seg) :
  inert BOLD s -> Emph z g -> Emph (s ++ z) (map Plain s ++ g).
Proof.
  intros H Hz. induction s as [|c s IH]; [exact Hz|].
  simpl. apply Emph_char.
  - apply match_bold_none. unfold match_bold, match_delim.
    change (c :: s ++ z) with ((c :: s) ++ z).
    now rewrite (H [] (c :: s) z) by (reflexivity || discriminate).
  - apply IH. now apply (inert_suffix BOLD [c] s).
Qed.

Lemma flat_map_plain (s : str) : flat_map seg_html (map Plain s) = s.
Proof. induction s as [|c s IH]; simpl; [reflexivity|]. now f_equal. Qed.

Lemma sub_bold_Emph (s : str) (g : list seg) :
  Emph s g -> sub_bold s = flat_map seg_html g.
Proof.
  intros H. rewrite sub_bold_segs. f_equal.
  eapply Emph_unique; eauto. apply bold_segs_Emph.
Qed.

Lemma sub_bold_plain (s : str) : contains BOLD s = false -> sub_bold s = s.
Proof.
  intros H.
  assert (He : Emph s (map Plain s)).
  { clear -H. induction s as [|c s IH]; [constructor|].
    simpl. rewrite contains_unfold in H.
    apply orb_false_iff in H as [H1 H2].
    apply Emph_char; [|now apply IH].
    apply match_bold_none. unfold match_bold, match_delim. now rewrite H1. }
  rewrite (sub_bold_Emph _ _ He). apply flat_map_plain.
Qed.

(** ** Escaping keeps the bold markers where they are *)

Lemma escape_star_head (s : str) :
  startswith (escape s) [STAR] = startswith s [STAR].
Proof.
  destruct s as [|c s]; [reflexivity|]. rewrite escape_cons.
  destruct (escape_char_cases c) as [[Hs [e [He _]]]|[Hs He]]; rewrite He.
  - simpl. destruct (N.eqb_spec c STAR) as [->|_]; [discriminate Hs|].
    reflexivity.
  - reflexivity.
Qed.

Lemma escape_bold_head (s : str) :
  startswith (escape s) BOLD = startswith s BOLD.
Proof.
  destruct s as [|c s]; [reflexivity|]. rewrite escape_cons.
  destruct (escape_char_cases c)
    as [[Hs [e [He [_ [_ [_ [_ [_ [Hst _]]]]]]]]]|[Hs He]];
    rewrite He.
  - simpl. destruct (N.eqb_spec c STAR) as [->|_]; [discriminate Hs|].
    reflexivity.
  - change ([c] ++ escape s) with (c :: escape s).
    change (startswith (c :: escape s) BOLD)
      with ((c =? STAR) && startswith (escape s) [STAR]).
    rewrite escape_star_head. reflexivity.
Qed.

Lemma escape_skip_bold (s : str) :
  startswith s BOLD = true ->
  skipn (length BOLD) (escape s) = escape (skipn (length BOLD) s).
Proof.
  intros H. apply startswith_skipn in H. rewrite H at 1.
  rewrite escape_app. reflexivity.
Qed.

Lemma lazy_until_escape (s : str) :
  lazy_until BOLD (escape s) =
  match lazy_until BOLD s with
  | Some (b, r) => Some (escape b, escape r)
  | None => None
  end.
Proof.
  induction s as [|c t IH]; [reflexivity|].
  rewrite (lazy_until_unfold BOLD (escape (c :: t))).
  rewrite (lazy_until_unfold BOLD (c :: t)).
  rewrite escape_bold_head.
  destruct (startswith (c :: t) BOLD) eqn:E.
  - now rewrite escape_skip_bold.
  - rewrite escape_cons.
    destruct (escape_char_cases c)
      as [[Hs [e [He [_ [_ [_ [_ [Hnl [Hst _]]]]]]]]]|[Hs He]];
      rewrite He.
    + assert (Hc : (c =? NL) = false).
      { destruct (N.eqb_spec c NL) as [->|]; [discriminate Hs|reflexivity]. }
      rewrite Hc.
      change ((AMP :: e) ++ escape t) with (AMP :: e ++ escape t).
      change (AMP =? NL) with false. cbv iota.
      rewrite (lazy_until_skip BOLD STAR [STAR] e (escape t) eq_refl Hst Hnl).
      rewrite IH.
      destruct (lazy_until BOLD t) as [[b r]|]; [|reflexivity].
      rewrite escape_cons, He. reflexivity.
    + change ([c] ++ escape t) with (c :: escape t). cbv iota.
      destruct (c =? NL); [reflexivity|].
      rewrite IH.
      destruct (lazy_until BOLD t) as [[b r]|]; [|reflexivity].
      rewrite escape_cons, He. reflexivity.
Qed.

Lemma group_lazy_escape (s : str) :
  group_lazy BOLD (escape s) =
  match group_lazy BOLD s with
  | Some (b, r) => Some (escape b, escape r)
  | None => None
  end.
Proof.
  destruct s as [|c t]; [reflexivity|].
  rewrite escape_cons. unfold group_lazy at 2.
  destruct (escape_char_cases c)
    as [[Hs [e [He [_ [_ [_ [_ [Hnl [Hst _]]]]]]]]]|[Hs He]];
    rewrite He.
  - assert (Hc : (c =? NL) = false).
    { destruct (N.eqb_spec c NL) as [->|]; [discriminate Hs|reflexivity]. }
    rewrite Hc.
    change ((AMP :: e) ++ escape t) with (AMP :: e ++ escape t).
    unfold group_lazy.
    change (AMP =? NL) with false. cbv iota.
    rewrite (lazy_until_skip BOLD STAR [STAR] e (escape t) eq_refl Hst Hnl).
    rewrite lazy_until_escape.
    destruct (lazy_until BOLD t) as [[b r]|]; [|reflexivity].
    rewrite escape_cons, He. reflexivity.
  - change ([c] ++ escape t) with (c :: escape t).
    unfold group_lazy. cbv iota. destruct (c =? NL); [reflexivity|].
    rewrite lazy_until_escape.
    destruct (lazy_until BOLD t) as [[b r]|]; [|reflexivity].
    rewrite escape_cons, He. reflexivity.
Qed.

(** The bold spans of escaped text are the escaped bold spans. *)
Lemma match_bold_escape (s : str) :
  match_bold (escape s) =
  match match_bold s with
  | Some (b, r) => Some (escape b, escape r)
  | None => None
  end.
Proof.
  unfold match_bold, match_delim. rewrite escape_bold_head.
  destruct (startswith s BOLD) eqn:E; [|reflexivity].
  rewrite escape_skip_bold by exact E. apply group_lazy_escape.
Qed.

Lemma contains_escape (s : str) :
  contains BOLD (escape s) = contains BOLD s.
Proof.
  induction s as [|c s IH]; [reflexivity|].
  rewrite (contains_unfold BOLD (c :: s)).
  destruct (escape_char_cases c)
    as [[Hs [e [He [_ [_ [_ [_ [_ [Hst _]]]]]]]]]|[Hs He]].
  - rewrite escape_cons, He.
    assert (Hi : inert BOLD (AMP :: e)).
    { apply (inert_nohead STAR). intros [H|H]; [discriminate H|tauto]. }
    rewrite (contains_inert BOLD (AMP :: e) (escape s) Hi), IH.
    simpl. destruct (N.eqb_spec c STAR) as [->|_]; [discriminate Hs|].
    reflexivity.
  - rewrite contains_unfold, escape_bold_head.
    rewrite escape_cons, He.
    change ([c] ++ escape s) with (c :: escape s). cbv iota.
    now rewrite IH.
Qed.

Lemma inert_bold_escape (u : str) : inert BOLD u -> inert BOLD (escape u).
Proof.
  intros H. apply inert_bold_iff.
  change [STAR] with (escape [STAR]). rewrite <- escape_app.
  rewrite contains_escape. now apply inert_bold_iff.
Qed.

(** ** A bold span does not depend on what follows it *)

Lemma lazy_until_trunc (close b r : str) :
  lazy_until close (b ++ close ++ r) = Some (b, r) ->
  lazy_until close (b ++ close) = Some (b, []).
Proof.
  induction b as [|c b IH]; intros H.
  - simpl. rewrite <- (app_nil_r close) at 2. apply lazy_until_here.
  - simpl app in *. rewrite lazy_until_unfold in H. rewrite lazy_until_unfold.
    assert (El : startswith (c :: b ++ close) close
                 = startswith (c :: b ++ close ++ r) close).
    { change (c :: b ++ close ++ r) with ((c :: b) ++ close ++ r).
      rewrite app_assoc. symmetry. apply startswith_app_long.
      simpl. rewrite length_app. lia. }
    rewrite El.
    destruct (startswith (c :: b ++ close ++ r) close); [discriminate H|].
    destruct (c =? NL); [discriminate H|].
    destruct (lazy_until close (b ++ close ++ r)) as [[b0 r0]|] eqn:E;
      [|discriminate H].
    injection H as -> ->. now rewrite (IH eq_refl).
Qed.

Lemma match_bold_any_tail (b r v : str) :
  match_bold (BOLD ++ b ++ BOLD ++ r) = Some (b, r) ->
  match_bold (BOLD ++ b ++ BOLD ++ v) = Some (b, v).
Proof.
  unfold match_bold, match_delim. rewrite !startswith_app, !skipn_app_exact.
  unfold group_lazy. destruct b as [|c b].
  { intros H. exfalso. change ([] ++ BOLD ++ r) with (STAR :: STAR :: r) in H.
    cbv iota in H. change (STAR =? NL) with false in H. cbv iota in H.
    destruct (lazy_until BOLD (STAR :: r)) as [[b0 r0]|]; discriminate H. }
  change ((c :: b) ++ BOLD ++ r) with (c :: b ++ BOLD ++ r).
  change ((c :: b) ++ BOLD ++ v) with (c :: b ++ BOLD ++ v).
  cbv iota. destruct (c =? NL); [discriminate|].
  destruct (lazy_until BOLD (b ++ BOLD ++ r)) as [[b0 r0]|] eqn:E;
    [|discriminate].
  intros H. injection H as -> ->.
  apply lazy_until_trunc in E.
  apply (lazy_until_app _ _ _ _ v) in E.
  rewrite <- app_assoc in E. rewrite E. reflexivity.
Qed.

(** The first strong span of a rendered paragraph whose text starts
    without bold markers up to a bold span. *)
Lemma inline_format_first_span (u b r v : str) :
  inert BOLD u -> match_bold (BOLD ++ b ++ BOLD ++ r) = Some (b, r) ->
  inline_format (u ++ BOLD ++ b ++ BOLD ++ v)
  = escape u ++ STRONG_OPEN ++ escape b ++ STRONG_CLOSE
    ++ sub_bold (escape v).
Proof.
  intros Hu Hb. unfold inline_format.
  assert (Hm : match_bold (escape (BOLD ++ b ++ BOLD ++ v))
               = Some (escape b, escape v)).
  { rewrite match_bold_escape, (match_bold_any_tail b r v Hb). reflexivity. }
  rewrite escape_app.
  assert (He : Emph (escape u ++ escape (BOLD ++ b ++ BOLD ++ v))
                 (map Plain (escape u)
                  ++ Bold (escape b) :: bold_segs (escape v))).
  { apply Emph_plain; [now apply inert_bold_escape|].
    apply Emph_span with (r := escape v).
    - now apply match_bold_span.
    - apply bold_segs_Emph. }
  rewrite (sub_bold_Emph _ _ He), flat_map_app, flat_map_plain.
  simpl flat_map. rewrite <- sub_bold_segs, <- !app_assoc. reflexivity.
Qed.

(** ** Stripping a line around a bold span *)

Lemma dropwhile_app_stop (f : char -> bool) (a t : str) (c : char) :
  f c = false -> dropwhile f (a ++ c :: t) = dropwhile f a ++ c :: t.
Proof.
  intros Hc. induction a as [|x a IH]; simpl.
  - now rewrite Hc.
  - destruct (f x); [exact IH|reflexivity].
Qed.

Lemma dropwhile_suffix (f : char -> bool) (s : str) :
  exists w, s = w ++ dropwhile f s.
Proof.
  induction s as [|c s [w IH]]; [now exists []|].
  simpl. destruct (f c).
  - exists (c :: w). simpl. now f_equal.
  - now exists [].
Qed.

Lemma rstrip_app_stop (y r : str) (c : char) :
  is_space c = false -> rstrip (y ++ c :: r) = y ++ c :: rstrip r.
Proof.
  intros Hc. unfold rstrip.
  rewrite rev_app_distr. simpl rev. rewrite <- app_assoc. simpl app.
  rewrite dropwhile_app_stop by exact Hc.
  rewrite rev_app_distr. simpl rev. rewrite rev_involutive, <- app_assoc.
  reflexivity.
Qed.

Lemma strip_span (a b r : str) :
  strip (a ++ BOLD ++ b ++ BOLD ++ r)
  = lstrip a ++ BOLD ++ b ++ BOLD ++ rstrip r.
Proof.
  unfold strip, lstrip.
  change (a ++ BOLD ++ b ++ BOLD ++ r)
    with (a ++ STAR :: (STAR :: b ++ BOLD ++ r)).
  rewrite dropwhile_app_stop by reflexivity.
  replace (dropwhile is_space a ++ STAR :: STAR :: b ++ BOLD ++ r)
    with ((dropwhile is_space a ++ BOLD ++ b ++ [STAR]) ++ STAR :: r)
    by (rewrite <- !app_assoc; reflexivity).
  rewrite rstrip_app_stop by reflexivity.
  rewrite <- !app_assoc. reflexivity.
Qed.

Lemma strip_substring (l : str) : exists w1 w2, l = w1 ++ strip l ++ w2.
Proof.
  unfold strip, lstrip, rstrip.
  destruct (dropwhile_suffix is_space l) as [w1 H1].
  destruct (dropwhile_suffix is_space (rev (dropwhile is_space l)))
    as [w2 H2].
  exists w1, (rev w2).
  rewrite <- rev_app_distr, <- H2, rev_involutive. exact H1.
Qed.

Lemma strip_bold_free (l : str) :
  contains BOLD l = false -> contains BOLD (strip l) = false.
Proof.
  intros H. destruct (strip_substring l) as [w1 [w2 Hl]].
  rewrite Hl in H. apply contains_false_suffix in H.
  now apply contains_false_prefix in H.
Qed.

Lemma split_lines_nonl (s : str) :
  Forall (fun l => ~ In NL l) (split_lines s).
Proof.
  induction s as [|c s IH]; simpl.
  - constructor; [intros []|constructor].
  - destruct (N.eqb_spec c NL) as [->|Hc].
    + constructor; [intros []|exact IH].
    + destruct (split_lines s) as [|l ls]; inversion IH; subst.
      * constructor; [|constructor]. intros [H|[]]. now apply Hc.
      * constructor; [|assumption]. intros [H|H]; [now apply Hc|auto].
Qed.

(** The first bold span of a line without a newline: no marker starts
    before it. *)
Lemma first_span_line (l b : str) :
  re_search BOLD BOLD l = Some b -> ~ In NL l ->
  exists a r,
    l = a ++ BOLD ++ b ++ BOLD ++ r /\ inert BOLD a
    /\ match_bold (BOLD ++ b ++ BOLD ++ r) = Some (b, r).
Proof.
  intros H Hnl. apply re_search_first_span in H as [a [x [r [Hl [Hsp Hno]]]]].
  pose proof Hsp as [Hx [Hb _]].
  apply match_bold_span in Hsp. subst x.
  exists a, r. repeat split; auto.
  intros x1 x2 z Ha Hn.
  destruct (startswith (x2 ++ z) BOLD) eqn:E; [|reflexivity].
  exfalso. apply Hnl. rewrite Hl, Ha.
  pose proof (Hno x1 x2 Ha Hn) as Hspan.
  destruct x2 as [|c1 [|c2 x3]]; [contradiction| |].
  - simpl in E. apply andb_true_iff in E as [E _].
    apply N.eqb_eq in E. subst c1.
    assert (Hin : In NL (STAR :: b)).
    { apply (Hspan (STAR :: b) r); [reflexivity|discriminate]. }
    destruct Hin as [Hin|Hin]; [discriminate Hin|].
    rewrite !in_app_iff. tauto.
  - simpl in E. apply andb_true_iff in E as [E1 E2].
    apply andb_true_iff in E2 as [E2 _].
    apply N.eqb_eq in E1, E2. subst c1 c2.
    assert (Hin : In NL (x3 ++ BOLD ++ b)).
    { apply (Hspan (x3 ++ BOLD ++ b) r).
      - simpl. rewrite <- !app_assoc. reflexivity.
      - destruct x3; discriminate. }
    rewrite !in_app_iff in Hin. rewrite !in_app_iff.
    destruct Hin as [Hin|[Hin|Hin]]; [|tauto|tauto].
    left. right. right. right. exact Hin.
Qed.

(** ** The paragraph of the first bold span *)

Lemma join_cons_flat (sep x : str) (xs : list str) :
  join sep (x :: xs) = x ++ flat_map (fun y => sep ++ y) xs.
Proof.
  revert x. induction xs as [|y ys IH]; intros x.
  - simpl. now rewrite app_nil_r.
  - change (join sep (x :: y :: ys)) with (x ++ sep ++ join sep (y :: ys)).
    rewrite IH. simpl. now rewrite <- app_assoc.
Qed.

Lemma join_app_cons (sep y : str) (xs zs : list str) :
  join sep (xs ++ y :: zs)
  = flat_map (fun x => x ++ sep) xs ++ y ++ flat_map (fun z => sep ++ z) zs.
Proof.
  induction xs as [|x xs IH]; [apply join_cons_flat|].
  simpl app at 1.
  assert (E : join sep (x :: xs ++ y :: zs)
              = x ++ sep ++ join sep (xs ++ y :: zs)).
  { destruct xs; reflexivity. }
  rewrite E, IH. simpl. now rewrite <- !app_assoc.
Qed.

Lemma para_break_false (line : str) :
  para_break line = false ->
  line <> [] /\ is_rule line = false /\ is_citation line = false
  /\ is_heading line = false.
Proof.
  rewrite para_break_cases. intros H.
  apply orb_false_iff in H as [H H4]. apply orb_false_iff in H as [H H3].
  apply orb_false_iff in H as [H1 H2].
  repeat split; auto. intros ->. discriminate H1.
Qed.

Lemma Forall_skipn (P : str -> Prop) (n : nat) (l : list str) :
  Forall P l -> Forall P (skipn n l).
Proof.
  intros H. rewrite <- (firstn_skipn n l) in H.
  now apply Forall_app in H as [_ H].
Qed.

Lemma strip_all_bold_free (L : list str) :
  Forall bold_free L -> Forall bold_free (map strip L).
Proof.
  intros H. apply Forall_map.
  eapply Forall_impl; [|exact H]. intros y. apply strip_bold_free.
Qed.

(** The blocks up to the paragraph of a line that follows lines without
    bold markers. *)
Lemma walk_paragraph (n : nat) :
  forall L1 l L2,
    (length L1 <= n)%nat -> Forall bold_free L1 ->
    para_break (strip l) = false ->
    exists B1 pre post B2,
      walk (L1 ++ l :: L2) = B1 ++ Paragraph (pre ++ strip l ++ post) :: B2
      /\ Forall clean_block B1 /\ inert BOLD pre.
Proof.
  induction n as [|n IH]; intros L1 l L2 Hn HL Hl.
  - destruct L1; [|simpl in Hn; lia]. simpl app.
    destruct (para_break_false _ Hl) as [Hne [Hr [Hc Hh]]].
    rewrite walk_cons. cbv zeta. rewrite Hr, Hc, Hh.
    destruct (collect_para L2) as [p r].
    exists [], [], (flat_map (fun y => [SPACE] ++ y) p), (walk r).
    split; [|split; [constructor|apply inert_nil]].
    rewrite join_cons_flat. destruct (strip l); [contradiction|reflexivity].
  - destruct L1 as [|x L1].
    { apply (IH [] l L2); [simpl; lia|constructor|exact Hl]. }
    simpl in Hn. inversion HL as [|? ? Hx HL1]; subst.
    assert (Hrec : exists B1 pre post B2,
               walk (L1 ++ l :: L2)
               = B1 ++ Paragraph (pre ++ strip l ++ post) :: B2
               /\ Forall clean_block B1 /\ inert BOLD pre)
      by (apply IH; auto; lia).
    simpl app. rewrite walk_cons. cbv zeta.
    destruct (strip x) as [|c line] eqn:Ex; [exact Hrec|].
    destruct (is_rule (c :: line)).
    { destruct Hrec as [B1 [pre [post [B2 [Hw [Hc Hp]]]]]].
      exists (Rule :: B1), pre, post, B2. rewrite Hw.
      split; [reflexivity|].
      split; [constructor; [exact I|exact Hc]|exact Hp]. }
    destruct (is_citation (c :: line)).
    { destruct Hrec as [B1 [pre [post [B2 [Hw [Hc Hp]]]]]].
      exists (Citation (source_text (c :: line)) :: B1), pre, post, B2.
      rewrite Hw. split; [reflexivity|].
      split; [constructor; [exact I|exact Hc]|exact Hp]. }
    destruct (is_heading (c :: line)).
    { destruct Hrec as [B1 [pre [post [B2 [Hw [Hc Hp]]]]]].
      exists (Heading (c :: line) :: B1), pre, post, B2. rewrite Hw.
      split; [reflexivity|].
      split; [constructor; [exact I|exact Hc]|exact Hp]. }
    clear Hrec.
    destruct (collect_para (L1 ++ l :: L2)) as [p r] eqn:Ec.
    destruct (collect_para_spec _ _ _ Ec) as [t1 [Et [Ep [Hf Hr]]]].
    assert (Hsx : bold_free (c :: line))
      by (rewrite <- Ex; now apply strip_bold_free).
    apply app_eq_app in Et as [e [[E1 E2]|[E1 E2]]].
    + (* the paragraph of [x] ends inside [L1] *)
      subst L1 r. apply Forall_app in HL1 as [Ht1 He].
      destruct (IH e l L2) as [B1 [pre [post [B2 [Hw [Hc Hp]]]]]]; auto.
      { rewrite length_app in Hn. lia. }
      exists (Paragraph (join [SPACE] ((c :: line) :: p)) :: B1),
        pre, post, B2.
      rewrite Hw. split; [reflexivity|]. split; [|exact Hp].
      constructor; [|exact Hc].
      change (contains BOLD (join [SPACE] ((c :: line) :: p)) = false).
      apply bold_free_join. constructor; [exact Hsx|].
      rewrite Ep. now apply strip_all_bold_free.
    + (* the paragraph of [x] runs through [l] *)
      destruct e as [|l' e].
      * simpl in E2. subst r. rewrite Hl in Hr. discriminate Hr.
      * injection E2 as <- ->.
        exists [], (join [SPACE] ((c :: line) :: map strip L1) ++ [SPACE]),
          (flat_map (fun y => [SPACE] ++ y) (map strip e)), (walk r).
        split; [|split; [constructor|]].
        -- rewrite app_nil_l. f_equal. f_equal. rewrite Ep, E1.
           rewrite map_app, !join_cons_flat, flat_map_app.
           change (map strip (l :: e)) with (strip l :: map strip e).
           change (flat_map (fun y => [SPACE] ++ y) (strip l :: map strip e))
             with (([SPACE] ++ strip l)
                   ++ flat_map (fun y => [SPACE] ++ y) (map strip e)).
           rewrite <- !app_assoc. reflexivity.
        -- apply bold_free_space_inert. apply bold_free_join.
           constructor; [exact Hsx|now apply strip_all_bold_free].
Qed.

Lemma slice_around (L1 L2 : list str) (l : str) (i e : nat) :
  (i <= length L1)%nat -> (length L1 < e)%nat ->
  slice i e (L1 ++ l :: L2)
  = skipn i L1 ++ l :: firstn (e - S (length L1)) L2.
Proof.
  intros Hi He. unfold slice.
  rewrite firstn_app, (firstn_all2 (n := e) L1) by lia.
  replace (e - length L1)%nat with (S (e - S (length L1))) by lia.
  simpl firstn. rewrite skipn_app.
  replace (i - length L1)%nat with 0%nat by lia. reflexivity.
Qed.

(** ** Recovering the lede of a rendered post *)

Lemma render_post_split (d : date) (body_html : str) :
  render_post d body_html = page_head d ++ body_html ++ POST_5.
Proof.
  unfold render_post, page_head. cbv zeta.
  rewrite <- !app_assoc. reflexivity.
Qed.

Lemma render_paragraph (text : str) :
  render_block (Paragraph text)
  = lit "<p>" ++ inline_format text ++ lit "</p>".
Proof. reflexivity. Qed.

Lemma bold_free_no_span (x : str) : bold_free x -> no_span x.
Proof.
  intros H. apply re_search_no_span.
  induction x as [|c x IH]; [reflexivity|].
  unfold bold_free in H. rewrite contains_unfold in H.
  apply orb_false_iff in H as [H1 H2].
  rewrite re_search_unfold. unfold match_delim. rewrite H1.
  now apply IH.
Qed.

(** Escaped text without a bold span is left as it is. *)
Lemma sub_bold_escape_spanless (t : str) :
  re_search BOLD BOLD t = None -> sub_bold (escape t) = escape t.
Proof.
  intros H.
  assert (He : Emph (escape t) (map Plain (escape t))).
  { induction t as [|c t IH]; [constructor|].
    rewrite re_search_unfold in H.
    change (match_delim BOLD BOLD (c :: t)) with (match_bold (c :: t)) in H.
    destruct (match_bold (c :: t)) as [[b0 r0]|] eqn:Em; [discriminate H|].
    assert (Hm : match_bold (escape (c :: t)) = None)
      by (now rewrite match_bold_escape, Em).
    rewrite escape_cons in *.
    destruct (escape_char_cases c)
      as [[_ [e [Hc [_ [_ [_ [_ [_ [Hst _]]]]]]]]]|[_ Hc]];
      rewrite Hc in *.
    - change ((AMP :: e) ++ escape t) with (AMP :: e ++ escape t) in *.
      rewrite map_cons. apply Emph_char; [now apply match_bold_none|].
      rewrite map_app. apply Emph_plain; [|now apply IH].
      now apply (inert_nohead STAR).
    - change ([c] ++ escape t) with (c :: escape t) in *.
      rewrite map_cons. apply Emph_char; [now apply match_bold_none|].
      now apply IH. }
  rewrite (sub_bold_Emph _ _ He). apply flat_map_plain.
Qed.

Lemma spanless_block_inert (b : Block) :
  spanless_block b -> inert STRONG_OPEN (render_block b).
Proof.
  destruct b as [|text|text|text]; intros H;
    try (apply (plain_block_inert STRONG_OPEN _ eq_refl strong_literals);
         exact I).
  rewrite render_paragraph.
  apply inert_app;
    [apply (paragraph_open_inert STRONG_OPEN strong_literals)|].
  apply inert_app;
    [|apply (paragraph_close_inert STRONG_OPEN strong_literals)].
  unfold inline_format. rewrite (sub_bold_escape_spanless text H).
  apply (inert_nohead LT). apply escape_nolt.
Qed.

Lemma clean_block_spanless (b : Block) : clean_block b -> spanless_block b.
Proof.
  destruct b as [|text|text|text]; intros H; try exact I.
  apply re_search_no_span. now apply bold_free_no_span.
Qed.

Lemma escape_nonempty (b : str) : b <> [] -> escape b <> [].
Proof.
  destruct b as [|c b]; [contradiction|]. intros _.
  rewrite escape_cons.
  destruct (escape_char_cases c) as [[_ [e [He _]]]|[_ He]];
    rewrite He; discriminate.
Qed.

Lemma escape_nonl (b : str) : ~ In NL b -> ~ In NL (escape b).
Proof.
  intros Hn H. rewrite escape_flat_map in H.
  apply in_flat_map in H as [x [Hx Hin]].
  destruct (escape_char_cases x)
    as [[_ [e [He [_ [_ [_ [_ [Hnl _]]]]]]]]|[_ He]];
    rewrite He in Hin.
  - destruct Hin as [Hin|Hin]; [discriminate Hin|contradiction].
  - destruct Hin as [Hin|[]]. subst x. contradiction.
Qed.

(** The lede recovered from a rendered post whose first strong span is
    known: the blocks above its paragraph render without a strong span. *)
Lemma recover_from_paragraph (d : date) (text : str)
      (B1 B2 : list Block) (t u b T : str) :
  md_blocks text = B1 ++ Paragraph t :: B2 ->
  Forall spanless_block B1 ->
  inline_format t
  = escape u ++ STRONG_OPEN ++ escape b ++ STRONG_CLOSE ++ T ->
  b <> [] -> ~ In NL b ->
  recover_lede (render_post d (md_to_html text)) = rstrip_dots (escape b).
Proof.
  intros Hblocks Hc Hpara Hbne Hbnl.
  unfold recover_lede. rewrite render_post_no_post_lede.
  unfold md_to_html. rewrite Hblocks, map_app, map_cons.
  rewrite join_app_cons, render_post_split, render_paragraph, Hpara.
  set (F1 := flat_map (fun x => x ++ [NL]) (map render_block B1)).
  set (F2 := flat_map (fun z => [NL] ++ z) (map render_block B2)).
  replace (page_head d
           ++ (F1 ++ (lit "<p>"
                      ++ (escape u ++ STRONG_OPEN ++ escape b
                          ++ STRONG_CLOSE ++ T) ++ lit "</p>") ++ F2)
           ++ POST_5)
    with ((page_head d ++ F1 ++ lit "<p>" ++ escape u)
          ++ STRONG_OPEN ++ escape b ++ STRONG_CLOSE
          ++ (T ++ lit "</p>" ++ F2 ++ POST_5))
    by (rewrite <- !app_assoc; reflexivity).
  rewrite re_search_strong; [reflexivity| | | |].
  - apply inert_app.
    { apply (page_head_inert STRONG_OPEN _ eq_refl strong_literals). }
    apply inert_app.
    { unfold F1. rewrite flat_map_concat_map. apply inert_concat.
      apply Forall_map. apply Forall_map. apply Forall_forall.
      intros x Hx. apply inert_app.
      - apply spanless_block_inert. rewrite Forall_forall in Hc.
        now apply Hc.
      - apply (newline_inert STRONG_OPEN strong_literals). }
    apply inert_app.
    { apply (paragraph_open_inert STRONG_OPEN strong_literals). }
    apply (inert_nohead LT). apply escape_nolt.
  - now apply escape_nonempty.
  - apply escape_nolt.
  - now apply escape_nonl.
Qed.

(** The lede recovered from a rendered post is the escaped first bold span
    of the briefing without its final full stops, provided the span stands
    in a paragraph line inside the parse boundary and no line above it holds
    a bold marker. *)
Lemma recover_rendered (d : date) (text : str)
      (L1 L2 : list str) (l b : str) :
  split_lines (strip text) = L1 ++ l :: L2 ->
  Forall bold_free L1 ->
  re_search BOLD BOLD l = Some b ->
  para_break (strip l) = false ->
  (title_skip (L1 ++ l :: L2) <= length L1)%nat ->
  (length L1 < end_boundary (L1 ++ l :: L2))%nat ->
  recover_lede (render_post d (md_to_html text)) = rstrip_dots (escape b).
Proof.
  intros Hs HL Hb Hl Hi He.
  assert (Hnl : ~ In NL l).
  { pose proof (split_lines_nonl (strip text)) as H. rewrite Hs in H.
    apply Forall_app in H as [_ H]. now inversion H. }
  destruct (first_span_line l b Hb Hnl) as [a [r [El [Ha Hm]]]].
  pose proof Hm as Hspan. apply match_bold_span in Hspan.
  destruct Hspan as [_ [Hbne [Hbnl _]]].
  assert (Hla : inert BOLD (lstrip a)).
  { destruct (dropwhile_suffix is_space a) as [w Hw].
    unfold lstrip. rewrite Hw in Ha. now apply inert_suffix in Ha. }
  destruct (walk_paragraph
              (length (skipn (title_skip (L1 ++ l :: L2)) L1))
              (skipn (title_skip (L1 ++ l :: L2)) L1) l
              (firstn (end_boundary (L1 ++ l :: L2) - S (length L1)) L2))
    as [B1 [pre [post [B2 [Hw [Hc Hp]]]]]];
    [lia|now apply Forall_skipn|exact Hl|].
  apply (recover_from_paragraph d text B1 B2 (pre ++ strip l ++ post)
           (pre ++ lstrip a) b (sub_bold (escape (rstrip r ++ post))));
    auto.
  - unfold md_blocks, parse_lines. rewrite Hs, slice_around by lia.
    exact Hw.
  - eapply Forall_impl; [|exact Hc]. apply clean_block_spanless.
  - rewrite El, strip_span.
    replace (pre ++ (lstrip a ++ BOLD ++ b ++ BOLD ++ rstrip r) ++ post)
      with ((pre ++ lstrip a) ++ BOLD ++ b ++ BOLD ++ rstrip r ++ post)
      by (rewrite <- !app_assoc; reflexivity).
    apply (inline_format_first_span _ b r); [|exact Hm].
    now apply inert_app.
Qed.

(** ** The recovered lede and the lede of the extractor *)

Lemma escape_plain (b : str) : existsb is_special b = false -> escape b = b.
Proof.
  induction b as [|c b IH]; intros H; [reflexivity|].
  simpl in H. apply orb_false_iff in H as [Hc Hb].
  rewrite escape_cons, (escape_char_plain c Hc), (IH Hb). reflexivity.
Qed.

(** C9, as amended.  When the first bold span of a briefing stands in a
    paragraph line inside the parse boundary (not in the dropped title
    line), no line above that line holds a bold marker, the span holds none
    of the four escaped characters, does not end with two full stops, and is
    at most 120 characters long after one final full stop is removed, then
    the lede recovered from the rendered post is the lede the extractor
    returns on the briefing. *)
Theorem C9_lede_round_trip (d : date) (text : str)
        (L1 L2 : list str) (l b : str) :
  split_lines (strip text) = L1 ++ l :: L2 ->
  Forall bold_free L1 ->
  re_search BOLD BOLD l = Some b ->
  para_break (strip l) = false ->
  (title_skip (L1 ++ l :: L2) <= length L1)%nat ->
  (length L1 < end_boundary (L1 ++ l :: L2))%nat ->
  existsb is_special b = false ->
  endswith b [DOT; DOT] = false ->
  (length (if endswith b [DOT] then removelast b else b) <= 120)%nat ->
  recover_lede (render_post d (md_to_html text)) = extract_lede text.
Proof.
  intros Hs HL Hb Hl Hi He Hsp Hdd Hlen.
  rewrite (recover_rendered d text L1 L2 l b Hs HL Hb Hl Hi He).
  rewrite (escape_plain b Hsp), (rstrip_dots_one b Hdd).
  unfold extract_lede. rewrite Hs.
  rewrite (extract_lede_lines_first L1 L2 l b).
  - unfold trim_headline.
    replace (120 <? length (if endswith b [DOT] then removelast b else b))%nat
      with false by (symmetry; apply Nat.ltb_ge; exact Hlen).
    reflexivity.
  - eapply Forall_impl; [|exact HL]. apply bold_free_no_span.
  - now apply re_search_first_span.
Qed.

(** The round trip at the briefing of the 18th of February. *)
Lemma C9_lede_round_trip_witness :
  recover_lede (render_post (mkdate 2026 2 18) (md_to_html text_0218))
  = extract_lede text_0218.
Proof.
  apply (C9_lede_round_trip (mkdate 2026 2 18) text_0218
           [lit "Tucson Daily Brief"] []
           (lit "**Council votes.** More.") (lit "Council votes."));
    [vm_compute; reflexivity | repeat constructor
    | vm_compute; reflexivity | vm_compute; reflexivity
    | vm_compute; lia | vm_compute; lia
    | vm_compute; reflexivity | vm_compute; reflexivity
    | vm_compute; lia].
Defined.

(** C9 as stated fails twice.  A span that ends with two full stops is
    recovered without both, while the extractor removes one.  And an
    unmatched bold marker in the line above pairs up with the opening marker
    of the first bold span once the lines of the paragraph are joined. *)
Lemma C9_counterexample :
  md_blocks text_two_dots = [Paragraph (lit "**Wow..**")]
  /\ extract_lede text_two_dots = lit "Wow."
  /\ recover_lede (render_post (mkdate 2026 2 18) (md_to_html text_two_dots))
     = lit "Wow"
  /\ md_blocks text_open_marker = [Paragraph (lit "a **b c** d **e**")]
  /\ extract_lede text_open_marker = lit " d "
  /\ recover_lede
       (render_post (mkdate 2026 2 18) (md_to_html text_open_marker))
     = lit "b c".
Proof. repeat split; vm_compute; reflexivity. Qed.

(** ** Escaping twice *)

Lemma escape_char_length (c : char) : (1 <= length (escape_char c))%nat.
Proof.
  destruct (escape_char_cases c) as [[_ [e [He _]]]|[_ He]]; rewrite He;
    simpl; lia.
Qed.

Lemma escape_length_le (x : str) : (length x <= length (escape x))%nat.
Proof.
  induction x as [|c x IH]; [simpl; lia|].
  rewrite escape_cons, length_app. pose proof (escape_char_length c).
  simpl. lia.
Qed.

Lemma escape_length_lt (x : str) :
  existsb is_special x = true -> (length x < length (escape x))%nat.
Proof.
  induction x as [|c x IH]; intros H; [discriminate H|].
  rewrite escape_cons, length_app. simpl in H. simpl length.
  destruct (escape_char_cases c)
    as [[_ [e [He [_ [_ [_ [_ [_ [_ [_ Hent]]]]]]]]]]|[Hs He]];
    rewrite He.
  - pose proof (escape_length_le x).
    destruct Hent as [-> | [-> | [-> | ->]]]; simpl; lia.
  - rewrite Hs in H. simpl in H. apply IH in H. simpl. lia.
Qed.

Lemma escape_keeps_special (s : str) :
  existsb is_special s = true -> existsb is_special (escape s) = true.
Proof.
  induction s as [|c s IH]; intros H; [discriminate H|].
  rewrite escape_cons, existsb_app. simpl in H.
  destruct (escape_char_cases c) as [[_ [e [He _]]]|[Hs He]]; rewrite He.
  - reflexivity.
  - rewrite Hs in H. simpl in H. simpl. rewrite Hs. simpl. now apply IH.
Qed.

Lemma escape_not_idempotent (s : str) :
  existsb is_special s = true -> escape (escape s) <> escape s.
Proof.
  intros H E. apply escape_keeps_special, escape_length_lt in H.
  rewrite E in H. lia.
Qed.

Lemma escape_twice (s : str) :
  escape (escape s) = flat_map escape_twice_char s.
Proof.
  induction s as [|c s IH]; [reflexivity|].
  rewrite escape_cons, escape_app, IH. simpl. f_equal.
  unfold escape_char, escape_twice_char.
  destruct (N.eqb_spec c AMP) as [->|H1]; [reflexivity|].
  destruct (N.eqb_spec c LT) as [->|H2]; [reflexivity|].
  destruct (N.eqb_spec c GT) as [->|H3]; [reflexivity|].
  destruct (N.eqb_spec c QUOT) as [->|H4]; [reflexivity|].
  rewrite escape_one. apply escape_char_plain. apply is_special_false. tauto.
Qed.

Lemma dots_split (b : str) :
  exists s n, b = s ++ repeat DOT n /\ endswith s [DOT] = false.
Proof.
  induction b as [|c b IH] using rev_ind.
  - exists [], 0%nat. split; reflexivity.
  - destruct (N.eqb_spec c DOT) as [->|Hc].
    + destruct IH as [s [n [-> Hs]]]. exists s, (S n). split; [|exact Hs].
      rewrite <- app_assoc. f_equal. symmetry. apply repeat_cons.
    + exists (b ++ [c]), 0%nat. split; [now rewrite app_nil_r|].
      unfold endswith. rewrite rev_app_distr. simpl.
      apply N.eqb_neq in Hc. now rewrite Hc.
Qed.

Lemma escape_dots (n : nat) : escape (repeat DOT n) = repeat DOT n.
Proof.
  induction n as [|n IH]; [reflexivity|].
  simpl repeat. rewrite escape_cons, IH. reflexivity.
Qed.

Lemma endswith_escape (s : str) :
  endswith s [DOT] = false -> endswith (escape s) [DOT] = false.
Proof.
  destruct s as [|c s] using rev_ind; intros H; [reflexivity|].
  clear IHs. unfold endswith in H. rewrite rev_app_distr in H. simpl in H.
  rewrite andb_true_r in H.
  rewrite escape_app, escape_one. unfold endswith. rewrite rev_app_distr.
  destruct (escape_char_cases c)
    as [[_ [e [He [_ [_ [_ [_ [_ [_ [_ Hent]]]]]]]]]]|[Hs He]];
    rewrite He.
  - destruct Hent as [-> | [-> | [-> | ->]]]; reflexivity.
  - simpl. now rewrite H.
Qed.

(** The fallback recovers escaped text: removing the final full stops and
    escaping can be done in either order. *)
Lemma rstrip_dots_escape (b : str) :
  rstrip_dots (escape b) = escape (rstrip_dots b).
Proof.
  destruct (dots_split b) as [s [n [-> Hs]]].
  rewrite escape_app, escape_dots.
  rewrite (rstrip_dots_run s n Hs).
  apply rstrip_dots_run. now apply endswith_escape.
Qed.

Lemma rstrip_dots_special (b : str) :
  existsb is_special b = true -> existsb is_special (rstrip_dots b) = true.
Proof.
  destruct (dots_split b) as [s [n [-> Hs]]].
  rewrite (rstrip_dots_run s n Hs), existsb_app. intros H.
  apply orb_true_iff in H as [H|H]; [exact H|].
  exfalso. induction n as [|n IH]; [discriminate H|]. simpl in H. auto.
Qed.

(** ** The first bold span of a rendered post *)

Lemma strip_nonl (l : str) : ~ In NL l -> ~ In NL (strip l).
Proof.
  intros H Hin. apply H. destruct (strip_substring l) as [w1 [w2 Hl]].
  rewrite Hl, !in_app_iff. tauto.
Qed.

Lemma join_space_nonl (ls : list str) :
  Forall (fun l => ~ In NL l) ls -> ~ In NL (join [SPACE] ls).
Proof.
  induction 1 as [|x xs Hx Hxs IH]; [intros []|].
  destruct xs as [|y ys]; [exact Hx|].
  change (join [SPACE] (x :: y :: ys))
    with (x ++ [SPACE] ++ join [SPACE] (y :: ys)).
  rewrite !in_app_iff. intros [H|[[H|[]]|H]]; [auto|discriminate H|auto].
Qed.

(** The text of a paragraph holds no newline. *)
Lemma walk_para_nonl (n : nat) :
  forall ls t, (length ls <= n)%nat -> Forall (fun l => ~ In NL l) ls ->
               In (Paragraph t) (walk ls) -> ~ In NL t.
Proof.
  induction n as [|n IH]; intros ls t Hn Hls Hin.
  - destruct ls; [destruct Hin|simpl in Hn; lia].
  - destruct ls as [|x rest]; [destruct Hin|]. simpl in Hn.
    inversion Hls as [|? ? Hx Hrest]; subst.
    rewrite walk_cons in Hin. cbv zeta in Hin.
    assert (Hgo : In (Paragraph t) (walk rest) -> ~ In NL t)
      by (apply IH; auto; lia).
    destruct (strip x) as [|c line] eqn:Ex; [auto|].
    destruct (is_rule (c :: line));
      [destruct Hin as [Hin|Hin]; [discriminate Hin|auto]|].
    destruct (is_citation (c :: line));
      [destruct Hin as [Hin|Hin]; [discriminate Hin|auto]|].
    destruct (is_heading (c :: line));
      [destruct Hin as [Hin|Hin]; [discriminate Hin|auto]|].
    destruct (collect_para rest) as [p r] eqn:Ec.
    destruct (collect_para_spec _ _ _ Ec) as [t1 [Et [Ep _]]].
    rewrite Et in Hrest. apply Forall_app in Hrest as [Ht1 Hr].
    destruct Hin as [Hin|Hin].
    + apply (f_equal (fun blk => match blk with
                                 | Paragraph x => x
                                 | _ => []
                                 end)) in Hin.
      cbv beta iota in Hin. rewrite <- Hin. apply join_space_nonl.
      constructor; [rewrite <- Ex; now apply strip_nonl|].
      rewrite Ep. apply Forall_map.
      eapply Forall_impl; [|exact Ht1]. apply strip_nonl.
    + apply (IH r t); auto.
      apply collect_para_length in Ec.
      eapply Nat.le_trans; [exact Ec|]. apply le_S_n. exact Hn.
Qed.

Lemma Forall_firstn (P : str -> Prop) (n : nat) (l : list str) :
  Forall P l -> Forall P (firstn n l).
Proof.
  intros H. rewrite <- (firstn_skipn n l) in H.
  now apply Forall_app in H as [H _].
Qed.

Lemma md_blocks_nonl (text t : str) :
  In (Paragraph t) (md_blocks text) -> ~ In NL t.
Proof.
  unfold md_blocks, parse_lines, slice. intros H.
  eapply walk_para_nonl; [reflexivity| |exact H].
  apply Forall_skipn, Forall_firstn, split_lines_nonl.
Qed.

(** The lede recovered from a rendered post is the escaped first bold span
    of its first paragraph that has one, without the final full stops. *)
Lemma recover_blocks (d : date) (text : str)
      (B1 B2 : list Block) (t b : str) :
  md_blocks text = B1 ++ Paragraph t :: B2 ->
  Forall spanless_block B1 ->
  re_search BOLD BOLD t = Some b ->
  recover_lede (render_post d (md_to_html text)) = escape (rstrip_dots b).
Proof.
  intros Hblocks Hc Hb. rewrite <- rstrip_dots_escape.
  assert (Hnl : ~ In NL t).
  { apply (md_blocks_nonl text). rewrite Hblocks.
    apply in_or_app. right. now left. }
  destruct (first_span_line t b Hb Hnl) as [a [r [El [Ha Hm]]]].
  pose proof Hm as Hspan. apply match_bold_span in Hspan.
  destruct Hspan as [_ [Hbne [Hbnl _]]].
  apply (recover_from_paragraph d text B1 B2 t a b (sub_bold (escape r)));
    auto.
  rewrite El. now apply (inline_format_first_span a b r r).
Qed.

(** Without a bold span in any paragraph the recovered lede is empty. *)
Lemma recover_spanless (d : date) (text : str) :
  Forall spanless_block (md_blocks text) ->
  recover_lede (render_post d (md_to_html text)) = [].
Proof.
  intros H. unfold recover_lede. rewrite render_post_no_post_lede.
  rewrite render_post_split.
  rewrite <- (app_nil_r (page_head d ++ md_to_html text ++ POST_5)).
  rewrite re_search_inert; [reflexivity|].
  apply inert_app.
  { apply (page_head_inert STRONG_OPEN _ eq_refl strong_literals). }
  apply inert_app; [|apply (page_tail_inert STRONG_OPEN strong_literals)].
  unfold md_to_html. apply inert_join.
  - apply (newline_inert STRONG_OPEN strong_literals).
  - apply Forall_map. eapply Forall_impl; [|exact H].
    apply spanless_block_inert.
Qed.

(** ** C10 *)

(** C10.  [escape] is not idempotent: on a string with one of the four
    characters a second application changes the result, turning the
    ampersand of every entity into an entity.  A rendered post holds no
    post-lede tag, so its lede is recovered through the first strong span:
    it is the escaped first bold span of the first paragraph that has one,
    without its final full stops.  The index item escapes the lede of its
    record once more; so the index item of a recovered post shows the four
    characters of its first bold span escaped twice.  In the example the
    post of the 17th shows its ampersand escaped once in the index of its
    own run and twice in the index rebuilt by the run of the 18th. *)
Theorem C10_double_escape :
  (forall s, existsb is_special s = true -> escape (escape s) <> escape s)
  /\ (forall s, escape (escape s) = flat_map escape_twice_char s)
  /\ escape_twice_char AMP = lit "&amp;amp;"
  /\ escape_twice_char LT = lit "&amp;lt;"
  /\ escape_twice_char GT = lit "&amp;gt;"
  /\ escape_twice_char QUOT = lit "&amp;quot;"
  /\ (forall p,
         render_item p
         = join [NL] [
               lit "<li>";
               lit "<span class=" ++ [QUOT] ++ lit "post-date" ++ [QUOT]
                 ++ lit ">" ++ format_date_short (p_date p) ++ lit "</span>";
               lit "<a href=" ++ [QUOT] ++ lit "posts/" ++ p_slug p
                 ++ lit ".html" ++ [QUOT] ++ lit ">"
                 ++ format_date_long (p_date p) ++ lit "</a>";
               POST_LEDE_OPEN ++ lit ">" ++ escape (p_lede p) ++ lit "</p>";
               lit "</li>" ])
  /\ (forall d text B1 t B2 b,
         md_blocks text = B1 ++ Paragraph t :: B2 ->
         Forall spanless_block B1 ->
         re_search BOLD BOLD t = Some b ->
         search_post_lede (render_post d (md_to_html text)) = None
         /\ recover_lede (render_post d (md_to_html text))
            = escape (rstrip_dots b)
         /\ escape (recover_lede (render_post d (md_to_html text)))
            = flat_map escape_twice_char (rstrip_dots b)
         /\ (existsb is_special b = true ->
             escape (recover_lede (render_post d (md_to_html text)))
             <> escape (rstrip_dots b)))
  /\ exists dir1 posts1 index1 dir2 posts2 index2,
      main None stem_0217 text_0217 = Done dir1 posts1 index1
      /\ contains (lit ">Tom &amp; Jerry</p>") index1 = true
      /\ main dir1 stem_0218 text_0218 = Done dir2 posts2 index2
      /\ contains (lit ">Tom &amp;amp; Jerry</p>") index2 = true
      /\ contains (lit ">Tom &amp; Jerry</p>") index2 = false.
Proof.
  split; [apply escape_not_idempotent|].
  split; [apply escape_twice|].
  do 4 (split; [reflexivity|]).
  split.
  { intros p. unfold render_item, POST_LEDE_OPEN.
    rewrite <- !app_assoc. reflexivity. }
  split.
  { intros d text B1 t B2 b Hblocks Hc Hb.
    pose proof (recover_blocks d text B1 B2 t b Hblocks Hc Hb) as Hr.
    split; [apply render_post_no_post_lede|].
    split; [exact Hr|].
    rewrite Hr. split; [apply escape_twice|].
    intros Hsp. apply escape_not_idempotent.
    now apply rstrip_dots_special. }
  do 6 eexists.
  split; [vm_compute; reflexivity|].
  split; [vm_compute; reflexivity|].
  split; [vm_compute; reflexivity|].
  split; vm_compute; reflexivity.
Qed.

(** The statement at the briefing of the 17th of February, whose first bold
    span holds an ampersand. *)
Lemma C10_double_escape_witness :
  escape (recover_lede (render_post (mkdate 2026 2 17) (md_to_html text_0217)))
  = lit "Tom &amp;amp; Jerry"
  /\ escape (escape (lit "Tom & Jerry")) <> escape (lit "Tom & Jerry").
Proof.
  destruct C10_double_escape as [Hne [_ [_ [_ [_ [_ [_ [Hrec _]]]]]]]].
  split.
  - destruct (Hrec (mkdate 2026 2 17) text_0217
                [] (lit "**Tom & Jerry.** More.") [] (lit "Tom & Jerry."))
      as [_ [_ [Htwice _]]];
      [vm_compute; reflexivity | constructor | vm_compute; reflexivity | ].
    rewrite Htwice. vm_compute. reflexivity.
  - apply Hne. vm_compute. reflexivity.
Defined.

(** * Further properties of the code *)

(** ** Dates and slugs *)

Lemma below_enum (P : N -> bool) (n : N) :
  forallb P (map N.of_nat (seq 0 (N.to_nat n))) = true ->
  forall y, y < n -> P y = true.
Proof.
  intros H y Hy. rewrite forallb_forall in H. apply H.
  apply in_map_iff. exists (N.to_nat y). split; [apply N2Nat.id|].
  apply in_seq. lia.
Qed.

Lemma pad4_value (y : N) :
  y < 10000 ->
  1000 * digit_val (digit_char (y / 1000))
  + 100 * digit_val (digit_char (y / 100))
  + 10 * digit_val (digit_char (y / 10)) + digit_val (digit_char y) = y.
Proof.
  intros H. apply N.eqb_eq.
  apply (below_enum
           (fun y => 1000 * digit_val (digit_char (y / 1000))
                     + 100 * digit_val (digit_char (y / 100))
                     + 10 * digit_val (digit_char (y / 10))
                     + digit_val (digit_char y) =? y) 10000);
    [vm_compute; reflexivity|exact H].
Qed.

Lemma pad2_value (n : N) :
  n < 100 -> 10 * digit_val (digit_char (n / 10)) + digit_val (digit_char n) = n.
Proof.
  intros H. apply N.eqb_eq.
  apply (below_enum
           (fun n => 10 * digit_val (digit_char (n / 10))
                     + digit_val (digit_char n) =? n) 100);
    [vm_compute; reflexivity|exact H].
Qed.

Lemma digit_char_is_digit (n : N) : is_digit (digit_char n) = true.
Proof.
  unfold digit_char.
  assert (H : n mod 10 < 10) by (apply N.mod_lt; discriminate).
  revert H. generalize (n mod 10). intros k H.
  apply (below_enum (fun k => is_digit (48 + k)) 10);
    [vm_compute; reflexivity|exact H].
Qed.

Lemma digit_char_not_hyphen (n : N) : (digit_char n =? HYPHEN) = false.
Proof.
  unfold digit_char.
  assert (H : n mod 10 < 10) by (apply N.mod_lt; discriminate).
  revert H. generalize (n mod 10). intros k H.
  apply N.eqb_neq. unfold HYPHEN. lia.
Qed.

(** The month group on two padded digits. *)
Lemma month_pad (m : N) :
  m < 100 ->
  month_two (digit_char (m / 10)) (digit_char m) = (1 <=? m) && (m <=? 12)
  /\ 10 * (digit_char (m / 10) - 48) + (digit_char m - 48) = m.
Proof.
  intros H. split.
  - apply (below_enum
             (fun m => Bool.eqb (month_two (digit_char (m / 10)) (digit_char m))
                         ((1 <=? m) && (m <=? 12))) 100) in H;
      [|vm_compute; reflexivity].
    now apply Bool.eqb_prop in H.
  - apply N.eqb_eq.
    apply (below_enum
             (fun m => 10 * (digit_char (m / 10) - 48) + (digit_char m - 48)
                       =? m) 100); [vm_compute; reflexivity|exact H].
Qed.

(** The day group on two padded digits: it takes both exactly when they
    name a day from 1 to 31. *)
Lemma day_pad (dd : N) :
  dd < 100 ->
  match strptime_day [digit_char (dd / 10); digit_char dd] with
  | Some (v, []) => (1 <=? dd) && (dd <=? 31) = true /\ v = dd
  | _ => (1 <=? dd) && (dd <=? 31) = false
  end.
Proof.
  intros H.
  apply (below_enum
           (fun dd =>
              match strptime_day [digit_char (dd / 10); digit_char dd] with
              | Some (v, []) => (1 <=? dd) && (dd <=? 31) && (v =? dd)
              | _ => negb ((1 <=? dd) && (dd <=? 31))
              end) 100) in H; [|vm_compute; reflexivity].
  destruct (strptime_day [digit_char (dd / 10); digit_char dd])
    as [[v [|x r]]|].
  - apply andb_true_iff in H as [H1 H2]. apply N.eqb_eq in H2. now split.
  - now apply negb_true_iff in H.
  - now apply negb_true_iff in H.
Qed.

Lemma days_in_month_le (y m : N) : days_in_month y m <= 31.
Proof.
  unfold days_in_month.
  destruct (m =? 2); [destruct (is_leap y); lia|].
  destruct ((m =? 4) || (m =? 6) || (m =? 9) || (m =? 11)); lia.
Qed.

(** A slug is ten characters long and has the shape of the date pattern. *)
Lemma post_slug_shape (d : date) :
  post_slug d
  = [digit_char (year d / 1000); digit_char (year d / 100);
     digit_char (year d / 10); digit_char (year d); HYPHEN;
     digit_char (month d / 10); digit_char (month d); HYPHEN;
     digit_char (day d / 10); digit_char (day d)].
Proof. reflexivity. Qed.

Lemma match_date_slug (d : date) (s : str) :
  match_date (post_slug d ++ s) = Some (post_slug d).
Proof.
  rewrite post_slug_shape. simpl app. unfold match_date.
  simpl forallb. rewrite !digit_char_is_digit. reflexivity.
Qed.

Lemma search_date_unfold (s : str) :
  search_date s =
  match match_date s with
  | Some m => Some m
  | None =>
      match s with
      | [] => None
      | _ :: t => search_date t
      end
  end.
Proof. destruct s; reflexivity. Qed.

Lemma match_date_nondigit (c : char) (t : str) :
  is_digit c = false -> match_date (c :: t) = None.
Proof.
  intros H. unfold match_date.
  destruct t as [|y2 [|y3 [|y4 [|h1 [|m1 [|m2 [|h2 [|d1 [|d2 t]]]]]]]]];
    try reflexivity.
  simpl forallb. now rewrite H.
Qed.

(** The search passes over characters that are no digits. *)
Lemma search_date_skip (p s : str) :
  existsb is_digit p = false -> search_date (p ++ s) = search_date s.
Proof.
  induction p as [|c p IH]; intros H; [reflexivity|].
  simpl in H. apply orb_false_iff in H as [Hc Hp].
  simpl app. rewrite search_date_unfold, (match_date_nondigit c _ Hc).
  now apply IH.
Qed.

Lemma search_date_nodigit (p : str) :
  existsb is_digit p = false -> search_date p = None.
Proof.
  intros H. rewrite <- (app_nil_r p), search_date_skip by exact H.
  reflexivity.
Qed.

Lemma search_date_slug (p s : str) (d : date) :
  existsb is_digit p = false ->
  search_date (p ++ post_slug d ++ s) = Some (post_slug d).
Proof.
  intros H. rewrite search_date_skip by exact H.
  rewrite search_date_unfold, match_date_slug. reflexivity.
Qed.

(** Parsing a slug gives the date back when it is a date of the calendar,
    and fails otherwise. *)
Lemma strptime_slug (d : date) :
  fields_fit d = true ->
  strptime (post_slug d) = if valid_date d then Some d else None.
Proof.
  unfold fields_fit. intros H.
  apply andb_true_iff in H as [H Hd]. apply andb_true_iff in H as [Hy Hm].
  apply N.ltb_lt in Hy, Hm, Hd.
  destruct (month_pad _ Hm) as [Em Vm].
  pose proof (day_pad _ Hd) as Ed.
  pose proof (days_in_month_le (year d) (month d)) as Hdim.
  rewrite post_slug_shape. unfold strptime. cbn [forallb].
  rewrite !digit_char_is_digit. change (HYPHEN =? HYPHEN) with true.
  cbn [andb]. unfold strptime_month.
  rewrite Em, Vm, (pad4_value _ Hy).
  destruct ((1 <=? month d) && (month d <=? 12)) eqn:Rm.
  - change (HYPHEN =? HYPHEN) with true. cbv iota.
    destruct (strptime_day [digit_char (day d / 10); digit_char (day d)])
      as [[v [|x r]]|].
    + destruct Ed as [_ ->]. destruct d as [y m dd]. reflexivity.
    + destruct (valid_date d) eqn:Ev; [|reflexivity]. exfalso.
      unfold valid_date in Ev. repeat (apply andb_true_iff in Ev as [Ev ?]).
      apply andb_false_iff in Ed as [Ed|Ed];
        [apply N.leb_gt in Ed|apply N.leb_gt in Ed];
        apply N.leb_le in H0, H; lia.
    + destruct (valid_date d) eqn:Ev; [|reflexivity]. exfalso.
      unfold valid_date in Ev. repeat (apply andb_true_iff in Ev as [Ev ?]).
      apply andb_false_iff in Ed as [Ed|Ed];
        [apply N.leb_gt in Ed|apply N.leb_gt in Ed];
        apply N.leb_le in H0, H; lia.
  - assert (Ev : valid_date d = false).
    { destruct (valid_date d) eqn:Ev; [|reflexivity]. exfalso.
      unfold valid_date in Ev. repeat (apply andb_true_iff in Ev as [Ev ?]).
      rewrite H2, H1 in Rm. discriminate Rm. }
    rewrite Ev.
    destruct (between 49 57 (digit_char (month d / 10))); [|reflexivity].
    now rewrite digit_char_not_hyphen.
Qed.

Lemma valid_date_fits (d : date) : valid_date d = true -> fields_fit d = true.
Proof.
  unfold valid_date, fields_fit. intros H.
  repeat (apply andb_true_iff in H as [H ?]).
  apply N.leb_le in H, H0, H1, H2, H3, H4.
  assert (Hdim : days_in_month (year d) (month d) <= 31).
  { unfold days_in_month.
    destruct (month d =? 2); [destruct (is_leap (year d)); lia|].
    destruct ((month d =? 4) || (month d =? 6) || (month d =? 9)
              || (month d =? 11)); lia. }
  repeat (apply andb_true_iff; split); apply N.ltb_lt; lia.
Qed.

Lemma strptime_slug_valid (d : date) :
  valid_date d = true -> strptime (post_slug d) = Some d.
Proof.
  intros H. rewrite strptime_slug by (now apply valid_date_fits).
  now rewrite H.
Qed.

(** X1.  The slug of a date of the calendar with a four-digit year is found
    by the date pattern and parsed back to the same date; so the post file
    [main] writes for a date is recovered as a record of that date. *)
Theorem X1_slug_round_trip (d : date) (content : str) :
  valid_date d = true -> 1000 <= year d ->
  search_date (post_slug d) = Some (post_slug d)
  /\ strptime (post_slug d) = Some d
  /\ collect_existing_posts (Some [(post_slug d, content)])
     = Ok [mkpost d (post_slug d) (recover_lede content)].
Proof.
  intros Hv _.
  assert (Hs : search_date (post_slug d) = Some (post_slug d)).
  { pose proof (match_date_slug d []) as H. rewrite app_nil_r in H.
    rewrite search_date_unfold, H. reflexivity. }
  split; [exact Hs|]. split; [now apply strptime_slug_valid|].
  cbn [collect_existing_posts collect_files].
  rewrite Hs, (strptime_slug_valid d Hv). reflexivity.
Qed.

Lemma X1_slug_round_trip_witness :
  strptime (post_slug (mkdate 2024 2 29)) = Some (mkdate 2024 2 29).
Proof.
  apply (X1_slug_round_trip (mkdate 2024 2 29) []);
    [vm_compute; reflexivity|vm_compute; discriminate].
Defined.

(** X2.  Distinct dates of the calendar with four-digit years have
    distinct slugs: the identifier of a post determines its date. *)
Theorem X2_post_slug_injective (d1 d2 : date) :
  valid_date d1 = true -> valid_date d2 = true ->
  1000 <= year d1 -> 1000 <= year d2 ->
  d1 <> d2 -> post_slug d1 <> post_slug d2.
Proof.
  intros H1 H2 _ _ Hne E. apply Hne.
  pose proof (strptime_slug_valid d1 H1) as E1.
  rewrite E, (strptime_slug_valid d2 H2) in E1.
  now injection E1.
Qed.

Lemma X2_post_slug_injective_witness :
  post_slug (mkdate 2026 2 18) <> post_slug (mkdate 2026 12 8).
Proof.
  apply X2_post_slug_injective;
    [vm_compute; reflexivity | vm_compute; reflexivity
     | vm_compute; discriminate | vm_compute; discriminate | discriminate].
Defined.

(** X3.  [parse_date_from_filename] exits with status 1 exactly when the
    stem holds no date pattern, as a stem without a digit; behind a prefix
    without digits it returns the date whose slug stands there, whatever
    follows; and a pattern that is no date of the calendar is not caught by
    the exit: [strptime] raises.  [main] ends the same way. *)
Theorem X3_parse_date_from_filename :
  (forall stem,
      parse_date_from_filename stem = ParseExit1 <-> search_date stem = None)
  /\ (forall stem, existsb is_digit stem = false ->
                   parse_date_from_filename stem = ParseExit1)
  /\ (forall p s d,
         existsb is_digit p = false -> valid_date d = true ->
         1000 <= year d ->
         parse_date_from_filename (p ++ post_slug d ++ s) = Parsed d)
  /\ (forall p s d,
         existsb is_digit p = false -> fields_fit d = true ->
         valid_date d = false ->
         parse_date_from_filename (p ++ post_slug d ++ s) = ParseValueError)
  /\ (forall dir stem text,
         (parse_date_from_filename stem = ParseExit1 ->
          main dir stem text = Exit1)
         /\ (parse_date_from_filename stem = ParseValueError ->
             main dir stem text = Raised)).
Proof.
  split.
  { intros stem. unfold parse_date_from_filename.
    destruct (search_date stem) as [m|]; [|tauto].
    destruct (strptime m); split; discriminate. }
  split.
  { intros stem H. unfold parse_date_from_filename.
    now rewrite search_date_nodigit. }
  split.
  { intros p s d Hp Hv _. unfold parse_date_from_filename.
    rewrite (search_date_slug p s d Hp), (strptime_slug_valid d Hv).
    reflexivity. }
  split.
  { intros p s d Hp Hf Hv. unfold parse_date_from_filename.
    rewrite (search_date_slug p s d Hp), (strptime_slug d Hf), Hv.
    reflexivity. }
  intros dir stem text. unfold parse_date_from_filename, main.
  destruct (search_date stem) as [m|]; [|split; [reflexivity|discriminate]].
  destruct (strptime m); split; (discriminate || reflexivity).
Qed.

Lemma X3_parse_date_witness :
  parse_date_from_filename (lit "tucson-brief-" ++ post_slug (mkdate 2026 2 18)
                            ++ lit "-final")
  = Parsed (mkdate 2026 2 18)
  /\ parse_date_from_filename (lit "notes") = ParseExit1
  /\ parse_date_from_filename ([] ++ post_slug (mkdate 2026 13 1) ++ [])
     = ParseValueError.
Proof.
  destruct X3_parse_date_from_filename as [_ [Hexit [Hok [Hbad _]]]].
  split; [|split].
  - apply Hok; vm_compute; (reflexivity || discriminate).
  - apply Hexit. vm_compute. reflexivity.
  - apply Hbad; vm_compute; reflexivity.
Defined.

(** Digits of other scripts in a file name: the date pattern takes them,
    and the date parser takes them in the year and as the second digit of
    the day, but not in the month.  The first pattern of a name decides. *)
Example unicode_digit_names :
  parse_date_from_filename stem_last_digit = Parsed (mkdate 2026 2 18)
  /\ main None stem_last_digit text_0218 = main None stem_0218 text_0218
  /\ search_date stem_arabic_indic = Some stem_arabic_indic
  /\ parse_date_from_filename stem_arabic_indic = ParseValueError
  /\ collect_existing_posts (Some [(stem_arabic_indic, lit "x")]) = ValueError
  /\ collect_existing_posts (Some [(stem_last_digit, post_one_dot)])
     = Ok [mkpost (mkdate 2026 2 18) (lit "2026-02-18") (lit "Wow")]
  /\ parse_date_from_filename stem_two_patterns = ParseValueError.
Proof. repeat split; vm_compute; reflexivity. Qed.

(** ** Documents without blocks, paragraphs, and the other blocks *)

Lemma dropwhile_all (f : char -> bool) (s : str) :
  forallb f s = true -> dropwhile f s = [].
Proof.
  induction s as [|c s IH]; [reflexivity|]. simpl. intros H.
  apply andb_true_iff in H as [Hc Hs]. rewrite Hc. now apply IH.
Qed.

Lemma strip_spaces (s : str) : forallb is_space s = true -> strip s = [].
Proof.
  intros H. unfold strip, lstrip. now rewrite dropwhile_all.
Qed.

Lemma walk_blank (ls : list str) : Forall blank_line ls -> walk ls = [].
Proof.
  induction 1 as [|l ls Hl _ IH]; [reflexivity|].
  rewrite walk_cons. cbv zeta. unfold blank_line in Hl. now rewrite Hl.
Qed.

Lemma blank_not_footer (y : str) : blank_line y -> ~ footer_line y.
Proof.
  unfold blank_line, footer_line. intros ->. discriminate.
Qed.

(** X4.  A document without content has no blocks: lines that are blank
    followed by metadata lines, in any number, give the empty block list, and
    a text of white space only gives an empty body and an empty lede. *)
Theorem X4_no_content_no_blocks :
  (forall kept run,
      Forall blank_line kept -> Forall footer_line run ->
      parse_lines (kept ++ run) = [])
  /\ (forall text,
         forallb is_space text = true ->
         md_blocks text = [] /\ md_to_html text = [] /\ extract_lede text = []).
Proof.
  split.
  - intros kept run Hk Hr.
    rewrite parse_lines_split; [|exact Hr|].
    + apply walk_blank. now apply Forall_skipn.
    + destruct kept as [|x kept _] using rev_ind; [now left|].
      right. exists kept, x. split; [reflexivity|].
      apply blank_not_footer. apply Forall_app in Hk as [_ Hx].
      now inversion Hx.
  - intros text H.
    assert (Hb : md_blocks text = []).
    { unfold md_blocks. rewrite (strip_spaces _ H). reflexivity. }
    split; [exact Hb|]. split.
    + unfold md_to_html. rewrite Hb. reflexivity.
    + unfold extract_lede. rewrite (strip_spaces _ H). reflexivity.
Qed.

Lemma X4_no_content_witness :
  parse_lines ([[]; lit "  "] ++ [FOOTER_SAVED; FOOTER_FETCHED]) = []
  /\ md_to_html (lit " " ++ [NL] ++ lit "  ") = [].
Proof.
  destruct X4_no_content_no_blocks as [Hlines Htext].
  split.
  - apply Hlines; repeat constructor.
  - apply Htext. vm_compute. reflexivity.
Defined.

Lemma collect_para_app (ls rest : list str) :
  Forall (fun x => para_break (strip x) = false) ls ->
  match rest with [] => True | y :: _ => para_break (strip y) = true end ->
  collect_para (ls ++ rest) = (map strip ls, rest).
Proof.
  intros Hls Hrest. induction Hls as [|l ls Hl _ IH].
  - destruct rest as [|y r]; [reflexivity|]. simpl. now rewrite Hrest.
  - simpl. rewrite Hl, IH. reflexivity.
Qed.

(** X5.  A paragraph takes its first line and every line below it up to the
    next blank, rule, citation or pictograph line or the end of the lines
    walked; the lines are stripped one by one and joined with single
    spaces, and the walk goes on with the line that ended the paragraph. *)
Theorem X5_paragraph_lines (l : str) (ls rest : list str) :
  para_break (strip l) = false ->
  Forall (fun x => para_break (strip x) = false) ls ->
  match rest with [] => True | y :: _ => para_break (strip y) = true end ->
  walk (l :: ls ++ rest)
  = Paragraph (join [SPACE] (map strip (l :: ls))) :: walk rest.
Proof.
  intros Hl Hls Hrest. rewrite walk_cons. cbv zeta.
  destruct (para_break_false _ Hl) as (Hne & Hr & Hc & Hh).
  destruct (strip l) as [|c line] eqn:El; [contradiction|].
  rewrite Hr, Hc, Hh, (collect_para_app ls rest Hls Hrest).
  rewrite map_cons, El. reflexivity.
Qed.

Lemma X5_paragraph_lines_witness :
  walk ([lit "Story one"] ++ [lit "  goes on "; lit "**and on**"]
        ++ [[]; lit "Next"])
  = Paragraph (lit "Story one goes on **and on**") :: walk [[]; lit "Next"].
Proof.
  apply (X5_paragraph_lines (lit "Story one")
           [lit "  goes on "; lit "**and on**"] [[]; lit "Next"]);
    [vm_compute; reflexivity | repeat constructor | vm_compute; reflexivity].
Defined.

Lemma block_line_false (ls : list str) :
  Forall (fun x => para_break (strip x) = false) ls ->
  filter block_line (map strip ls) = [].
Proof.
  induction 1 as [|l ls Hl _ IH]; [reflexivity|].
  simpl. unfold block_line at 1. rewrite Hl.
  destruct (strip l); exact IH.
Qed.

Lemma walk_other_blocks (n : nat) :
  forall ls, (length ls <= n)%nat ->
  filter (fun b => negb (is_paragraph b)) (walk ls)
  = map special_block (filter block_line (map strip ls)).
Proof.
  induction n as [|n IH]; intros ls Hn.
  - destruct ls; [reflexivity|simpl in Hn; lia].
  - destruct ls as [|l t]; [reflexivity|]. simpl in Hn.
    rewrite walk_cons. cbv zeta. rewrite map_cons.
    pose proof (para_break_cases (strip l)) as Hb.
    destruct (strip l) as [|c line] eqn:El.
    + simpl. apply IH. lia.
    + change (filter block_line ((c :: line) :: map strip t))
        with (if para_break (c :: line)
              then (c :: line) :: filter block_line (map strip t)
              else filter block_line (map strip t)).
      rewrite Hb.
      destruct (is_rule (c :: line)) eqn:Er.
      { simpl. unfold special_block at 1. rewrite Er.
        f_equal. apply IH. lia. }
      destruct (is_citation (c :: line)) eqn:Ei.
      { simpl. unfold special_block at 1. rewrite Er, Ei.
        f_equal. apply IH. lia. }
      destruct (is_heading (c :: line)) eqn:Eh.
      { simpl. unfold special_block at 1. rewrite Er, Ei.
        f_equal. apply IH. lia. }
      destruct (collect_para t) as [p r] eqn:Ec.
      destruct (collect_para_spec _ _ _ Ec) as [t1 [Et [_ [Hf _]]]].
      apply collect_para_length in Ec.
      simpl. rewrite IH by lia.
      rewrite Et, map_app, filter_app, (block_line_false t1 Hf).
      reflexivity.
Qed.

(** X6.  The blocks that are no paragraphs are the rule, citation and
    heading lines inside the boundary, one block for each line and in the
    order of the lines: such a line is never taken into a paragraph and
    never dropped. *)
Theorem X6_other_blocks (lines : list str) :
  filter (fun b => negb (is_paragraph b)) (parse_lines lines)
  = map special_block
      (filter block_line
         (map strip (slice (title_skip lines) (end_boundary lines) lines))).
Proof.
  unfold parse_lines. apply (walk_other_blocks _ _ (Nat.le_refl _)).
Qed.

Lemma title_not_footer (l : str) :
  startswith l TITLE_PREFIX = true -> ~ footer_line l.
Proof.
  intros H. apply startswith_skipn in H.
  unfold footer_line. rewrite H.
  change (TITLE_PREFIX ++ skipn (length TITLE_PREFIX) l)
    with ([] ++ 84 :: (lit "ucson Daily Brief"
                       ++ skipn (length TITLE_PREFIX) l)).
  unfold strip. change (lstrip ([] ++ 84 :: ?x)) with ([] ++ 84 :: x).
  rewrite rstrip_app_stop by reflexivity. discriminate.
Qed.

(** X7.  The title line is dropped and what follows is parsed as if the
    title were not there: a first line that starts with the title prefix
    yields no block, whatever else it holds.  Only the first line is
    tested, so the line below it must not look like a title itself. *)
Theorem X7_title_dropped (l : str) (rest : list str) :
  startswith l TITLE_PREFIX = true -> title_skip rest = 0%nat ->
  parse_lines (l :: rest) = parse_lines rest.
Proof.
  intros Hl Hrest.
  destruct (footer_split rest) as [kept [run [-> [Hf Hk]]]].
  change (l :: kept ++ run) with ((l :: kept) ++ run).
  rewrite (parse_lines_split (l :: kept) run Hf).
  - rewrite (parse_lines_split kept run Hf Hk), Hrest.
    change (title_skip ((l :: kept) ++ run))
      with (if startswith l TITLE_PREFIX then 1%nat else 0%nat).
    rewrite Hl. reflexivity.
  - right. destruct Hk as [->|[k [y [-> Hy]]]].
    + exists [], l. split; [reflexivity|now apply title_not_footer].
    + exists (l :: k), y. split; [reflexivity|exact Hy].
Qed.

Lemma X7_title_dropped_witness :
  parse_lines [lit "Tucson Daily Brief - **Top story**"; lit "Story"]
  = parse_lines [lit "Story"].
Proof.
  apply X7_title_dropped; vm_compute; reflexivity.
Defined.

(** ** The merged list and the index page *)

Lemma count_slug_other (s slug : str) (l : list post) :
  s <> slug ->
  count_slug s (filter (fun p => negb (str_eqb (p_slug p) slug)) l)
  = count_slug s l.
Proof.
  intros Hs. unfold count_slug. induction l as [|q l IH]; [reflexivity|].
  simpl. destruct (str_eqb (p_slug q) slug) eqn:E; simpl.
  - apply str_eqb_eq in E.
    destruct (str_eqb (p_slug q) s) eqn:E2; [|exact IH].
    apply str_eqb_eq in E2. congruence.
  - destruct (str_eqb (p_slug q) s); simpl; now rewrite IH.
Qed.

(** X8.  Merging touches only the records of the new identifier: every
    other identifier has as many records after the merge as before, also
    when it has several; every merged record is the new one or a recovered
    one of another identifier; and the merged list has one record more than
    the recovered records of other identifiers. *)
Theorem X8_merge_other_records (posts : list post) (new : post) :
  (forall s, s <> p_slug new ->
             count_slug s (merge_posts posts new) = count_slug s posts)
  /\ (forall p, In p (merge_posts posts new) ->
                p = new \/ (In p posts /\ p_slug p <> p_slug new))
  /\ (length (merge_posts posts new) + count_slug (p_slug new) posts
      = S (length posts))%nat.
Proof.
  pose proof (merge_posts_perm posts new) as Hp.
  split; [|split].
  - intros s Hs. rewrite (count_slug_perm s _ _ Hp), count_slug_app.
    rewrite (count_slug_other s (p_slug new) posts Hs).
    unfold count_slug at 2. simpl.
    destruct (str_eqb (p_slug new) s) eqn:E; [|simpl; lia].
    apply str_eqb_eq in E. congruence.
  - intros p Hin. apply (Permutation_in _ Hp) in Hin.
    apply in_app_or in Hin as [Hin|[<-|[]]]; [|now left].
    apply filter_In in Hin as [Hin Hne]. right. split; [exact Hin|].
    intros E. apply str_eqb_eq in E. rewrite E in Hne. discriminate.
  - rewrite (Permutation_length Hp), length_app. simpl.
    unfold count_slug.
    pose proof (filter_length (fun p => str_eqb (p_slug p) (p_slug new))
                  posts) as Hl.
    lia.
Qed.

Lemma X8_merge_other_records_witness :
  count_slug (lit "2026-02-01")
    (merge_posts [post_0201; post_0218; post_0201] post_0218) = 2%nat.
Proof.
  destruct (X8_merge_other_records [post_0201; post_0218; post_0201]
              post_0218) as [Hcount _].
  rewrite Hcount; [reflexivity|vm_compute; discriminate].
Defined.

Lemma render_item_head (p : post) (z : str) :
  nth 3 (render_item p ++ z) 0 = GT.
Proof. reflexivity. Qed.

Lemma merge_posts_new (posts : list post) (new : post) :
  In new (merge_posts posts new).
Proof.
  apply (Permutation_in _ (Permutation_sym (merge_posts_perm posts new))).
  apply in_or_app. right. now left.
Qed.

Lemma render_index_nonempty (posts : list post) :
  render_index posts = INDEX_1 ++ EMPTY_ITEM ++ INDEX_2 -> posts = [].
Proof.
  destruct posts as [|p ps]; [reflexivity|]. intros H. exfalso.
  unfold render_index in H. cbv zeta in H. rewrite map_cons in H.
  apply app_inv_head in H.
  cbv iota in H. rewrite join_cons_flat, <- app_assoc in H.
  apply (f_equal (fun s => nth 3 s 0)) in H.
  rewrite render_item_head in H. discriminate H.
Qed.

(** X9.  The index page with the placeholder item is rendered for the
    empty list of records and for no other list, and a run of [main] that
    writes the index never writes the placeholder: its list holds the new
    record. *)
Theorem X9_index_placeholder :
  (forall posts,
      render_index posts = INDEX_1 ++ EMPTY_ITEM ++ INDEX_2 <-> posts = [])
  /\ (forall dir md_stem md_text dir1 posts1 index1,
         main dir md_stem md_text = Done dir1 posts1 index1 ->
         posts1 <> [] /\ index1 <> INDEX_1 ++ EMPTY_ITEM ++ INDEX_2).
Proof.
  split.
  - intros posts. split; [apply render_index_nonempty|].
    intros ->. reflexivity.
  - intros dir md_stem md_text dir1 posts1 index1 H.
    apply main_done in H as (m & d & rec & _ & _ & _ & _ & Hp & Hi & _).
    assert (Hne : posts1 <> []).
    { intros E. pose proof (merge_posts_new rec
                              (mkpost d (post_slug d) (extract_lede md_text)))
        as Hin.
      rewrite <- Hp, E in Hin. destruct Hin. }
    split; [exact Hne|].
    intros E. apply Hne. apply render_index_nonempty. now rewrite <- Hi.
Qed.

Lemma X9_index_placeholder_witness :
  match main None stem_0218 text_0218 with
  | Done _ posts1 index1 =>
      posts1 <> [] /\ index1 <> INDEX_1 ++ EMPTY_ITEM ++ INDEX_2
  | _ => False
  end.
Proof.
  destruct X9_index_placeholder as [_ Hmain].
  destruct (main None stem_0218 text_0218) as [| |dir1 posts1 index1] eqn:E.
  - vm_compute in E. discriminate E.
  - vm_compute in E. discriminate E.
  - exact (Hmain _ _ _ _ _ _ E).
Defined.

(** ** Escaping and emphasis *)

Lemma escape_char_head (c c' : char) (x y : str) :
  escape_char c ++ x = escape_char c' ++ y -> c = c'.
Proof.
  unfold escape_char, AMP, LT, GT, QUOT.
  destruct (N.eqb_spec c 38); destruct (N.eqb_spec c 60);
    destruct (N.eqb_spec c 62); destruct (N.eqb_spec c 34);
    destruct (N.eqb_spec c' 38); destruct (N.eqb_spec c' 60);
    destruct (N.eqb_spec c' 62); destruct (N.eqb_spec c' 34);
    intros H; try congruence;
    apply (f_equal (firstn 2)) in H; vm_compute in H; congruence.
Qed.

Lemma escape_inj (a : str) : forall b, escape a = escape b -> a = b.
Proof.
  induction a as [|c a IH]; intros [|c' b] H.
  - reflexivity.
  - rewrite escape_cons in H. apply (f_equal (@length char)) in H.
    rewrite length_app in H. pose proof (escape_char_length c'). simpl in H. lia.
  - rewrite escape_cons in H. apply (f_equal (@length char)) in H.
    rewrite length_app in H. pose proof (escape_char_length c). simpl in H. lia.
  - rewrite !escape_cons in H.
    pose proof (escape_char_head _ _ _ _ H) as <-.
    apply app_inv_head in H. f_equal. now apply IH.
Qed.

(** X10.  [escape] is injective: different texts have different escaped
    forms, so escaping loses nothing; a text that already holds an entity
    is kept apart from the character the entity stands for. *)
Theorem X10_escape_injective (a b : str) : a <> b -> escape a <> escape b.
Proof.
  intros Hne E. apply Hne. now apply escape_inj.
Qed.

Lemma X10_escape_injective_witness :
  escape (lit "&lt;") <> escape (lit "<").
Proof.
  apply X10_escape_injective. discriminate.
Defined.

Lemma re_search_app_some (open close x z b : str) :
  re_search open close z = Some b ->
  exists b', re_search open close (x ++ z) = Some b'.
Proof.
  intros H. induction x as [|c x IH]; [now exists b|].
  simpl app. rewrite re_search_unfold.
  destruct (match_delim open close (c :: x ++ z)) as [[b0 r0]|];
    [now exists b0|exact IH].
Qed.

Lemma re_search_escape_some (t b : str) :
  re_search BOLD BOLD t = Some b ->
  exists b', re_search BOLD BOLD (escape t) = Some b'.
Proof.
  revert b. induction t as [|c t IH]; intros b H; [discriminate H|].
  rewrite re_search_unfold in H.
  change (match_delim BOLD BOLD (c :: t)) with (match_bold (c :: t)) in H.
  destruct (match_bold (c :: t)) as [[b0 r0]|] eqn:E.
  - rewrite re_search_unfold.
    change (match_delim BOLD BOLD (escape (c :: t)))
      with (match_bold (escape (c :: t))).
    rewrite match_bold_escape, E. now exists (escape b0).
  - destruct (IH _ H) as [b' Hb']. rewrite escape_cons.
    now apply re_search_app_some with (b := b').
Qed.

Lemma sub_bold_fuel_markup (n : nat) :
  forall s b, (length s <= n)%nat -> re_search BOLD BOLD s = Some b ->
              In LT (sub_bold_fuel n s).
Proof.
  induction n as [|n IH]; intros s b Hn H.
  - destruct s; [discriminate H|simpl in Hn; lia].
  - cbn [sub_bold_fuel]. rewrite re_search_unfold in H.
    change (match_delim BOLD BOLD s) with (match_bold s) in H.
    destruct (match_bold s) as [[b0 r0]|].
    + apply in_or_app. left. vm_compute. left. reflexivity.
    + destruct s as [|c t]; [discriminate H|]. simpl in Hn.
      right. apply (IH t b); [lia|exact H].
Qed.

(** X11.  A paragraph text is rendered as its escaped form, without any
    markup, exactly when it holds no bold span: where a span exists a
    [<strong>] element is written, where none exists every [**] stays as it
    is. *)
Theorem X11_inline_format_plain (t : str) :
  inline_format t = escape t <-> re_search BOLD BOLD t = None.
Proof.
  split; [|apply sub_bold_escape_spanless].
  intros H. destruct (re_search BOLD BOLD t) as [b|] eqn:E; [|reflexivity].
  exfalso. destruct (re_search_escape_some _ _ E) as [b' Hb'].
  apply (escape_nolt t). rewrite <- H.
  apply (sub_bold_fuel_markup _ _ b' (Nat.le_refl _) Hb').
Qed.

Lemma X11_inline_format_plain_witness :
  inline_format (lit "R&D ** up") = escape (lit "R&D ** up")
  /\ inline_format (lit "**R&D** up") <> escape (lit "**R&D** up").
Proof.
  split.
  - apply X11_inline_format_plain. vm_compute. reflexivity.
  - intros H. apply X11_inline_format_plain in H. vm_compute in H.
    discriminate H.
Defined.

(** ** The lede *)

Lemma trim_headline_length (h : str) : (length (trim_headline h) <= 120)%nat.
Proof.
  unfold trim_headline.
  set (h' := if endswith h [DOT] then removelast h else h).
  destruct (120 <? length h')%nat eqn:E.
  - apply Nat.ltb_lt in E. rewrite length_app, length_firstn.
    change (length ELLIPSIS) with 3%nat. lia.
  - apply Nat.ltb_ge in E. exact E.
Qed.

Lemma in_firstn (x : char) (n : nat) (s : str) : In x (firstn n s) -> In x s.
Proof.
  intros H. rewrite <- (firstn_skipn n s). apply in_or_app. now left.
Qed.

Lemma trim_headline_chars (h : str) :
  ~ In NL h -> ~ In NL (trim_headline h).
Proof.
  intros Hh. unfold trim_headline.
  assert (H' : ~ In NL (if endswith h [DOT] then removelast h else h)).
  { destruct (endswith h [DOT]) eqn:E; [|exact Hh].
    apply endswith_one in E as [h0 ->]. rewrite removelast_last.
    intros H. apply Hh. apply in_or_app. now left. }
  destruct (120 <? _)%nat; [|exact H'].
  intros H. apply in_app_or in H as [H|H].
  - apply in_firstn in H. now apply H'.
  - vm_compute in H. intuition discriminate.
Qed.

Lemma re_search_group (open close s b : str) :
  re_search open close s = Some b -> b <> [] /\ ~ In NL b.
Proof.
  induction s as [|c s IH]; rewrite re_search_unfold; unfold match_delim.
  - destruct (startswith [] open); [|discriminate].
    destruct (group_lazy close (skipn (length open) [])) as [[b0 r0]|] eqn:E;
      [|discriminate].
    intros H. injection H as <-. apply group_lazy_sound in E. tauto.
  - destruct (startswith (c :: s) open); [|exact IH].
    destruct (group_lazy close (skipn (length open) (c :: s)))
      as [[b0 r0]|] eqn:E; [|exact IH].
    intros H. injection H as <-. apply group_lazy_sound in E. tauto.
Qed.

Lemma search_post_lede_group (s b : str) :
  search_post_lede s = Some b -> b <> [] /\ ~ In NL b.
Proof.
  assert (Hm : forall s b r, match_post_lede s = Some (b, r) ->
                             b <> [] /\ ~ In NL b).
  { intros s0 b0 r0. unfold match_post_lede.
    destruct (startswith s0 POST_LEDE_OPEN); [|discriminate].
    destruct (skip_to_gt _) as [r|]; [|discriminate].
    intros H. apply group_lazy_sound in H. tauto. }
  induction s as [|c s IH]; rewrite search_post_lede_unfold.
  - destruct (match_post_lede []) as [[b0 r0]|] eqn:E; [|discriminate].
    intros H. injection H as <-. now apply Hm in E.
  - destruct (match_post_lede (c :: s)) as [[b0 r0]|] eqn:E; [|exact IH].
    intros H. injection H as <-. now apply Hm in E.
Qed.

Lemma rstrip_dots_chars (x : char) (s : str) :
  In x (rstrip_dots s) -> In x s.
Proof.
  unfold rstrip_dots. intros H. apply in_rev in H.
  destruct (dropwhile_suffix (fun c => c =? DOT) (rev s)) as [w Hw].
  apply in_rev. rewrite Hw. apply in_or_app. now right.
Qed.

Lemma extract_lede_lines_bounds (lines : list str) :
  (length (extract_lede_lines lines) <= 120)%nat
  /\ ~ In NL (extract_lede_lines lines).
Proof.
  induction lines as [|l lines IH]; [split; [simpl; lia|intros []]|].
  simpl. destruct (re_search BOLD BOLD l) as [h|] eqn:E; [|exact IH].
  split; [apply trim_headline_length|].
  apply trim_headline_chars. now apply re_search_group in E.
Qed.

(** X12.  The lede taken from a briefing never has more than 120
    characters and never holds a line break, whatever the text; the lede
    recovered from a post file never holds a line break either; so the
    escaped lede always stays on the one line the index page gives it. *)
Theorem X12_lede_bounds :
  (forall text,
      (length (extract_lede text) <= 120)%nat
      /\ ~ In NL (extract_lede text)
      /\ ~ In NL (escape (extract_lede text)))
  /\ (forall content,
         ~ In NL (recover_lede content)
         /\ ~ In NL (escape (recover_lede content))).
Proof.
  assert (Hr : forall content, ~ In NL (recover_lede content)).
  { intros content. unfold recover_lede.
    destruct (search_post_lede content) as [lede|] eqn:E.
    - now apply search_post_lede_group in E.
    - destruct (re_search STRONG_OPEN STRONG_CLOSE content) as [s|] eqn:Es;
        [|intros []].
      intros H. apply rstrip_dots_chars in H.
      now apply re_search_group in Es. }
  split.
  - intros text.
    destruct (extract_lede_lines_bounds (split_lines (strip text))) as [Hl Hn].
    split; [exact Hl|]. split; [exact Hn|]. now apply escape_nonl.
  - intros content. split; [apply Hr|]. apply escape_nonl, Hr.
Qed.

(** ** The records of the posts directory *)

Lemma strptime_valid (m : str) (d : date) :
  strptime m = Some d -> valid_date d = true.
Proof.
  unfold strptime.
  destruct m as [|y1 [|y2 [|y3 [|y4 [|h1 r]]]]]; try discriminate.
  destruct (forallb is_digit [y1; y2; y3; y4] && (h1 =? HYPHEN));
    [|discriminate].
  destruct (strptime_month r) as [[mm [|h2 r1]]|]; try discriminate.
  destruct (h2 =? HYPHEN); [|discriminate].
  destruct (strptime_day r1) as [[dd [|x r2]]|]; try discriminate.
  destruct (valid_date _) eqn:E; [|discriminate].
  intros H. injection H as <-. exact E.
Qed.

Lemma collect_files_cases (files : list (str * str)) :
  collect_files files
  = if existsb bad_date_name files then ValueError
    else Ok (flat_map file_record files).
Proof.
  induction files as [|[stem content] files IH]; [reflexivity|].
  cbn [collect_files existsb flat_map].
  change (bad_date_name (stem, content))
    with (match search_date stem with
          | Some m => match strptime m with Some _ => false | None => true end
          | None => false
          end).
  change (file_record (stem, content))
    with (match search_date stem with
          | Some m =>
              match strptime m with
              | Some d => [mkpost d (post_slug d) (recover_lede content)]
              | None => []
              end
          | None => []
          end).
  destruct (search_date stem) as [m|]; [|exact IH].
  destruct (strptime m) as [d|]; [|reflexivity].
  rewrite IH. cbn [orb]. destruct (existsb bad_date_name files); reflexivity.
Qed.

Lemma file_record_ok (f : str * str) : Forall record_ok (file_record f).
Proof.
  unfold file_record. destruct (search_date (fst f)) as [m|]; [|constructor].
  destruct (strptime m) as [d|] eqn:E; constructor; [|constructor].
  split; [exact (strptime_valid _ _ E)|reflexivity].
Qed.

Lemma file_record_length (f : str * str) : (length (file_record f) <= 1)%nat.
Proof.
  unfold file_record. destruct (search_date (fst f)) as [m|]; [|simpl; lia].
  destruct (strptime m); simpl; lia.
Qed.

Lemma flat_map_records (files : list (str * str)) :
  Forall record_ok (flat_map file_record files)
  /\ (length (flat_map file_record files) <= length files)%nat.
Proof.
  induction files as [|f files [IH1 IH2]]; [split; [constructor|simpl; lia]|].
  cbn [flat_map]. split.
  - apply Forall_app. split; [apply file_record_ok|exact IH1].
  - rewrite length_app. pose proof (file_record_length f). simpl. lia.
Qed.

(** X13.  Recovery raises exactly when some file name holds a date pattern
    that names no date of the calendar; otherwise it returns the records of
    the files in their order, at most one for each file. *)
Theorem X13_recovery_raises (files : list (str * str)) :
  (collect_existing_posts (Some files) = ValueError
   <-> existsb bad_date_name files = true)
  /\ (existsb bad_date_name files = false ->
      collect_existing_posts (Some files) = Ok (flat_map file_record files)
      /\ (length (flat_map file_record files) <= length files)%nat).
Proof.
  cbn [collect_existing_posts]. rewrite collect_files_cases.
  destruct (existsb bad_date_name files); split.
  - tauto.
  - discriminate.
  - split; discriminate.
  - intros _. split; [reflexivity|apply flat_map_records].
Qed.

Lemma X13_recovery_raises_witness :
  collect_existing_posts
    (Some [(lit "notes", lit "x"); (lit "2026-02-18", post_two_dots)])
  = Ok (flat_map file_record
          [(lit "notes", lit "x"); (lit "2026-02-18", post_two_dots)])
  /\ collect_existing_posts
       (Some [(lit "2026-02-18", post_two_dots); (lit "2026-02-30", lit "x")])
     = ValueError.
Proof.
  split.
  - apply X13_recovery_raises. vm_compute. reflexivity.
  - apply X13_recovery_raises. vm_compute. reflexivity.
Defined.

Lemma merge_posts_from (posts : list post) (new p : post) :
  In p (merge_posts posts new) -> p = new \/ In p posts.
Proof.
  intros H. apply (Permutation_in _ (merge_posts_perm posts new)) in H.
  apply in_app_or in H as [H|[<-|[]]]; [|now left].
  apply filter_In in H as [H _]. now right.
Qed.

(** X14.  Every record the program builds has a date of the calendar and
    the slug of that date: the recovered records have, and so has the list
    [main] hands to the index renderer.  In that list the record of the
    date of the briefing is the new one and no other: no second entry of
    that date is listed, whatever the posts directory held. *)
Theorem X14_records_well_formed :
  (forall dir posts,
      collect_existing_posts dir = Ok posts -> Forall record_ok posts)
  /\ (forall dir md_stem md_text dir1 posts1 index1,
         main dir md_stem md_text = Done dir1 posts1 index1 ->
         Forall record_ok posts1
         /\ exists d,
             parse_date_from_filename md_stem = Parsed d
             /\ In (mkpost d (post_slug d) (extract_lede md_text)) posts1
             /\ forall p, In p posts1 -> p_date p = d ->
                          p = mkpost d (post_slug d) (extract_lede md_text)).
Proof.
  assert (Hc : forall dir posts,
             collect_existing_posts dir = Ok posts -> Forall record_ok posts).
  { intros [files|] posts; cbn [collect_existing_posts].
    - rewrite collect_files_cases.
      destruct (existsb bad_date_name files); [discriminate|].
      intros H. injection H as <-. apply flat_map_records.
    - intros H. injection H as <-. constructor. }
  split; [exact Hc|].
  intros dir md_stem md_text dir1 posts1 index1 H.
  apply main_done in H as (m & d & rec & Em & Ed & _ & Er & Hp & _ & _).
  apply Hc in Er. rewrite Forall_forall in Er.
  assert (Hall : Forall record_ok posts1).
  { rewrite Forall_forall. intros p Hin. rewrite Hp in Hin.
    apply merge_posts_from in Hin as [->|Hin]; [|now apply Er].
    split; [exact (strptime_valid _ _ Ed)|reflexivity]. }
  split; [exact Hall|].
  exists d. split; [|split].
  - unfold parse_date_from_filename. now rewrite Em, Ed.
  - rewrite Hp. apply merge_posts_new.
  - intros p Hin Hd. rewrite Forall_forall in Hall.
    destruct (Hall _ Hin) as [_ Hs]. rewrite Hd in Hs.
    rewrite Hp in Hin. now apply (merge_posts_only_new _ _ _ Hin).
Qed.

Lemma X14_records_well_formed_witness :
  Forall record_ok
    [mkpost (mkdate 2026 2 18) (lit "2026-02-18") (lit "Wow")].
Proof.
  destruct X14_records_well_formed as [Hc _].
  apply (Hc (Some [(lit "2026-02-18", post_two_dots)])).
  vm_compute. reflexivity.
Defined.

(** ** The files a run leaves behind *)

Lemma write_file_keeps (files : list (str * str)) (stem content : str)
      (f : str * str) :
  In f files -> fst f <> stem -> In f (write_file files stem content).
Proof.
  intros Hin Hne. induction files as [|[s c] files IH]; [destruct Hin|].
  cbn [write_file]. destruct (str_eqb s stem) eqn:E.
  - destruct Hin as [<-|Hin]; [|now right].
    apply str_eqb_eq in E. now destruct Hne.
  - destruct Hin as [<-|Hin]; [now left|right; now apply IH].
Qed.

Lemma write_file_in (files : list (str * str)) (stem content : str) :
  In (stem, content) (write_file files stem content).
Proof.
  induction files as [|[s c] files IH]; [now left|].
  cbn [write_file]. destruct (str_eqb s stem); [now left|now right].
Qed.

Lemma search_date_own_slug (d : date) :
  search_date (post_slug d) = Some (post_slug d).
Proof.
  pose proof (match_date_slug d []) as H. rewrite app_nil_r in H.
  rewrite search_date_unfold, H. reflexivity.
Qed.

Lemma bad_name_not_slug (f : str * str) (d : date) :
  bad_date_name f = true -> valid_date d = true -> fst f <> post_slug d.
Proof.
  unfold bad_date_name. intros Hb Hv E.
  rewrite E, search_date_own_slug, (strptime_slug_valid d Hv) in Hb.
  discriminate Hb.
Qed.

Lemma main_effects_parsed (dir : posts_dir) (index : option str)
      (md_stem md_text : str) (d : date) :
  parse_date_from_filename md_stem = Parsed d ->
  valid_date d = true
  /\ main dir md_stem md_text
     = match collect_existing_posts
               (mkdir_write dir (post_slug d)
                  (render_post d (md_to_html md_text))) with
       | ValueError => Raised
       | Ok posts =>
           Done (mkdir_write dir (post_slug d)
                   (render_post d (md_to_html md_text)))
                (merge_posts posts
                   (mkpost d (post_slug d) (extract_lede md_text)))
                (render_index
                   (merge_posts posts
                      (mkpost d (post_slug d) (extract_lede md_text))))
       end
  /\ main_effects dir index md_stem md_text
     = match collect_existing_posts
               (mkdir_write dir (post_slug d)
                  (render_post d (md_to_html md_text))) with
       | ValueError =>
           (mkdir_write dir (post_slug d)
              (render_post d (md_to_html md_text)), index)
       | Ok posts =>
           (mkdir_write dir (post_slug d)
              (render_post d (md_to_html md_text)),
            Some (render_index
                    (merge_posts posts
                       (mkpost d (post_slug d) (extract_lede md_text)))))
       end.
Proof.
  unfold main_effects, main, parse_date_from_filename.
  destruct (search_date md_stem) as [m|]; [|discriminate].
  destruct (strptime m) as [d0|] eqn:Ed; [|discriminate].
  intros H. injection H as ->.
  split; [exact (strptime_valid _ _ Ed)|]. split; reflexivity.
Qed.

(** X15.  The order of the effects of [main].  When the file name gives no
    date nothing is written.  When it gives one, the post file is written
    first, and the records are collected after that: if the posts directory
    holds a file whose name has a date pattern that names no date, the run
    ends with the error raised by the collection, the post file of this run
    is in the directory all the same, and the index is left as it was.  A
    run that ends normally leaves the directory with the post file and the
    index it returns. *)
Theorem X15_effects_order (dir : posts_dir) (index : option str)
        (md_stem md_text : str) :
  (parse_date_from_filename md_stem = ParseExit1
   \/ parse_date_from_filename md_stem = ParseValueError ->
   main_effects dir index md_stem md_text = (dir, index))
  /\ (forall d files f,
         parse_date_from_filename md_stem = Parsed d -> 1000 <= year d ->
         dir = Some files -> In f files -> bad_date_name f = true ->
         main dir md_stem md_text = Raised
         /\ main_effects dir index md_stem md_text
            = (Some (write_file files (post_slug d)
                       (render_post d (md_to_html md_text))), index)
         /\ In (post_slug d, render_post d (md_to_html md_text))
               (write_file files (post_slug d)
                  (render_post d (md_to_html md_text))))
  /\ (forall dir1 posts1 index1,
         main dir md_stem md_text = Done dir1 posts1 index1 ->
         main_effects dir index md_stem md_text = (dir1, Some index1)).
Proof.
  split; [|split].
  - unfold main_effects. intros [-> | ->]; reflexivity.
  - intros d files f Hp _ -> Hin Hbad.
    destruct (main_effects_parsed (Some files) index md_stem md_text d Hp)
      as (Hv & Hm & He).
    assert (Hc : collect_existing_posts
                   (mkdir_write (Some files) (post_slug d)
                      (render_post d (md_to_html md_text))) = ValueError).
    { cbn [mkdir_write collect_existing_posts]. rewrite collect_files_cases.
      assert (Hex : existsb bad_date_name
                      (write_file files (post_slug d)
                         (render_post d (md_to_html md_text))) = true).
      { apply existsb_exists. exists f. split; [|exact Hbad].
        apply write_file_keeps; [exact Hin|].
        now apply bad_name_not_slug. }
      now rewrite Hex. }
    rewrite Hc in Hm, He.
    split; [exact Hm|]. split; [exact He|apply write_file_in].
  - intros dir1 posts1 index1 H.
    pose proof H as H0.
    apply main_done in H0 as (m & d & rec & Em & Ed & Hd & Er & Hp & Hi & _).
    assert (Hparse : parse_date_from_filename md_stem = Parsed d)
      by (unfold parse_date_from_filename; now rewrite Em, Ed).
    destruct (main_effects_parsed dir index md_stem md_text d Hparse)
      as (_ & _ & He).
    rewrite <- Hd, Er in He. rewrite He, Hi, Hp. reflexivity.
Qed.

Lemma X15_effects_order_witness :
  main (Some [(lit "2026-02-30", lit "x")]) stem_0218 text_0218 = Raised
  /\ main_effects (Some [(lit "2026-02-30", lit "x")]) None
       stem_0218 text_0218
     = (Some (write_file [(lit "2026-02-30", lit "x")]
                (post_slug (mkdate 2026 2 18))
                (render_post (mkdate 2026 2 18) (md_to_html text_0218))),
        None)
  /\ main_effects None None (lit "notes") text_0218 = (None, None).
Proof.
  destruct (X15_effects_order (Some [(lit "2026-02-30", lit "x")]) None
              stem_0218 text_0218) as [_ [Hraise _]].
  destruct (Hraise (mkdate 2026 2 18) [(lit "2026-02-30", lit "x")]
              (lit "2026-02-30", lit "x")) as [Hm [He _]];
    [vm_compute; reflexivity | vm_compute; discriminate | reflexivity
     | now left | vm_compute; reflexivity | ].
  split; [exact Hm|]. split; [exact He|].
  destruct (X15_effects_order None None (lit "notes") text_0218)
    as [Hnone _].
  apply Hnone. left. vm_compute. reflexivity.
Defined.

(** X16.  After a run that ends normally the posts directory holds the page
    of the new post under its slug; the collection that follows recovers a
    record from that very page, and the merge discards it in favour of the
    new record: the index entry of the new post always shows the lede taken
    from the briefing text, never the one recovered from the page. *)
Theorem X16_new_post_superseded (dir : posts_dir) (md_stem md_text : str)
        (dir1 : posts_dir) (posts1 : list post) (index1 : str) (d : date) :
  main dir md_stem md_text = Done dir1 posts1 index1 ->
  parse_date_from_filename md_stem = Parsed d -> 1000 <= year d ->
  (exists files1,
      dir1 = Some files1
      /\ In (post_slug d, render_post d (md_to_html md_text)) files1)
  /\ (exists recovered,
         collect_existing_posts dir1 = Ok recovered
         /\ In (mkpost d (post_slug d)
                  (recover_lede (render_post d (md_to_html md_text))))
               recovered
         /\ posts1 = merge_posts recovered
                       (mkpost d (post_slug d) (extract_lede md_text)))
  /\ (forall p, In p posts1 -> p_slug p = post_slug d ->
                p_lede p = extract_lede md_text).
Proof.
  intros H Hparse _.
  apply main_done in H as (m & d0 & rec & Em & Ed & Hd & Er & Hp & _ & _).
  assert (d0 = d) as ->.
  { unfold parse_date_from_filename in Hparse. rewrite Em, Ed in Hparse.
    now injection Hparse. }
  pose proof (strptime_valid _ _ Ed) as Hv.
  assert (Hfiles : exists files1,
             dir1 = Some files1
             /\ In (post_slug d, render_post d (md_to_html md_text)) files1).
  { rewrite Hd. destruct dir as [files|]; cbn [mkdir_write].
    - eexists. split; [reflexivity|apply write_file_in].
    - eexists. split; [reflexivity|now left]. }
  split; [exact Hfiles|]. split.
  - exists rec. split; [exact Er|]. split; [|exact Hp].
    destruct Hfiles as (files1 & -> & Hin).
    cbn [collect_existing_posts] in Er. rewrite collect_files_cases in Er.
    destruct (existsb bad_date_name files1); [discriminate Er|].
    injection Er as <-. apply in_flat_map.
    exists (post_slug d, render_post d (md_to_html md_text)).
    split; [exact Hin|]. unfold file_record. cbn [fst snd].
    rewrite search_date_own_slug, (strptime_slug_valid d Hv). now left.
  - intros p Hin Hs. rewrite Hp in Hin.
    now rewrite (merge_posts_only_new _ _ _ Hin Hs).
Qed.

Lemma X16_new_post_superseded_witness :
  match main (Some [(lit "2026-02-18", post_two_dots)])
             stem_0218 text_0218 with
  | Done _ posts1 _ =>
      forall p, In p posts1 -> p_slug p = post_slug (mkdate 2026 2 18) ->
                p_lede p = extract_lede text_0218
  | _ => False
  end.
Proof.
  destruct (main (Some [(lit "2026-02-18", post_two_dots)])
                 stem_0218 text_0218) as [| |dir1 posts1 index1] eqn:E.
  - vm_compute in E. discriminate E.
  - vm_compute in E. discriminate E.
  - apply (X16_new_post_superseded _ _ _ _ _ _ (mkdate 2026 2 18) E);
      [vm_compute; reflexivity | vm_compute; discriminate].
Defined.

(** X17.  No page written by [render_post] holds the post-lede tag, so the
    first strategy of the recovery never applies to the files of this
    program: the lede of a post of an earlier run always comes from the
    first strong span of its page, and it is empty when no paragraph of the
    briefing held a bold span, also when the title line held one. *)
Theorem X17_own_pages_fallback (d : date) (text : str) :
  search_post_lede (render_post d (md_to_html text)) = None
  /\ recover_lede (render_post d (md_to_html text))
     = match re_search STRONG_OPEN STRONG_CLOSE
               (render_post d (md_to_html text)) with
       | Some s => rstrip_dots s
       | None => []
       end
  /\ (Forall spanless_block (md_blocks text) ->
      recover_lede (render_post d (md_to_html text)) = []).
Proof.
  pose proof (render_post_no_post_lede d text) as H.
  split; [exact H|]. split.
  - unfold recover_lede. now rewrite H.
  - apply recover_spanless.
Qed.

Lemma X17_own_pages_fallback_witness :
  recover_lede
    (render_post (mkdate 2026 2 18)
       (md_to_html (join [NL] [lit "Tucson Daily Brief **Top**";
                               lit "Story"]))) = []
  /\ extract_lede (join [NL] [lit "Tucson Daily Brief **Top**"; lit "Story"])
     = lit "Top".
Proof.
  split; [|vm_compute; reflexivity].
  apply X17_own_pages_fallback. vm_compute. repeat constructor.
Defined.

(** ** The lines of the body *)

Lemma replace_chars (x old : char) (s : str) :
  In x (replace old [] s) -> In x s.
Proof.
  unfold replace. intros H. apply in_flat_map in H as (c & Hc & Hx).
  destruct (c =? old); [destruct Hx|].
  destruct Hx as [<-|[]]. exact Hc.
Qed.

Lemma source_text_nonl (line : str) :
  ~ In NL line -> ~ In NL (source_text line).
Proof.
  intros H. unfold source_text. apply strip_nonl.
  intros Hin. apply H. now apply replace_chars in Hin; apply replace_chars in Hin.
Qed.

Lemma sub_bold_nonl (s : str) : ~ In NL s -> ~ In NL (sub_bold s).
Proof.
  intros Hs H. rewrite sub_bold_segs in H.
  apply in_flat_map in H as (x & Hx & Hin).
  pose proof (Emph_chars s _ x (bold_segs_Emph s) Hx) as Hincl.
  apply Hs. apply Hincl. destruct x as [c|b]; [exact Hin|].
  cbn [seg_html seg_src] in *.
  apply in_app_or in Hin as [Hin|Hin];
    [vm_compute in Hin; intuition discriminate|].
  apply in_app_or in Hin as [Hin|Hin];
    [|vm_compute in Hin; intuition discriminate].
  apply in_or_app. right. apply in_or_app. now left.
Qed.

Lemma render_block_nonl (b : Block) :
  match b with
  | Rule => True
  | Citation t => ~ In NL t
  | Heading t => ~ In NL t
  | Paragraph t => ~ In NL t
  end -> ~ In NL (render_block b).
Proof.
  destruct b as [|t|t|t]; intros Ht H; cbn [render_block] in H.
  - vm_compute in H. intuition discriminate.
  - repeat (apply in_app_or in H as [H|H];
            [vm_compute in H; intuition discriminate|]).
    apply in_app_or in H as [H|H];
      [now apply (escape_nonl t Ht)|vm_compute in H; intuition discriminate].
  - apply in_app_or in H as [H|H]; [vm_compute in H; intuition discriminate|].
    apply in_app_or in H as [H|H];
      [now apply (escape_nonl t Ht)|vm_compute in H; intuition discriminate].
  - apply in_app_or in H as [H|H]; [vm_compute in H; intuition discriminate|].
    apply in_app_or in H as [H|H];
      [|vm_compute in H; intuition discriminate].
    apply (sub_bold_nonl (escape t)); [now apply escape_nonl|exact H].
Qed.

Lemma walk_blocks_nonl (n : nat) :
  forall ls, (length ls <= n)%nat -> Forall (fun l => ~ In NL l) ls ->
             Forall (fun b => ~ In NL (render_block b)) (walk ls).
Proof.
  induction n as [|n IH]; intros ls Hn Hls.
  - destruct ls; [constructor|simpl in Hn; lia].
  - destruct ls as [|l t]; [constructor|]. simpl in Hn.
    inversion Hls as [|? ? Hl Ht]; subst.
    rewrite walk_cons. cbv zeta.
    pose proof (strip_nonl l Hl) as Hsl.
    destruct (strip l) as [|c line] eqn:El; [apply IH; [lia|exact Ht]|].
    destruct (is_rule (c :: line)).
    { constructor; [now apply render_block_nonl|apply IH; [lia|exact Ht]]. }
    destruct (is_citation (c :: line)).
    { constructor; [|apply IH; [lia|exact Ht]].
      apply render_block_nonl. now apply source_text_nonl. }
    destruct (is_heading (c :: line)).
    { constructor; [now apply render_block_nonl|apply IH; [lia|exact Ht]]. }
    destruct (collect_para t) as [p r] eqn:Ec.
    destruct (collect_para_spec _ _ _ Ec) as [t1 [Et [Ep _]]].
    apply collect_para_length in Ec.
    rewrite Et in Ht. apply Forall_app in Ht as [Ht1 Hr].
    constructor;
      [|apply IH;
        [eapply Nat.le_trans; [exact Ec|]; apply le_S_n; exact Hn
        |exact Hr]].
    apply render_block_nonl. apply join_space_nonl.
    constructor; [exact Hsl|]. rewrite Ep.
    apply Forall_map. revert Ht1. apply Forall_impl. apply strip_nonl.
Qed.

Lemma split_lines_one (x : str) : ~ In NL x -> split_lines x = [x].
Proof.
  induction x as [|c x IH]; intros H; [reflexivity|].
  cbn [split_lines]. destruct (N.eqb_spec c NL) as [->|_].
  - destruct H. now left.
  - rewrite IH; [reflexivity|]. intros Hin. apply H. now right.
Qed.

Lemma split_lines_app (x rest : str) :
  ~ In NL x -> split_lines (x ++ NL :: rest) = x :: split_lines rest.
Proof.
  induction x as [|c x IH]; intros H; [reflexivity|].
  simpl app. cbn [split_lines]. destruct (N.eqb_spec c NL) as [->|_].
  - destruct H. now left.
  - rewrite IH; [reflexivity|]. intros Hin. apply H. now right.
Qed.

Lemma split_join (xs : list str) :
  xs <> [] -> Forall (fun l => ~ In NL l) xs ->
  split_lines (join [NL] xs) = xs.
Proof.
  induction xs as [|x xs IH]; intros Hne Hx; [contradiction|].
  inversion Hx as [|? ? Hx1 Hx2]; subst.
  destruct xs as [|y xs]; [now apply split_lines_one|].
  change (join [NL] (x :: y :: xs)) with (x ++ NL :: join [NL] (y :: xs)).
  rewrite (split_lines_app _ _ Hx1), IH; [reflexivity|discriminate|exact Hx2].
Qed.

(** X18.  Every block takes one line of the body and no block spans two:
    splitting the body of a document with blocks at its line breaks gives
    the rendered blocks, one by one and in their order. *)
Theorem X18_body_lines (text : str) :
  md_blocks text <> [] ->
  split_lines (md_to_html text) = map render_block (md_blocks text)
  /\ length (split_lines (md_to_html text)) = length (md_blocks text).
Proof.
  intros Hne.
  assert (H : split_lines (md_to_html text)
              = map render_block (md_blocks text)).
  { unfold md_to_html. apply split_join.
    - destruct (md_blocks text); [contradiction|discriminate].
    - apply Forall_map. unfold md_blocks, parse_lines, slice.
      apply (walk_blocks_nonl _ _ (Nat.le_refl _)).
      apply Forall_skipn, Forall_firstn, split_lines_nonl. }
  split; [exact H|]. now rewrite H, length_map.
Qed.

Lemma X18_body_lines_witness :
  length (split_lines (md_to_html text_0218)) = 1%nat.
Proof.
  apply (X18_body_lines text_0218). vm_compute. discriminate.
Defined.

(** ** Lines that start with a bold marker, and white space around the text *)

(** X19.  The test [not line.startswith("**")] of the heading branch never
    decides anything: a line is taken as a heading exactly when it starts
    with a pictograph.  A line that starts with a bold marker is never a
    rule, a citation or a heading and never ends a paragraph: it begins a
    paragraph or continues the one above it. *)
Theorem X19_bold_line_is_paragraph_text :
  (forall line, is_heading line = starts_pictograph line)
  /\ (forall line,
         startswith line BOLD = true ->
         para_break line = false /\ classify line = [Paragraph line]).
Proof.
  assert (Hb : forall line, startswith line BOLD = true ->
                            para_break line = false).
  { intros line H. apply startswith_skipn in H. rewrite H.
    generalize (skipn (length BOLD) line). intros r.
    unfold para_break, is_rule. cbn. now rewrite andb_false_r. }
  split.
  - intros line. unfold is_heading.
    destruct (starts_pictograph line) eqn:E; [|reflexivity].
    destruct line as [|c t]; [discriminate E|]. cbn in E |- *.
    destruct (N.eqb_spec c STAR) as [->|_]; [discriminate E|reflexivity].
  - intros line H. split; [now apply Hb|].
    pose proof (Hb _ H) as Hp.
    destruct (para_break_false _ Hp) as (Hne & Hr & Hc & Hh).
    unfold classify. rewrite Hr, Hc, Hh.
    destruct line; [contradiction|reflexivity].
Qed.

Lemma X19_bold_line_witness :
  classify (lit "**Council votes.** More.")
  = [Paragraph (lit "**Council votes.** More.")]
  /\ walk [lit "Story"; lit "**Council votes.**"]
     = [Paragraph (lit "Story **Council votes.**")].
Proof.
  destruct X19_bold_line_is_paragraph_text as [_ Hline].
  split; [|vm_compute; reflexivity].
  apply Hline. vm_compute. reflexivity.
Defined.

Lemma dropwhile_app_all (f : char -> bool) (w x : str) :
  forallb f w = true -> dropwhile f (w ++ x) = dropwhile f x.
Proof.
  induction w as [|c w IH]; [reflexivity|]. simpl. intros H.
  apply andb_true_iff in H as [Hc Hw]. rewrite Hc. now apply IH.
Qed.

Lemma forallb_rev (f : char -> bool) (w : str) :
  forallb f w = true -> forallb f (rev w) = true.
Proof.
  rewrite !forallb_forall. intros H x Hx. apply H. now apply in_rev.
Qed.

Lemma rstrip_spaces (x w : str) :
  forallb is_space w = true -> rstrip (x ++ w) = rstrip x.
Proof.
  intros H. unfold rstrip.
  rewrite rev_app_distr, dropwhile_app_all by (now apply forallb_rev).
  reflexivity.
Qed.

Lemma strip_spaces_around (w1 w2 s : str) :
  forallb is_space w1 = true -> forallb is_space w2 = true ->
  strip (w1 ++ s ++ w2) = strip s.
Proof.
  intros H1 H2. unfold strip, lstrip.
  rewrite (dropwhile_app_all is_space w1 _ H1).
  induction s as [|c s IH].
  - simpl app. now rewrite (dropwhile_all _ _ H2).
  - simpl app. cbn [dropwhile]. destruct (is_space c); [exact IH|].
    now apply (rstrip_spaces (c :: s)).
Qed.

(** X20.  White space around the text of a briefing changes nothing: with
    blank lines or spaces before and after it the text has the same
    blocks, the same body and the same lede. *)
Theorem X20_surrounding_space (w1 w2 text : str) :
  forallb is_space w1 = true -> forallb is_space w2 = true ->
  md_blocks (w1 ++ text ++ w2) = md_blocks text
  /\ md_to_html (w1 ++ text ++ w2) = md_to_html text
  /\ extract_lede (w1 ++ text ++ w2) = extract_lede text.
Proof.
  intros H1 H2. unfold md_to_html, md_blocks, extract_lede.
  now rewrite (strip_spaces_around w1 w2 text H1 H2).
Qed.

Lemma X20_surrounding_space_witness :
  md_to_html ([NL; SPACE; NL] ++ text_0218 ++ [SPACE; NL])
  = md_to_html text_0218.
Proof.
  apply (X20_surrounding_space [NL; SPACE; NL] [SPACE; NL] text_0218);
    vm_compute; reflexivity.
Defined.

(** ** Runs over a directory of the program's own files *)

Lemma write_file_stems (files : list (str * str)) (stem content : str) :
  map fst (write_file files stem content)
  = if existsb (fun f => str_eqb (fst f) stem) files then map fst files
    else map fst files ++ [stem].
Proof.
  induction files as [|[s c] files IH]; [reflexivity|].
  cbn [write_file existsb fst]. destruct (str_eqb s stem) eqn:E.
  - apply str_eqb_eq in E. subst s. reflexivity.
  - cbn [map fst orb]. rewrite IH.
    destruct (existsb (fun f => str_eqb (fst f) stem) files); reflexivity.
Qed.

Lemma write_file_from (files : list (str * str)) (stem content : str)
      (f : str * str) :
  In f (write_file files stem content) -> f = (stem, content) \/ In f files.
Proof.
  induction files as [|[s c] files IH]; cbn [write_file].
  - intros [<-|[]]. now left.
  - destruct (str_eqb s stem).
    + intros [<-|H]; [now left|right; now right].
    + intros [<-|H]; [right; now left|].
      destruct (IH H) as [->|H']; [now left|right; now right].
Qed.

Lemma write_file_nodup (files : list (str * str)) (stem content : str) :
  NoDup (map fst files) -> NoDup (map fst (write_file files stem content)).
Proof.
  intros H. rewrite write_file_stems.
  destruct (existsb (fun f => str_eqb (fst f) stem) files) eqn:E; [exact H|].
  apply (Permutation_NoDup (Permutation_cons_append (map fst files) stem)).
  constructor; [|exact H].
  intros Hin. apply in_map_iff in Hin as (f & Hf & Hin).
  assert (Hex : existsb (fun f => str_eqb (fst f) stem) files = true).
  { apply existsb_exists. exists f. split; [exact Hin|].
    now apply str_eqb_eq. }
  rewrite Hex in E. discriminate E.
Qed.

Lemma own_file_record (f : str * str) :
  own_file f ->
  bad_date_name f = false
  /\ exists d, file_record f = [mkpost d (fst f) (recover_lede (snd f))].
Proof.
  intros (d & Hv & _ & E). unfold bad_date_name, file_record.
  rewrite E, search_date_own_slug, (strptime_slug_valid d Hv).
  split; [reflexivity|now exists d].
Qed.

Lemma own_files_records (files : list (str * str)) :
  Forall own_file files ->
  existsb bad_date_name files = false
  /\ map p_slug (flat_map file_record files) = map fst files.
Proof.
  induction 1 as [|f files Hf _ [IH1 IH2]]; [split; reflexivity|].
  destruct (own_file_record f Hf) as [Hb [d Hr]].
  cbn [existsb flat_map map]. rewrite Hb, IH1, Hr.
  split; [reflexivity|]. cbn [app map p_slug]. now rewrite IH2.
Qed.

Lemma filter_slugs (slug : str) (l : list post) :
  map p_slug (filter (fun p => negb (str_eqb (p_slug p) slug)) l)
  = filter (fun x => negb (str_eqb x slug)) (map p_slug l).
Proof.
  induction l as [|q l IH]; [reflexivity|]. simpl.
  destruct (str_eqb (p_slug q) slug); simpl; now rewrite IH.
Qed.

Lemma filter_absent (slug : str) (l : list str) :
  ~ In slug l -> filter (fun x => negb (str_eqb x slug)) l = l.
Proof.
  induction l as [|x l IH]; [reflexivity|]. intros H. simpl.
  destruct (str_eqb x slug) eqn:E.
  - apply str_eqb_eq in E. destruct H. now left.
  - simpl. rewrite IH; [reflexivity|]. intros Hin. apply H. now right.
Qed.

Lemma filter_one_back (slug : str) (l : list str) :
  NoDup l -> In slug l ->
  Permutation (filter (fun x => negb (str_eqb x slug)) l ++ [slug]) l.
Proof.
  induction 1 as [|x l Hx Hnd IH]; [intros []|].
  intros Hin. simpl. destruct (str_eqb x slug) eqn:E.
  - apply str_eqb_eq in E. subst x. simpl.
    rewrite (filter_absent slug l Hx).
    apply Permutation_sym, Permutation_cons_append.
  - simpl. constructor. apply IH.
    destruct Hin as [->|Hin]; [|exact Hin].
    rewrite str_eqb_refl in E. discriminate E.
Qed.

(** X21.  On a posts directory of its own making (every file named by the
    slug of a date of the calendar, no name twice; the missing directory
    counts as empty) a run of [main] on a briefing with a date in its name
    never fails; the directory it leaves is of the same kind and holds the
    page of the new post; and the list handed to the index renderer has
    exactly one record for each file of that directory, so that every index
    entry links to a post file that exists and every post file is
    listed. *)
Theorem X21_own_directory (dir : posts_dir) (md_stem md_text : str)
        (d : date) :
  own_dir (files_of dir) ->
  parse_date_from_filename md_stem = Parsed d -> 1000 <= year d ->
  exists files1 posts1,
    main dir md_stem md_text = Done (Some files1) posts1 (render_index posts1)
    /\ own_dir files1
    /\ In (post_slug d, render_post d (md_to_html md_text)) files1
    /\ Permutation (map p_slug posts1) (map fst files1)
    /\ NoDup (map p_slug posts1).
Proof.
  intros [Hown Hnd] Hparse Hy.
  destruct (main_effects_parsed dir None md_stem md_text d Hparse)
    as (Hv & Hm & _).
  set (page := render_post d (md_to_html md_text)) in *.
  set (files1 := write_file (files_of dir) (post_slug d) page).
  assert (Hdir : mkdir_write dir (post_slug d) page = Some files1)
    by (destruct dir; reflexivity).
  assert (Hown1 : Forall own_file files1).
  { rewrite Forall_forall. intros f Hin.
    apply write_file_from in Hin as [->|Hin].
    - exists d. repeat split; [exact Hv|exact Hy].
    - rewrite Forall_forall in Hown. now apply Hown. }
  assert (Hnd1 : NoDup (map fst files1)) by (now apply write_file_nodup).
  destruct (own_files_records files1 Hown1) as [Hbad Hslugs].
  rewrite Hdir in Hm. cbn [collect_existing_posts] in Hm.
  rewrite collect_files_cases, Hbad in Hm.
  set (rec := flat_map file_record files1) in *.
  set (new := mkpost d (post_slug d) (extract_lede md_text)) in *.
  assert (Hperm : Permutation (map p_slug (merge_posts rec new))
                    (map fst files1)).
  { eapply Permutation_trans;
      [apply Permutation_map, merge_posts_perm|].
    rewrite map_app, filter_slugs, Hslugs.
    apply filter_one_back; [exact Hnd1|].
    apply in_map_iff. exists (post_slug d, page).
    split; [reflexivity|apply write_file_in]. }
  exists files1, (merge_posts rec new).
  split; [exact Hm|]. split; [split; assumption|].
  split; [apply write_file_in|]. split; [exact Hperm|].
  apply (Permutation_NoDup (Permutation_sym Hperm) Hnd1).
Qed.

Lemma X21_own_directory_witness :
  exists files1 posts1,
    main (Some [(lit "2026-02-17", post_two_dots)]) stem_0218 text_0218
    = Done (Some files1) posts1 (render_index posts1)
    /\ own_dir files1
    /\ In (post_slug (mkdate 2026 2 18),
           render_post (mkdate 2026 2 18) (md_to_html text_0218)) files1
    /\ Permutation (map p_slug posts1) (map fst files1)
    /\ NoDup (map p_slug posts1).
Proof.
  apply (X21_own_directory (Some [(lit "2026-02-17", post_two_dots)])
           stem_0218 text_0218 (mkdate 2026 2 18)).
  - split.
    + constructor; [|constructor].
      exists (mkdate 2026 2 17).
      repeat split; vm_compute; (reflexivity || discriminate).
    + repeat constructor. intros [].
  - vm_compute. reflexivity.
  - vm_compute. discriminate.
Defined.
